(** * Huckter chat client: call signalling, media negotiation and message sync

    A shallow embedding of the call-lifecycle controller, the ICE-server
    resolver and the message list of the React client (App.tsx), together
    with the row-level-security policies that guard [call_requests], the
    database functions for rooms and invites, and the token endpoint the
    resolver calls.

    Conventions of the embedding.
    - React state and refs are fields of one [State] record; a handler is
      a computation in a small state-and-exception monad [M].
    - Every answer of the outside world that a handler awaits (media
      devices, the token endpoint, the peer connection, the database) is a
      field of [Host]. In [M], and so in [handle] and [step], a handler
      runs to completion against one [Host]: every promise it awaits has
      settled before the next event is delivered.
    - [Async] has the same handlers with every wait explicit: a handler
      runs up to its first pending promise, what is left of it is resumed
      later, and other events may be delivered in between. [step] is the
      schedule of [Async] in which nothing comes in between.
    - Calls on external objects that leave no trace in React state
      ([close()] on a peer connection, [stop()] on a track, requests sent
      to the database or the broadcast channel) are recorded in the
      [Effects] part of the state. *)

From Stdlib Require Import ZArith List String Ascii Bool QArith Qround Lia.
Import ListNotations.

Local Open Scope string_scope.
Local Open Scope Z_scope.

(** ** JavaScript values received as [unknown] *)

(** The result of [Number(x)]. *)
Inductive JsNumber :=
| JNaN
| JInfinity (negative : bool)
| JFinite (q : Q).

#[local] Unset Elimination Schemes.
Inductive JsVal :=
| JUndefined
| JNull
| JBool (b : bool)
| JNum (n : JsNumber)
| JStr (s : string)
| JArr (items : list JsVal)
| JObj (props : list (string * JsVal)).
#[local] Set Elimination Schemes.

(** [value[key]] on a parsed JSON object. *)
Fixpoint getProp (props : list (string * JsVal)) (key : string) : JsVal :=
  match props with
  | [] => JUndefined
  | (k, v) :: rest => if String.eqb k key then v else getProp rest key
  end.

(** [a ?? b] *)
Definition nullish_or (a b : JsVal) : JsVal :=
  match a with
  | JUndefined | JNull => b
  | _ => a
  end.

(** [Number.isFinite(n) && n > 0 ? Math.floor(n) : dflt] *)
Definition positive_floor_or (n : JsNumber) (dflt : Z) : Z :=
  match n with
  | JFinite q => if Qlt_le_dec 0 q then Qfloor q else dflt
  | _ => dflt
  end.

(** ** ICE servers *)

Inductive Urls :=
| UrlOne (u : string)
| UrlMany (us : list string).

Record RTCIceServer := {
  urls : Urls;
  username : option string;
  credential : option string
}.

Definition defaultIceServers : list RTCIceServer :=
  [ {| urls := UrlMany ["stun:stun.l.google.com:19302";
                        "stun:stun1.l.google.com:19302"];
       username := None;
       credential := None |} ].

(** [urls.every((item) => typeof item === "string")], keeping the items. *)
Fixpoint every_string (items : list JsVal) : option (list string) :=
  match items with
  | [] => Some []
  | JStr s :: rest =>
      match every_string rest with
      | Some ss => Some (s :: ss)
      | None => None
      end
  | _ :: _ => None
  end.

Definition string_field (v : JsVal) : option string :=
  match v with
  | JStr s => Some s
  | _ => None
  end.

Definition normalizeIceServer (entry : JsVal) : option RTCIceServer :=
  match entry with
  | JObj value =>
      let u := nullish_or (getProp value "urls") (getProp value "url") in
      let server us :=
        {| urls := us;
           username := string_field (getProp value "username");
           credential := string_field (getProp value "credential") |} in
      match u with
      | JStr s => Some (server (UrlOne s))
      | JArr items =>
          match every_string items with
          | Some ss => Some (server (UrlMany ss))
          | None => None
          end
      | _ => None
      end
  | _ => None
  end.

(** [value.map(normalizeIceServer).filter(entry => entry !== null)] *)
Fixpoint keep_servers (entries : list JsVal) : list RTCIceServer :=
  match entries with
  | [] => []
  | e :: rest =>
      match normalizeIceServer e with
      | Some s => s :: keep_servers rest
      | None => keep_servers rest
      end
  end.

Definition sanitizeIceServers (value : JsVal) : list RTCIceServer :=
  match value with
  | JArr entries => keep_servers entries
  | _ => []
  end.

(** ASCII case folding, as the [i] flag does for a pattern of ASCII letters. *)
Definition lower_ascii (c : ascii) : ascii :=
  let n := nat_of_ascii c in
  if (Nat.leb 65 n && Nat.leb n 90)%bool then ascii_of_nat (n + 32) else c.

Fixpoint lower (s : string) : string :=
  match s with
  | EmptyString => EmptyString
  | String c rest => String (lower_ascii c) (lower rest)
  end.

(** [/^turns?:/i.test(url)] *)
Definition is_turn_url (url : string) : bool :=
  (String.prefix "turn:" (lower url) || String.prefix "turns:" (lower url))%bool.

Definition urls_list (u : Urls) : list string :=
  match u with
  | UrlOne s => [s]
  | UrlMany ss => ss
  end.

Definition hasTurnServer (servers : list RTCIceServer) : bool :=
  existsb (fun server => existsb is_turn_url (urls_list (urls server))) servers.

(** [import.meta.env.VITE_ICE_SERVERS_JSON] as [parseIceServers] sees it. *)
Inductive IceServersJson :=
| EnvBlank                      (* unset, empty or white space only *)
| EnvUnparsable                 (* [JSON.parse] throws *)
| EnvParsed (v : JsVal).

Definition parseIceServers (raw : IceServersJson) : list RTCIceServer :=
  match raw with
  | EnvBlank => defaultIceServers
  | EnvUnparsable => defaultIceServers
  | EnvParsed parsed =>
      match sanitizeIceServers parsed with
      | [] => defaultIceServers
      | valid => valid
      end
  end.

(** ** Data model *)

Definition UserId := string.
Definition Sdp := string.
Definition Candidate := string.
Definition Track := nat.
Definition MediaStream := list Track.

(** A string used as a condition: [""] is falsy. *)
Definition truthy (s : string) : bool := negb (String.eqb s "").

Definition truthy_opt (o : option string) : bool :=
  match o with
  | Some s => truthy s
  | None => false
  end.

Inductive Status := pending | accepted | rejected | ended | cancelled.

Definition Status_eqb (a b : Status) : bool :=
  match a, b with
  | pending, pending | accepted, accepted | rejected, rejected
  | ended, ended | cancelled, cancelled => true
  | _, _ => false
  end.

Inductive CallStatus := idle | requesting | ringing | connecting | in_call | error.

Definition CallStatus_eqb (a b : CallStatus) : bool :=
  match a, b with
  | idle, idle | requesting, requesting | ringing, ringing
  | connecting, connecting | in_call, in_call | error, error => true
  | _, _ => false
  end.

(** [Partial<CallRequestRow>]: an absent numeric field makes [Number(..)]
    NaN, an absent string field is [undefined]. *)
Record CallRequestRow := {
  row_id : option Z;
  row_conversation_id : option Z;
  row_requester_id : option UserId;
  row_accepted_by : option UserId;
  row_status : option Status
}.

Record ActiveCall := {
  ac_id : Z;
  ac_conversationId : Z;
  ac_requesterId : UserId;
  ac_acceptedBy : option UserId;
  ac_status : Status
}.

Record SignalPayload := {
  sig_callId : Z;
  sig_from : UserId;
  sig_to : option UserId;
  sig_conversationId : Z;
  sig_sdp : option Sdp;
  sig_candidate : option Candidate
}.

Inductive SignalEvent :=
| call_accepted | webrtc_offer | webrtc_answer | webrtc_ice | call_ended.

Definition normalizeCall (row : CallRequestRow) : option ActiveCall :=
  match row_id row, row_conversation_id row, row_requester_id row with
  | Some i, Some c, Some r =>
      if truthy r then
        Some {| ac_id := i;
                ac_conversationId := c;
                ac_requesterId := r;
                ac_acceptedBy := row_accepted_by row;
                ac_status := match row_status row with
                             | Some st => st
                             | None => pending
                             end |}
      else None
  | _, _, _ => None
  end.

(** [RTCPeerConnection]: [pc_id] is the identity of the object (the n-th
    connection constructed by this client). *)
Record Peer := {
  pc_id : nat;
  pc_call : ActiveCall;
  pc_owner : UserId;
  pc_stream : MediaStream;
  pc_iceServers : list RTCIceServer;
  remoteDescription : option Sdp;
  localDescription : option Sdp;
  addedCandidates : list Candidate
}.

Record IceCache := {
  servers : list RTCIceServer;
  expiresAt : Z
}.

Inductive IceConfigMode := mode_env | mode_dynamic.

(** Requests that leave the client. *)
Inductive Output :=
| InsertCallRequest (conversation_id : Z) (requester_id : UserId) (st : Status)
| UpdateCallRequest (id : Z) (st : Status) (accepted_by : option UserId)
| SendSignal (event : SignalEvent) (payload : SignalPayload)
| FetchIceServers.

(** *** State of the component *)

Record CallView := {
  callStatus : CallStatus;
  callError : option string;
  activeCall : option ActiveCall;
  incomingCall : option ActiveCall;
  pendingOutgoingCall : option ActiveCall
}.

Record CallRefs := {
  activeCallRef : option ActiveCall;
  incomingCallRef : option ActiveCall;
  pendingOutgoingCallRef : option ActiveCall
}.

Record Media := {
  peerConnectionRef : option Peer;
  pendingRemoteCandidatesRef : list Candidate;
  handshakeStartedForCallRef : option Z;
  localStream : option MediaStream;
  remoteStream : option MediaStream;
  isMicMuted : bool
}.

Record IceConfig := {
  dynamicIceCacheRef : option IceCache;
  currentIceServers : list RTCIceServer;
  iceConfigMode : IceConfigMode
}.

Record Effects := {
  peersCreated : nat;
  closedPeers : list nat;
  stoppedTracks : list Track;
  connectingTimer : option Z;     (* due time of the pending [setTimeout] *)
  outbox : list Output
}.

Record State := {
  currentUser : option UserId;
  activeConversationId : option Z;
  view : CallView;
  refs : CallRefs;
  media : Media;
  ice : IceConfig;
  effects : Effects
}.

(** What a handler awaits from the outside world. *)
Inductive Thrown :=
| ErrorObject (message : string)     (* [error instanceof Error] *)
| OtherValue.

Record IceServerFunctionResponse := {
  iceServers : JsVal;
  ttlSeconds : JsNumber             (* [Number(payload.ttlSeconds)] *)
}.

Inductive FetchOutcome :=
| FetchRejects                                   (* network or session error *)
| FetchResponse (ok : bool) (body : option IceServerFunctionResponse).
                                                 (* [None]: [json()] rejects *)

Record Host := {
  now : Z;                                       (* [Date.now()] *)
  VITE_ICE_SERVERS_JSON : IceServersJson;
  isSecureContext : bool;
  hasGetUserMedia : bool;
  getUserMedia : Thrown + MediaStream;
  iceFetch : FetchOutcome;
  newPeerConnection : option Thrown;             (* the constructor throws *)
  createOffer : Thrown + Sdp;
  createAnswer : Thrown + Sdp;
  setLocalDescription : option Thrown;
  setRemoteDescription : Sdp -> option Thrown;
  addIceCandidate : Candidate -> option Thrown;
  insertCallRequest : string + Z;                (* error message or new id *)
  updateCallRequest : option string              (* error message *)
}.

Definition ICE_SERVERS (h : Host) : list RTCIceServer :=
  parseIceServers (VITE_ICE_SERVERS_JSON h).

(** *** Field updates *)

Definition with_view (f : CallView -> CallView) (s : State) : State :=
  {| currentUser := currentUser s;
     activeConversationId := activeConversationId s;
     view := f (view s);
     refs := refs s;
     media := media s;
     ice := ice s;
     effects := effects s |}.

Definition with_media (f : Media -> Media) (s : State) : State :=
  {| currentUser := currentUser s;
     activeConversationId := activeConversationId s;
     view := view s;
     refs := refs s;
     media := f (media s);
     ice := ice s;
     effects := effects s |}.

Definition with_ice (f : IceConfig -> IceConfig) (s : State) : State :=
  {| currentUser := currentUser s;
     activeConversationId := activeConversationId s;
     view := view s;
     refs := refs s;
     media := media s;
     ice := f (ice s);
     effects := effects s |}.

Definition with_effects (f : Effects -> Effects) (s : State) : State :=
  {| currentUser := currentUser s;
     activeConversationId := activeConversationId s;
     view := view s;
     refs := refs s;
     media := media s;
     ice := ice s;
     effects := f (effects s) |}.

Definition setActiveConversationId (v : option Z) (s : State) : State :=
  {| currentUser := currentUser s;
     activeConversationId := v;
     view := view s;
     refs := refs s;
     media := media s;
     ice := ice s;
     effects := effects s |}.

Definition setCallStatus (v : CallStatus) : State -> State :=
  with_view (fun w =>
    {| callStatus := v; callError := callError w; activeCall := activeCall w;
       incomingCall := incomingCall w;
       pendingOutgoingCall := pendingOutgoingCall w |}).

Definition setCallError (v : option string) : State -> State :=
  with_view (fun w =>
    {| callStatus := callStatus w; callError := v; activeCall := activeCall w;
       incomingCall := incomingCall w;
       pendingOutgoingCall := pendingOutgoingCall w |}).

Definition setActiveCall (v : option ActiveCall) : State -> State :=
  with_view (fun w =>
    {| callStatus := callStatus w; callError := callError w; activeCall := v;
       incomingCall := incomingCall w;
       pendingOutgoingCall := pendingOutgoingCall w |}).

Definition setIncomingCall (v : option ActiveCall) : State -> State :=
  with_view (fun w =>
    {| callStatus := callStatus w; callError := callError w;
       activeCall := activeCall w; incomingCall := v;
       pendingOutgoingCall := pendingOutgoingCall w |}).

Definition setPendingOutgoingCall (v : option ActiveCall) : State -> State :=
  with_view (fun w =>
    {| callStatus := callStatus w; callError := callError w;
       activeCall := activeCall w; incomingCall := incomingCall w;
       pendingOutgoingCall := v |}).

Definition setPeerConnection (v : option Peer) : State -> State :=
  with_media (fun m =>
    {| peerConnectionRef := v;
       pendingRemoteCandidatesRef := pendingRemoteCandidatesRef m;
       handshakeStartedForCallRef := handshakeStartedForCallRef m;
       localStream := localStream m; remoteStream := remoteStream m;
       isMicMuted := isMicMuted m |}).

Definition setPendingRemoteCandidates (v : list Candidate) : State -> State :=
  with_media (fun m =>
    {| peerConnectionRef := peerConnectionRef m;
       pendingRemoteCandidatesRef := v;
       handshakeStartedForCallRef := handshakeStartedForCallRef m;
       localStream := localStream m; remoteStream := remoteStream m;
       isMicMuted := isMicMuted m |}).

Definition setHandshakeStartedForCall (v : option Z) : State -> State :=
  with_media (fun m =>
    {| peerConnectionRef := peerConnectionRef m;
       pendingRemoteCandidatesRef := pendingRemoteCandidatesRef m;
       handshakeStartedForCallRef := v;
       localStream := localStream m; remoteStream := remoteStream m;
       isMicMuted := isMicMuted m |}).

Definition setLocalStream (v : option MediaStream) : State -> State :=
  with_media (fun m =>
    {| peerConnectionRef := peerConnectionRef m;
       pendingRemoteCandidatesRef := pendingRemoteCandidatesRef m;
       handshakeStartedForCallRef := handshakeStartedForCallRef m;
       localStream := v; remoteStream := remoteStream m;
       isMicMuted := isMicMuted m |}).

Definition setRemoteStream (v : option MediaStream) : State -> State :=
  with_media (fun m =>
    {| peerConnectionRef := peerConnectionRef m;
       pendingRemoteCandidatesRef := pendingRemoteCandidatesRef m;
       handshakeStartedForCallRef := handshakeStartedForCallRef m;
       localStream := localStream m; remoteStream := v;
       isMicMuted := isMicMuted m |}).

Definition setIsMicMuted (v : bool) : State -> State :=
  with_media (fun m =>
    {| peerConnectionRef := peerConnectionRef m;
       pendingRemoteCandidatesRef := pendingRemoteCandidatesRef m;
       handshakeStartedForCallRef := handshakeStartedForCallRef m;
       localStream := localStream m; remoteStream := remoteStream m;
       isMicMuted := v |}).

Definition setDynamicIceCache (v : option IceCache) : State -> State :=
  with_ice (fun c =>
    {| dynamicIceCacheRef := v; currentIceServers := currentIceServers c;
       iceConfigMode := iceConfigMode c |}).

Definition setCurrentIceServers (v : list RTCIceServer) : State -> State :=
  with_ice (fun c =>
    {| dynamicIceCacheRef := dynamicIceCacheRef c; currentIceServers := v;
       iceConfigMode := iceConfigMode c |}).

Definition setIceConfigMode (v : IceConfigMode) : State -> State :=
  with_ice (fun c =>
    {| dynamicIceCacheRef := dynamicIceCacheRef c;
       currentIceServers := currentIceServers c; iceConfigMode := v |}).

Definition push_output (o : Output) : State -> State :=
  with_effects (fun e =>
    {| peersCreated := peersCreated e; closedPeers := closedPeers e;
       stoppedTracks := stoppedTracks e; connectingTimer := connectingTimer e;
       outbox := outbox e ++ [o] |}).

Definition record_close (p : Peer) : State -> State :=
  with_effects (fun e =>
    {| peersCreated := peersCreated e;
       closedPeers := closedPeers e ++ [pc_id p];
       stoppedTracks := stoppedTracks e; connectingTimer := connectingTimer e;
       outbox := outbox e |}).

Definition record_stop (tracks : list Track) : State -> State :=
  with_effects (fun e =>
    {| peersCreated := peersCreated e; closedPeers := closedPeers e;
       stoppedTracks := stoppedTracks e ++ tracks;
       connectingTimer := connectingTimer e; outbox := outbox e |}).

Definition record_new_peer : State -> State :=
  with_effects (fun e =>
    {| peersCreated := S (peersCreated e); closedPeers := closedPeers e;
       stoppedTracks := stoppedTracks e; connectingTimer := connectingTimer e;
       outbox := outbox e |}).

Definition setConnectingTimer (v : option Z) : State -> State :=
  with_effects (fun e =>
    {| peersCreated := peersCreated e; closedPeers := closedPeers e;
       stoppedTracks := stoppedTracks e; connectingTimer := v;
       outbox := outbox e |}).

Definition sync_refs (s : State) : State :=
  {| currentUser := currentUser s;
     activeConversationId := activeConversationId s;
     view := view s;
     refs := {| activeCallRef := activeCall (view s);
                incomingCallRef := incomingCall (view s);
                pendingOutgoingCallRef := pendingOutgoingCall (view s) |};
     media := media s;
     ice := ice s;
     effects := effects s |}.

(** ** Handlers as computations *)

Inductive Res (A : Type) :=
| Ok (a : A)
| Raise (e : Thrown).
Arguments Ok {A} a.
Arguments Raise {A} e.

Definition M (A : Type) : Type := State -> Res A * State.

Definition ret {A} (a : A) : M A := fun s => (Ok a, s).

Definition bind {A B} (m : M A) (k : A -> M B) : M B :=
  fun s =>
    match m s with
    | (Ok a, s') => k a s'
    | (Raise e, s') => (Raise e, s')
    end.

Definition throw {A} (e : Thrown) : M A := fun s => (Raise e, s).

Definition try_catch {A} (m : M A) (handler : Thrown -> M A) : M A :=
  fun s =>
    match m s with
    | (Ok a, s') => (Ok a, s')
    | (Raise e, s') => handler e s'
    end.

Definition gets {A} (f : State -> A) : M A := fun s => (Ok (f s), s).

Definition modify (f : State -> State) : M unit := fun s => (Ok tt, f s).

(** [await p] for a promise that settles with [r]. *)
Definition await {A} (r : Thrown + A) : M A :=
  match r with
  | inl e => throw e
  | inr a => ret a
  end.

Definition await_void (r : option Thrown) : M unit :=
  match r with
  | Some e => throw e
  | None => ret tt
  end.

(** The state a handler leaves behind; a rejection nobody catches keeps
    the writes made before it. *)
Definition run (m : M unit) (s : State) : State := snd (m s).

Declare Scope monad_scope.
Delimit Scope monad_scope with monad.
Notation "x <- m ;; k" := (bind m (fun x => k))
  (at level 61, m at next level, right associativity) : monad_scope.
Notation "m ;; k" := (bind m (fun _ => k))
  (at level 61, right associativity) : monad_scope.
Local Open Scope monad_scope.

Definition error_message (e : Thrown) (fallback : string) : string :=
  match e with
  | ErrorObject m => m
  | OtherValue => fallback
  end.

(** *** Media and negotiation *)

Definition peerConnection (s : State) : option Peer := peerConnectionRef (media s).

Definition resetCallMedia : M unit :=
  peer <- gets peerConnection ;;
  match peer with
  | Some p => modify (record_close p) ;; modify (setPeerConnection None)
  | None => ret tt
  end ;;
  modify (setPendingRemoteCandidates []) ;;
  modify (setHandshakeStartedForCall None) ;;
  mine <- gets (fun s => localStream (media s)) ;;
  match mine with
  | Some tracks => modify (record_stop tracks)
  | None => ret tt
  end ;;
  modify (setLocalStream None) ;;
  theirs <- gets (fun s => remoteStream (media s)) ;;
  match theirs with
  | Some tracks => modify (record_stop tracks)
  | None => ret tt
  end ;;
  modify (setRemoteStream None) ;;
  modify (setIsMicMuted false).

Definition assertMediaContext (h : Host) : M unit :=
  if negb (isSecureContext h) then
    throw (ErrorObject
      "Calls need secure context. Open this app on trusted HTTPS (or localhost).")
  else if negb (hasGetUserMedia h) then
    throw (ErrorObject
      "This browser/device does not allow camera or microphone access.")
  else ret tt.

Definition ensureLocalStream (h : Host) : M MediaStream :=
  assertMediaContext h ;;
  mine <- gets (fun s => localStream (media s)) ;;
  match mine with
  | Some stream => ret stream
  | None =>
      stream <- await (getUserMedia h) ;;
      modify (setLocalStream (Some stream)) ;;
      ret stream
  end.

(** The channel ref is set by the effect that installs the signal
    handlers, so it is present whenever a handler of a signed-in user runs. *)
Definition sendCallSignal (event : SignalEvent) (payload : SignalPayload) : M unit :=
  modify (push_output (SendSignal event payload)).

Definition cache_fresh (h : Host) (cached : option IceCache)
  : option (list RTCIceServer) :=
  match cached with
  | Some c => if now h + 15000 <? expiresAt c then Some (servers c) else None
  | None => None
  end.

(** [fetch(...)], the [response.ok] test and [response.json()]. The
    message of the error thrown for a non-2xx response also carries the
    status code; [resolveIceServers] catches it without reading it. *)
Definition fetch_payload (h : Host) : M IceServerFunctionResponse :=
  modify (push_output FetchIceServers) ;;
  match iceFetch h with
  | FetchRejects => throw OtherValue
  | FetchResponse false _ => throw (ErrorObject "TURN endpoint request failed.")
  | FetchResponse true None => throw OtherValue
  | FetchResponse true (Some data) => ret data
  end.

Definition resolveIceServers (h : Host) : M (list RTCIceServer) :=
  cached <- gets (fun s => dynamicIceCacheRef (ice s)) ;;
  match cache_fresh h cached with
  | Some cachedServers => ret cachedServers
  | None =>
      try_catch
        (payload <- fetch_payload h ;;
         let parsedServers := sanitizeIceServers (iceServers payload) in
         match parsedServers with
         | [] => throw (ErrorObject "No ICE servers returned by TURN endpoint.")
         | _ :: _ =>
             let ttl := positive_floor_or (ttlSeconds payload) 600 in
             let refreshSeconds := Z.max 30 (ttl - 60) in
             modify (setDynamicIceCache
                       (Some {| servers := parsedServers;
                                expiresAt := now h + refreshSeconds * 1000 |})) ;;
             modify (setCurrentIceServers parsedServers) ;;
             modify (setIceConfigMode mode_dynamic) ;;
             ret parsedServers
         end)
        (fun _ =>
           modify (setCurrentIceServers (ICE_SERVERS h)) ;;
           modify (setIceConfigMode mode_env) ;;
           ret (ICE_SERVERS h))
  end.

Definition peer_with_remote (sdp : Sdp) (p : Peer) : Peer :=
  {| pc_id := pc_id p; pc_call := pc_call p; pc_owner := pc_owner p;
     pc_stream := pc_stream p; pc_iceServers := pc_iceServers p;
     remoteDescription := Some sdp; localDescription := localDescription p;
     addedCandidates := addedCandidates p |}.

Definition peer_with_local (sdp : Sdp) (p : Peer) : Peer :=
  {| pc_id := pc_id p; pc_call := pc_call p; pc_owner := pc_owner p;
     pc_stream := pc_stream p; pc_iceServers := pc_iceServers p;
     remoteDescription := remoteDescription p; localDescription := Some sdp;
     addedCandidates := addedCandidates p |}.

Definition peer_with_candidate (c : Candidate) (p : Peer) : Peer :=
  {| pc_id := pc_id p; pc_call := pc_call p; pc_owner := pc_owner p;
     pc_stream := pc_stream p; pc_iceServers := pc_iceServers p;
     remoteDescription := remoteDescription p;
     localDescription := localDescription p;
     addedCandidates := addedCandidates p ++ [c] |}.

(** A method call that mutates the connection held in [peerConnectionRef]. *)
Definition update_peer (f : Peer -> Peer) (s : State) : State :=
  match peerConnection s with
  | Some p => setPeerConnection (Some (f p)) s
  | None => s
  end.

Definition peer_setRemoteDescription (h : Host) (sdp : Sdp) : M unit :=
  await_void (setRemoteDescription h sdp) ;;
  modify (update_peer (peer_with_remote sdp)).

Definition peer_setLocalDescription (h : Host) (sdp : Sdp) : M unit :=
  await_void (setLocalDescription h) ;;
  modify (update_peer (peer_with_local sdp)).

Definition peer_addIceCandidate (h : Host) (c : Candidate) : M unit :=
  await_void (addIceCandidate h c) ;;
  modify (update_peer (peer_with_candidate c)).

(** The [for ... of queued] loop with its per-candidate [try]/[catch]. *)
Fixpoint add_queued (h : Host) (queued : list Candidate) : M unit :=
  match queued with
  | [] => ret tt
  | candidate :: rest =>
      try_catch (peer_addIceCandidate h candidate) (fun _ => ret tt) ;;
      add_queued h rest
  end.

Definition flushPendingRemoteCandidates (h : Host) : M unit :=
  peer <- gets peerConnection ;;
  match peer with
  | None => ret tt
  | Some p =>
      match remoteDescription p with
      | None => ret tt
      | Some _ =>
          queued <- gets (fun s => pendingRemoteCandidatesRef (media s)) ;;
          match queued with
          | [] => ret tt
          | _ :: _ =>
              modify (setPendingRemoteCandidates []) ;;
              add_queued h queued
          end
      end
  end.

Definition createPeerConnection (h : Host) (call : ActiveCall)
    (stream : MediaStream) (myUserId : UserId)
    (iceServers : list RTCIceServer) : M unit :=
  old <- gets peerConnection ;;
  match old with
  | Some p => modify (record_close p)
  | None => ret tt
  end ;;
  await_void (newPeerConnection h) ;;
  n <- gets (fun s => peersCreated (effects s)) ;;
  modify record_new_peer ;;
  modify (setPeerConnection
            (Some {| pc_id := n; pc_call := call; pc_owner := myUserId;
                     pc_stream := stream; pc_iceServers := iceServers;
                     remoteDescription := None; localDescription := None;
                     addedCandidates := [] |})).

Definition handshake_guard (call : ActiveCall) (s : State) : bool :=
  match handshakeStartedForCallRef (media s), peerConnection s with
  | Some started, Some _ => started =? ac_id call
  | _, _ => false
  end.

Definition startCallerHandshake (h : Host) (call : ActiveCall)
    (callerId : UserId) : M unit :=
  if negb (truthy_opt (ac_acceptedBy call)) then ret tt
  else
    guarded <- gets (handshake_guard call) ;;
    if guarded : bool then ret tt
    else
      modify (setHandshakeStartedForCall (Some (ac_id call))) ;;
      try_catch
        (modify (setCallStatus connecting) ;;
         stream <- ensureLocalStream h ;;
         iceServers <- resolveIceServers h ;;
         createPeerConnection h call stream callerId iceServers ;;
         offer <- await (createOffer h) ;;
         peer_setLocalDescription h offer ;;
         sendCallSignal webrtc_offer
           {| sig_callId := ac_id call;
              sig_conversationId := ac_conversationId call;
              sig_from := callerId;
              sig_to := ac_acceptedBy call;
              sig_sdp := Some offer;
              sig_candidate := None |})
        (fun e =>
           modify (setHandshakeStartedForCall None) ;;
           modify (setCallStatus error) ;;
           modify (setCallError
                     (Some (error_message e
                              "Could not start camera/mic for the call."))))
.

(** *** Persisted call-request notifications *)

Definition ref_id (slot : CallRefs -> option ActiveCall) (s : State) : option Z :=
  option_map ac_id (slot (refs s)).

Definition id_is (o : option Z) (i : Z) : bool :=
  match o with
  | Some j => j =? i
  | None => false
  end.

(** [activeCallRef.current?.id === i || incomingCallRef.current?.id === i ||
    pendingOutgoingCallRef.current?.id === i] *)
Definition isRelated (i : Z) (s : State) : bool :=
  (id_is (ref_id activeCallRef s) i
   || id_is (ref_id incomingCallRef s) i
   || id_is (ref_id pendingOutgoingCallRef s) i)%bool.

Definition is_user (o : option UserId) (me : UserId) : bool :=
  match o with
  | Some u => String.eqb u me
  | None => false
  end.

Definition handleCallChange (h : Host) (me : UserId) (raw : CallRequestRow)
  : M unit :=
  match normalizeCall raw with
  | None => ret tt
  | Some call =>
      match ac_status call with
      | pending =>
          if String.eqb (ac_requesterId call) me then
            modify (setPendingOutgoingCall (Some call)) ;;
            modify (setCallStatus requesting)
          else
            modify (setIncomingCall (Some call)) ;;
            current <- gets (fun s => callStatus (view s)) ;;
            modify (setCallStatus
                      (match current with idle => ringing | _ => current end))
      | accepted =>
          modify (setActiveConversationId (Some (ac_conversationId call))) ;;
          if (String.eqb (ac_requesterId call) me
              && truthy_opt (ac_acceptedBy call))%bool then
            modify (setPendingOutgoingCall None) ;;
            modify (setCallError None) ;;
            modify (setActiveCall (Some call)) ;;
            peer <- gets peerConnection ;;
            match peer with
            | None => startCallerHandshake h call me
            | Some _ => ret tt
            end
          else if is_user (ac_acceptedBy call) me then
            modify (setIncomingCall None) ;;
            modify (setCallError None) ;;
            modify (setActiveCall (Some call)) ;;
            modify (setCallStatus connecting)
          else ret tt
      | ended | cancelled | rejected =>
          related <- gets (isRelated (ac_id call)) ;;
          if related : bool then
            resetCallMedia ;;
            modify (setActiveCall None) ;;
            modify (setIncomingCall None) ;;
            modify (setPendingOutgoingCall None) ;;
            (if (Status_eqb (ac_status call) rejected
                 && String.eqb (ac_requesterId call) me)%bool
             then modify (setCallError (Some "Call was declined."))
             else ret tt) ;;
            modify (setCallStatus idle)
          else ret tt
      end
  end.

(** *** Broadcast signals *)

(** [signal.to && signal.to !== currentUser.id] *)
Definition for_someone_else (signal : SignalPayload) (me : UserId) : bool :=
  match sig_to signal with
  | Some t => (truthy t && negb (String.eqb t me))%bool
  | None => false
  end.

Definition accept_view (call : ActiveCall) (by_whom : UserId) : ActiveCall :=
  {| ac_id := ac_id call;
     ac_conversationId := ac_conversationId call;
     ac_requesterId := ac_requesterId call;
     ac_acceptedBy := Some by_whom;
     ac_status := accepted |}.

Definition matching (slot : option ActiveCall) (i : Z) : option ActiveCall :=
  match slot with
  | Some c => if ac_id c =? i then Some c else None
  | None => None
  end.

Definition on_call_accepted (h : Host) (me : UserId) (signal : SignalPayload)
  : M unit :=
  if for_someone_else signal me then ret tt
  else
    waiting <- gets (fun s => pendingOutgoingCallRef (refs s)) ;;
    match matching waiting (sig_callId signal) with
    | None => ret tt
    | Some pendingCall =>
        let acceptedCall := accept_view pendingCall (sig_from signal) in
        modify (setPendingOutgoingCall None) ;;
        modify (setActiveCall (Some acceptedCall)) ;;
        modify (setCallStatus connecting) ;;
        modify (setActiveConversationId
                  (Some (ac_conversationId acceptedCall))) ;;
        startCallerHandshake h acceptedCall me
    end.

(** The call an offer is answered for: the active call when its id
    matches, else the incoming call promoted to active. *)
Definition offer_call (me : UserId) (signal : SignalPayload)
  : M (option ActiveCall) :=
  current <- gets (fun s => activeCallRef (refs s)) ;;
  match matching current (sig_callId signal) with
  | Some call => ret (Some call)
  | None =>
      incoming <- gets (fun s => incomingCallRef (refs s)) ;;
      match matching incoming (sig_callId signal) with
      | None => ret None
      | Some inc =>
          let call := accept_view inc me in
          modify (setIncomingCall None) ;;
          modify (setActiveCall (Some call)) ;;
          ret (Some call)
      end
  end.

(** The [try]/[catch] block of the offer handler: the callee handshake. *)
Definition answer_offer (h : Host) (me : UserId) (call : ActiveCall)
    (signal : SignalPayload) (sdp : Sdp) : M unit :=
  try_catch
    (modify (setCallStatus connecting) ;;
     stream <- ensureLocalStream h ;;
     iceServers <- resolveIceServers h ;;
     createPeerConnection h call stream me iceServers ;;
     peer_setRemoteDescription h sdp ;;
     flushPendingRemoteCandidates h ;;
     answer <- await (createAnswer h) ;;
     peer_setLocalDescription h answer ;;
     sendCallSignal webrtc_answer
       {| sig_callId := ac_id call;
          sig_conversationId := ac_conversationId call;
          sig_from := me;
          sig_to := Some (sig_from signal);
          sig_sdp := Some answer;
          sig_candidate := None |})
    (fun e =>
       modify (setCallStatus error) ;;
       modify (setCallError
                 (Some (error_message e "Could not answer the call.")))).

Definition on_webrtc_offer (h : Host) (me : UserId) (signal : SignalPayload)
  : M unit :=
  if for_someone_else signal me then ret tt
  else
    match sig_sdp signal with
    | None => ret tt
    | Some sdp =>
        found <- offer_call me signal ;;
        match found with
        | None => ret tt
        | Some call => answer_offer h me call signal sdp
        end
    end.

Definition on_webrtc_answer (h : Host) (me : UserId) (signal : SignalPayload)
  : M unit :=
  if for_someone_else signal me then ret tt
  else
    peer <- gets peerConnection ;;
    match sig_sdp signal, peer with
    | Some sdp, Some _ =>
        peer_setRemoteDescription h sdp ;;
        flushPendingRemoteCandidates h
    | _, _ => ret tt
    end.

Definition on_webrtc_ice (h : Host) (me : UserId) (signal : SignalPayload)
  : M unit :=
  if for_someone_else signal me then ret tt
  else
    peer <- gets peerConnection ;;
    match sig_candidate signal, peer with
    | Some candidate, Some p =>
        try_catch
          (match remoteDescription p with
           | Some _ => peer_addIceCandidate h candidate
           | None =>
               queued <- gets (fun s => pendingRemoteCandidatesRef (media s)) ;;
               modify (setPendingRemoteCandidates (queued ++ [candidate]))
           end)
          (fun _ => ret tt)
    | _, _ => ret tt
    end.

Definition on_call_ended (signal : SignalPayload) : M unit :=
  related <- gets (isRelated (sig_callId signal)) ;;
  if related : bool then
    resetCallMedia ;;
    modify (setActiveCall None) ;;
    modify (setIncomingCall None) ;;
    modify (setPendingOutgoingCall None) ;;
    modify (setCallStatus idle)
  else ret tt.

Definition on_broadcast (h : Host) (me : UserId) (event : SignalEvent)
    (signal : SignalPayload) : M unit :=
  match event with
  | call_accepted => on_call_accepted h me signal
  | webrtc_offer => on_webrtc_offer h me signal
  | webrtc_answer => on_webrtc_answer h me signal
  | webrtc_ice => on_webrtc_ice h me signal
  | call_ended => on_call_ended signal
  end.

(** *** Callbacks of the peer connection *)

Inductive RTCPeerConnectionState :=
| pcs_new | pcs_connecting | pcs_connected | pcs_disconnected | pcs_failed
| pcs_closed.

Inductive RTCIceConnectionState :=
| ics_new | ics_checking | ics_connected | ics_completed | ics_failed
| ics_disconnected | ics_closed.

Definition onicecandidate (candidate : option Candidate) : M unit :=
  peer <- gets peerConnection ;;
  match candidate, peer with
  | Some c, Some p =>
      let call := pc_call p in
      let targetId :=
        if String.eqb (pc_owner p) (ac_requesterId call)
        then ac_acceptedBy call else Some (ac_requesterId call) in
      if truthy_opt targetId then
        sendCallSignal webrtc_ice
          {| sig_callId := ac_id call;
             sig_conversationId := ac_conversationId call;
             sig_from := pc_owner p;
             sig_to := targetId;
             sig_sdp := None;
             sig_candidate := Some c |}
      else ret tt
  | _, _ => ret tt
  end.

Definition onconnectionstatechange (st : RTCPeerConnectionState) : M unit :=
  match st with
  | pcs_connected =>
      modify (setCallStatus in_call) ;;
      modify (setCallError None)
  | pcs_failed =>
      modify (setCallStatus error) ;;
      modify (setCallError (Some "Call failed. Please try again."))
  | _ => ret tt
  end.

Definition oniceconnectionstatechange (st : RTCIceConnectionState) : M unit :=
  match st with
  | ics_failed =>
      modify (setCallStatus error) ;;
      modify (setCallError
                (Some "Could not establish media route. Add TURN server for restricted networks."))
  | _ => ret tt
  end.

Definition ontrack (streamFromPeer : option MediaStream) : M unit :=
  match streamFromPeer with
  | Some stream => modify (setRemoteStream (Some stream))
  | None => ret tt
  end.

(** *** The connecting-timeout effect *)

Definition connectingTimeoutMs : Z := 12000.

Definition stillConnectingMessage : string :=
  "Still connecting. This usually means peer networking is blocked; TURN server is required.".

(** The callback passed to [setTimeout]; it runs once the timer is due. *)
Definition onConnectingTimeout (h : Host) : M unit :=
  due <- gets (fun s => connectingTimer (effects s)) ;;
  match due with
  | Some t =>
      if t <=? now h then
        modify (setCallError (Some stillConnectingMessage)) ;;
        modify (setConnectingTimer None)
      else ret tt
  | None => ret tt
  end.

(** The effect keyed on [callStatus]: when the status differs from the one
    of the previous render, the old timer is cleared and, if the new
    status is [connecting], a new one is set. *)
Definition connecting_effect (h : Host) (before after : State) : State :=
  if CallStatus_eqb (callStatus (view before)) (callStatus (view after))
  then after
  else
    match callStatus (view after) with
    | connecting =>
        setConnectingTimer (Some (now h + connectingTimeoutMs)) after
    | _ => setConnectingTimer None after
    end.

(** *** User operations *)

Definition fail_call (message : string) : M unit :=
  modify (setCallStatus error) ;;
  modify (setCallError (Some message)).

(** The row [insert(...).select(...).single()] returns: the values sent,
    with the id the database assigned. *)
Definition inserted_row (conversation : Z) (me : UserId) (newId : Z)
  : CallRequestRow :=
  {| row_id := Some newId;
     row_conversation_id := Some conversation;
     row_requester_id := Some me;
     row_accepted_by := None;
     row_status := Some pending |}.

Definition requestCall (h : Host) : M unit :=
  user <- gets currentUser ;;
  conversation <- gets activeConversationId ;;
  match user, conversation with
  | Some me, Some conv =>
      current <- gets (fun s => callStatus (view s)) ;;
      match current with
      | connecting | in_call | requesting => ret tt
      | _ =>
          allowed <-
            try_catch
              (assertMediaContext h ;; ret true)
              (fun e =>
                 fail_call
                   (error_message e "This device cannot start calls here.") ;;
                 ret false) ;;
          if allowed : bool then
            modify (setCallError None) ;;
            modify (push_output (InsertCallRequest conv me pending)) ;;
            match insertCallRequest h with
            | inl message => fail_call message
            | inr newId =>
                match normalizeCall (inserted_row conv me newId) with
                | None => fail_call "Failed to create call request."
                | Some pendingCall =>
                    modify (setPendingOutgoingCall (Some pendingCall)) ;;
                    modify (setCallStatus requesting)
                end
            end
          else ret tt
      end
  | _, _ => ret tt
  end.

Definition acceptIncomingCall (h : Host) : M unit :=
  user <- gets currentUser ;;
  incoming <- gets (fun s => incomingCall (view s)) ;;
  match incoming, user with
  | Some inc, Some me =>
      modify (push_output (UpdateCallRequest (ac_id inc) accepted (Some me))) ;;
      match updateCallRequest h with
      | Some message => fail_call message
      | None =>
          let acceptedCall := accept_view inc me in
          modify (setActiveConversationId
                    (Some (ac_conversationId acceptedCall))) ;;
          modify (setIncomingCall None) ;;
          modify (setActiveCall (Some acceptedCall)) ;;
          modify (setCallStatus connecting) ;;
          modify (setCallError None) ;;
          sendCallSignal call_accepted
            {| sig_callId := ac_id acceptedCall;
               sig_conversationId := ac_conversationId acceptedCall;
               sig_from := me;
               sig_to := Some (ac_requesterId acceptedCall);
               sig_sdp := None;
               sig_candidate := None |}
      end
  | _, _ => ret tt
  end.

Definition rejectIncomingCall (h : Host) : M unit :=
  user <- gets currentUser ;;
  incoming <- gets (fun s => incomingCall (view s)) ;;
  match incoming, user with
  | Some inc, Some me =>
      modify (push_output (UpdateCallRequest (ac_id inc) rejected (Some me))) ;;
      match updateCallRequest h with
      | Some message => fail_call message
      | None =>
          modify (setIncomingCall None) ;;
          modify (setCallStatus idle)
      end
  | _, _ => ret tt
  end.

(** [a || b || c] on nullable objects. *)
Definition first_call (a b c : option ActiveCall) : option ActiveCall :=
  match a, b with
  | Some x, _ => Some x
  | None, Some y => Some y
  | None, None => c
  end.

(** [activeCall || pendingOutgoingCall || incomingCall] *)
Definition call_to_end (s : State) : option ActiveCall :=
  first_call (activeCall (view s)) (pendingOutgoingCall (view s))
             (incomingCall (view s)).

Definition nextStatus (current : ActiveCall) (me : UserId) : Status :=
  if (Status_eqb (ac_status current) pending
      && String.eqb (ac_requesterId current) me)%bool
  then cancelled else ended.

Definition endCall (h : Host) : M unit :=
  user <- gets currentUser ;;
  match user with
  | None => ret tt
  | Some me =>
      held <- gets call_to_end ;;
      match held with
      | None => ret tt
      | Some current =>
          modify (push_output
                    (UpdateCallRequest (ac_id current) (nextStatus current me)
                                       None)) ;;
          match updateCallRequest h with
          | Some message => fail_call message
          | None =>
              let targetId :=
                if String.eqb me (ac_requesterId current)
                then ac_acceptedBy current
                else Some (ac_requesterId current) in
              (if truthy_opt targetId then
                 sendCallSignal call_ended
                   {| sig_callId := ac_id current;
                      sig_conversationId := ac_conversationId current;
                      sig_from := me;
                      sig_to := targetId;
                      sig_sdp := None;
                      sig_candidate := None |}
               else ret tt) ;;
              resetCallMedia ;;
              modify (setActiveCall None) ;;
              modify (setIncomingCall None) ;;
              modify (setPendingOutgoingCall None) ;;
              modify (setCallStatus idle)
          end
      end
  end.

(** [slot && slot.conversationId === activeConversationId && slot] *)
Definition in_active_conversation (slot : option ActiveCall) (s : State)
  : option ActiveCall :=
  match slot, activeConversationId s with
  | Some c, Some conv => if ac_conversationId c =? conv then Some c else None
  | _, _ => None
  end.

Definition callForActiveConversation (s : State) : option ActiveCall :=
  first_call (in_active_conversation (incomingCall (view s)) s)
             (in_active_conversation (pendingOutgoingCall (view s)) s)
             (in_active_conversation (activeCall (view s)) s).

(** The call button of the thread header: disabled without a conversation
    or while connecting; it ends the call shown for the conversation, or
    requests one. *)
Definition headerCallButton (h : Host) : M unit :=
  conversation <- gets activeConversationId ;;
  current <- gets (fun s => callStatus (view s)) ;;
  match conversation, current with
  | None, _ => ret tt
  | Some _, connecting => ret tt
  | Some _, _ =>
      shown <- gets callForActiveConversation ;;
      match shown with
      | Some _ => endCall h
      | None => requestCall h
      end
  end.

(** *** The event loop *)

Inductive Event :=
| CallRequestChange (raw : CallRequestRow)
| Broadcast (event : SignalEvent) (payload : SignalPayload)
| LocalIceCandidate (candidate : option Candidate)
| ConnectionStateChange (st : RTCPeerConnectionState)
| IceConnectionStateChange (st : RTCIceConnectionState)
| RemoteTrack (streamFromPeer : option MediaStream)
| ConnectingTimeout
| ClickCallButton
| RequestCall
| AcceptIncomingCall
| RejectIncomingCall
| EndCall.

(** Subscriptions exist only while a user is signed in. *)
Definition signed_in (k : UserId -> M unit) : M unit :=
  user <- gets currentUser ;;
  match user with
  | Some me => k me
  | None => ret tt
  end.

Definition handle (h : Host) (ev : Event) : M unit :=
  match ev with
  | CallRequestChange raw => signed_in (fun me => handleCallChange h me raw)
  | Broadcast event payload =>
      signed_in (fun me => on_broadcast h me event payload)
  | LocalIceCandidate c => onicecandidate c
  | ConnectionStateChange st => onconnectionstatechange st
  | IceConnectionStateChange st => oniceconnectionstatechange st
  | RemoteTrack str => ontrack str
  | ConnectingTimeout => onConnectingTimeout h
  | ClickCallButton => headerCallButton h
  | RequestCall => requestCall h
  | AcceptIncomingCall => acceptIncomingCall h
  | RejectIncomingCall => rejectIncomingCall h
  | EndCall => endCall h
  end.

(** The render that follows a handler: refs mirror the slots again and the
    effect keyed on [callStatus] runs. *)
Definition commit (h : Host) (before after : State) : State :=
  connecting_effect h before (sync_refs after).

(** An event whose handler has finished, every promise settled with the
    answers of [h], before the next event; then the render. *)
Definition step (h : Host) (ev : Event) (s : State) : State :=
  commit h s (run (handle h ev) s).

Fixpoint steps (trace : list (Host * Event)) (s : State) : State :=
  match trace with
  | [] => s
  | (h, ev) :: rest => steps rest (step h ev s)
  end.

(** The state after sign-in, before any call. *)
Definition initial (h : Host) (me : UserId) (conversation : option Z) : State :=
  {| currentUser := Some me;
     activeConversationId := conversation;
     view := {| callStatus := idle; callError := None; activeCall := None;
                incomingCall := None; pendingOutgoingCall := None |};
     refs := {| activeCallRef := None; incomingCallRef := None;
                pendingOutgoingCallRef := None |};
     media := {| peerConnectionRef := None; pendingRemoteCandidatesRef := [];
                 handshakeStartedForCallRef := None; localStream := None;
                 remoteStream := None; isMicMuted := false |};
     ice := {| dynamicIceCacheRef := None;
               currentIceServers := ICE_SERVERS h;
               iceConfigMode := mode_env |};
     effects := {| peersCreated := 0; closedPeers := []; stoppedTracks := [];
                   connectingTimer := None; outbox := [] |} |}.

(** ** The message list *)

Module MessageSync.

Inductive Sender := me | other.

Record ChatMessage := {
  msg_id : Z;
  sender : Sender;
  senderName : string;
  content : string;
  timestamp : string
}.

(** The [new] row of a realtime INSERT; [Number(..)] of an absent or
    non-numeric field is NaN, here [None]. *)
Record InsertedMessagePayload := {
  ins_id : option Z;
  ins_conversation_id : option Z;
  ins_sender_id : UserId;
  ins_content : string;
  ins_created_at : string
}.

Record Chat := {
  user : option UserId;
  conversation : option Z;          (* activeConversationId *)
  messages : list ChatMessage;
  composerBusy : bool;
  chatError : option string
}.

Definition setMessages (f : list ChatMessage -> list ChatMessage) (c : Chat)
  : Chat :=
  {| user := user c; conversation := conversation c;
     messages := f (messages c); composerBusy := composerBusy c;
     chatError := chatError c |}.

Definition setComposerBusy (b : bool) (c : Chat) : Chat :=
  {| user := user c; conversation := conversation c;
     messages := messages c; composerBusy := b; chatError := chatError c |}.

Definition setChatError (e : option string) (c : Chat) : Chat :=
  {| user := user c; conversation := conversation c;
     messages := messages c; composerBusy := composerBusy c;
     chatError := e |}.

Definition with_id (m : ChatMessage) (i : Z) (stamp : string) : ChatMessage :=
  {| msg_id := i; sender := sender m; senderName := senderName m;
     content := content m; timestamp := stamp |}.

Section Clock.

(** [formatClock]: the locale-dependent rendering of an ISO date. *)
Variable formatClock : string -> string.

(** The realtime handler for INSERT on [messages]. *)
Definition onMessageInsert (inserted : InsertedMessagePayload) (c : Chat)
  : Chat :=
  match user c, ins_id inserted, ins_conversation_id inserted with
  | Some myId, Some insertedId, Some insertedConversationId =>
      let mine := String.eqb (ins_sender_id inserted) myId in
      match conversation c with
      | Some active =>
          if insertedConversationId =? active then
            setMessages
              (fun current =>
                 if existsb (fun m => msg_id m =? insertedId) current
                 then current
                 else (current ++
                      [ {| msg_id := insertedId;
                           sender := if mine then me else other;
                           senderName := if mine then "You" else "Member";
                           content := ins_content inserted;
                           timestamp :=
                             formatClock (ins_created_at inserted) |} ])%list)
              c
          else c
      | None => c
      end
  | _, _, _ => c
  end.

(** What [sendMessage] keeps across its [await]. *)
Record PendingSend := {
  optimisticId : Z;
  sentConversation : Z;
  sentBy : UserId;
  sentContent : string
}.

(** [sendMessage] up to the insert request; [trimmed] is
    [messageDraft.trim()], [nowMs] is [Date.now()] and [isoTime] is
    [new Date().toISOString()]. *)
Definition sendMessage_submit (nowMs : Z) (isoTime trimmed : string)
    (c : Chat) : Chat * option PendingSend :=
  match user c, conversation c with
  | Some myId, Some active =>
      if (negb (truthy trimmed) || composerBusy c)%bool then (c, None)
      else
        let optimistic := - nowMs in
        (setChatError None
           (setComposerBusy true
              (setMessages
                 (fun current =>
                    (current ++
                    [ {| msg_id := optimistic; sender := me;
                         senderName := "You"; content := trimmed;
                         timestamp := formatClock isoTime |} ])%list)
                 c)),
         Some {| optimisticId := optimistic; sentConversation := active;
                 sentBy := myId; sentContent := trimmed |})
  | _, _ => (c, None)
  end.

(** [sendMessage] after the insert settles: an error message, or
    [Number(data.id)] and [String(data.created_at)]. *)
Definition sendMessage_settle (p : PendingSend)
    (response : string + (option Z * string)) (c : Chat) : Chat :=
  match response with
  | inl message =>
      setComposerBusy false
        (setMessages
           (filter (fun m => negb (msg_id m =? optimisticId p)))
           (setChatError (Some message) c))
  | inr (insertedId, createdAt) =>
      setComposerBusy false
        (setMessages
           (map (fun m =>
                   if msg_id m =? optimisticId p
                   then with_id m
                          (match insertedId with
                           | Some i => i
                           | None => optimisticId p
                           end)
                          (formatClock createdAt)
                   else m))
           c)
  end.

(** What reaches the list after a submit, in order of arrival. *)
Inductive Arrival :=
| Response (response : string + (option Z * string))
| FeedInsert (inserted : InsertedMessagePayload).

Definition arrive (p : PendingSend) (a : Arrival) (c : Chat) : Chat :=
  match a with
  | Response r => sendMessage_settle p r c
  | FeedInsert inserted => onMessageInsert inserted c
  end.

Definition send_and_receive (nowMs : Z) (isoTime trimmed : string)
    (arrivals : list Arrival) (c : Chat) : Chat :=
  match sendMessage_submit nowMs isoTime trimmed c with
  | (c', Some p) => fold_left (fun acc a => arrive p a acc) arrivals c'
  | (c', None) => c'
  end.

End Clock.

Definition count_id (i : Z) (ms : list ChatMessage) : nat :=
  List.length (filter (fun m => msg_id m =? i) ms).

End MessageSync.

(** ** Row-level security on [call_requests] *)

Module Policy.

Record call_request := {
  id : Z;
  conversation_id : Z;
  requester_id : UserId;
  accepted_by : option UserId;
  status : Status
}.

(** [update call_requests set status = st [, accepted_by = who]] *)
Definition updated (old : call_request) (st : Status) (who : option UserId)
  : call_request :=
  {| id := id old;
     conversation_id := conversation_id old;
     requester_id := requester_id old;
     accepted_by := match who with
                    | Some u => Some u
                    | None => accepted_by old
                    end;
     status := st |}.

(** Policy [call_requests_update_requester_or_acceptor]. *)
Definition requester_or_acceptor_using (uid : UserId) (old : call_request)
  : bool :=
  (Status_eqb (status old) pending
   || String.eqb uid (requester_id old)
   || is_user (accepted_by old) uid)%bool.

Definition requester_or_acceptor_check (uid : UserId) (new : call_request)
  : bool :=
  (String.eqb uid (requester_id new) || is_user (accepted_by new) uid)%bool.

Definition requester_or_acceptor (uid : UserId) (old new : call_request)
  : bool :=
  (requester_or_acceptor_using uid old
   && requester_or_acceptor_check uid new)%bool.

Section Members.

(** The rows of [conversation_members]. *)
Variable is_member : Z -> UserId -> bool.

(** Policy [call_requests_update_member], which replaces the former. *)
Definition update_member_using (uid : UserId) (old : call_request) : bool :=
  is_member (conversation_id old) uid.

Definition update_member_check (uid : UserId) (new : call_request) : bool :=
  (is_member (conversation_id new) uid
   && (String.eqb (requester_id new) uid
       || is_user (accepted_by new) uid
       || ((Status_eqb (status new) accepted
            || Status_eqb (status new) rejected)
           && is_user (accepted_by new) uid)))%bool.

Definition update_member (uid : UserId) (old new : call_request) : bool :=
  (update_member_using uid old && update_member_check uid new)%bool.

End Members.

End Policy.

(** ** Properties used in the statements *)


Definition is_some {A} (o : option A) : bool :=
  match o with
  | Some _ => true
  | None => false
  end.




(** Refs mirror the slots, as they do after every render. *)
Definition synced (s : State) : Prop :=
  activeCallRef (refs s) = activeCall (view s)
  /\ incomingCallRef (refs s) = incomingCall (view s)
  /\ pendingOutgoingCallRef (refs s) = pendingOutgoingCall (view s).

(** What the idempotence statements compare. *)
Definition observe (s : State)
  : (option ActiveCall * option ActiveCall * option ActiveCall)
    * CallStatus * option Peer * list Candidate :=
  ((activeCall (view s), incomingCall (view s), pendingOutgoingCall (view s)),
   callStatus (view s),
   peerConnection s,
   pendingRemoteCandidatesRef (media s)).

Definition inserts (outs : list Output) : list Output :=
  filter (fun o => match o with InsertCallRequest _ _ _ => true | _ => false end)
         outs.

(** The requests a handler adds to the outbox. *)
Definition issued (m : M unit) (s : State) : list Output :=
  skipn (List.length (outbox (effects s))) (outbox (effects (run m s))).

(** A response of the token endpoint that [resolveIceServers] accepts. *)
Definition usable_response (h : Host) : option IceServerFunctionResponse :=
  match iceFetch h with
  | FetchResponse true (Some data) =>
      match sanitizeIceServers (iceServers data) with
      | [] => None
      | _ :: _ => Some data
      end
  | _ => None
  end.

Definition tracks_of (stream : option MediaStream) : list Track :=
  match stream with
  | Some tracks => tracks
  | None => []
  end.

(** Full teardown, from [before] to [after]: the session, if any, is
    closed and forgotten, the candidate queue and the handshake guard are
    cleared, every track of both streams is stopped and the streams are
    dropped. *)
Definition torn_down (before after : State) : Prop :=
  peerConnection after = None
  /\ pendingRemoteCandidatesRef (media after) = []
  /\ handshakeStartedForCallRef (media after) = None
  /\ localStream (media after) = None
  /\ remoteStream (media after) = None
  /\ closedPeers (effects after)
     = (closedPeers (effects before)
        ++ match peerConnection before with
           | Some p => [pc_id p]
           | None => []
           end)%list
  /\ stoppedTracks (effects after)
     = (stoppedTracks (effects before)
        ++ tracks_of (localStream (media before))
        ++ tracks_of (remoteStream (media before)))%list.

(** The candidates carried by a run of [webrtc-ice] deliveries. *)
Definition candidates_of (deliveries : list (Host * SignalPayload))
  : list Candidate :=
  flat_map (fun d => match sig_candidate (snd d) with
                     | Some c => [c]
                     | None => []
                     end)
           deliveries.

Definition ice_deliveries (deliveries : list (Host * SignalPayload))
  : list (Host * Event) :=
  map (fun d => (fst d, Broadcast webrtc_ice (snd d))) deliveries.

(** [addIceCandidate] resolves for this candidate. *)
Definition candidate_applies (h : Host) (c : Candidate) : bool :=
  match addIceCandidate h c with
  | None => true
  | Some _ => false
  end.

(** The session [p] after [candidates] were added to it. *)
Definition peer_with_candidates (candidates : list Candidate) (p : Peer) : Peer :=
  {| pc_id := pc_id p; pc_call := pc_call p; pc_owner := pc_owner p;
     pc_stream := pc_stream p; pc_iceServers := pc_iceServers p;
     remoteDescription := remoteDescription p;
     localDescription := localDescription p;
     addedCandidates := (addedCandidates p ++ candidates)%list |}.

(** The signed-in user and the three slots. *)
Definition Slots : Type :=
  option UserId * option ActiveCall * option ActiveCall * option ActiveCall.

Definition slots_of (s : State) : Slots :=
  (currentUser s, activeCall (view s), incomingCall (view s),
   pendingOutgoingCall (view s)).

(** The slots hold what the handlers put there: an active call is
    accepted, an incoming call is pending and someone else's, a pending
    outgoing call is pending and the user's own. *)
Definition well_formed_slots (a : Slots) : Prop :=
  let '(user, act, inc, out) := a in
  forall me,
    user = Some me ->
    (forall c, act = Some c -> ac_status c = accepted)
    /\ (forall c, inc = Some c ->
                  ac_status c = pending
                  /\ String.eqb (ac_requesterId c) me = false)
    /\ (forall c, out = Some c ->
                  ac_status c = pending
                  /\ String.eqb (ac_requesterId c) me = true).

Definition well_formed (s : State) : Prop := well_formed_slots (slots_of s).


(** The slots, with the queue of remote candidates. *)
Definition slots_and_queue (s : State) : Slots * list Candidate :=
  (slots_of s, pendingRemoteCandidatesRef (media s)).


(** The computation [m] leaves the part [f] of the state as it was. *)
Definition keeps {X A : Type} (f : State -> X) (m : M A) : Prop :=
  forall s, f (snd (m s)) = f s.

(** ** Concrete hosts, rows and states *)

Definition alice : UserId := "alice".
Definition bob : UserId := "bob".

(** A host on which every awaited operation succeeds, except that the
    token endpoint cannot be reached. *)
Definition host_at (t : Z) : Host :=
  {| now := t;
     VITE_ICE_SERVERS_JSON := EnvBlank;
     isSecureContext := true;
     hasGetUserMedia := true;
     getUserMedia := inr [0%nat; 1%nat];
     iceFetch := FetchRejects;
     newPeerConnection := None;
     createOffer := inr "offer";
     createAnswer := inr "answer";
     setLocalDescription := None;
     setRemoteDescription := fun _ => None;
     addIceCandidate := fun _ => None;
     insertCallRequest := inr 2;
     updateCallRequest := None |}.

Definition call_row (i conv : Z) (requester : UserId)
    (acceptor : option UserId) (st : Status) : CallRequestRow :=
  {| row_id := Some i;
     row_conversation_id := Some conv;
     row_requester_id := Some requester;
     row_accepted_by := acceptor;
     row_status := Some st |}.

Definition signal (i conv : Z) (from : UserId) (to : option UserId)
    (sdp : option Sdp) (candidate : option Candidate) : SignalPayload :=
  {| sig_callId := i;
     sig_from := from;
     sig_to := to;
     sig_conversationId := conv;
     sig_sdp := sdp;
     sig_candidate := candidate |}.

(** Alice, signed in and looking at conversation 7. *)
Definition alice_idle : State := initial (host_at 0) alice (Some 7).

(** Bob's call 1 in conversation 7 rings at Alice's. *)
Definition alice_ringing : State :=
  step (host_at 0) (CallRequestChange (call_row 1 7 bob None pending))
       alice_idle.

(** Alice has picked up at time 1000. *)
Definition alice_connecting : State :=
  step (host_at 1000) AcceptIncomingCall alice_ringing.

(** A deployment whose [VITE_ICE_SERVERS_JSON] names a TURN relay. *)
Definition relay_json : JsVal :=
  JArr [ JObj [ ("urls", JStr "turn:relay.example.org:3478");
                ("username", JStr "user");
                ("credential", JStr "secret") ] ].

Definition relay_host : Host :=
  {| now := 0;
     VITE_ICE_SERVERS_JSON := EnvParsed relay_json;
     isSecureContext := true;
     hasGetUserMedia := true;
     getUserMedia := inr [0%nat; 1%nat];
     iceFetch := FetchResponse false None;
     newPeerConnection := None;
     createOffer := inr "offer";
     createAnswer := inr "answer";
     setLocalDescription := None;
     setRemoteDescription := fun _ => None;
     addIceCandidate := fun _ => None;
     insertCallRequest := inr 2;
     updateCallRequest := None |}.

(** Alice has asked for a call in conversation 7 (call 2). *)
Definition alice_requesting : State :=
  step (host_at 0) RequestCall alice_idle.

(** Bob has accepted; Alice's caller handshake has run and one candidate
    of Bob's waits for his answer. *)
Definition alice_calling : State :=
  steps [ (host_at 0, CallRequestChange (call_row 2 7 alice (Some bob) accepted));
          (host_at 0, Broadcast webrtc_ice
                        (signal 2 7 bob (Some alice) None (Some "candidate-1"))) ]
        alice_requesting.

(** A host whose database refuses the update. *)
Definition refusing_host : Host :=
  {| now := 0;
     VITE_ICE_SERVERS_JSON := EnvBlank;
     isSecureContext := true;
     hasGetUserMedia := true;
     getUserMedia := inr [0%nat; 1%nat];
     iceFetch := FetchRejects;
     newPeerConnection := None;
     createOffer := inr "offer";
     createAnswer := inr "answer";
     setLocalDescription := None;
     setRemoteDescription := fun _ => None;
     addIceCandidate := fun _ => None;
     insertCallRequest := inl "new row violates row-level security policy";
     updateCallRequest := Some "new row violates row-level security policy" |}.

(** Bob has accepted call 2 and Alice's caller handshake has run: her
    session has a local description and waits for Bob's answer. *)
Definition alice_offering : State :=
  step (host_at 0) (CallRequestChange (call_row 2 7 alice (Some bob) accepted))
       alice_requesting.

Definition offering_peer : Peer :=
  {| pc_id := 0;
     pc_call := {| ac_id := 2; ac_conversationId := 7; ac_requesterId := alice;
                   ac_acceptedBy := Some bob; ac_status := accepted |};
     pc_owner := alice;
     pc_stream := [0%nat; 1%nat];
     pc_iceServers := defaultIceServers;
     remoteDescription := None;
     localDescription := Some "offer";
     addedCandidates := [] |}.

(** A host whose peer connection refuses the candidate ["malformed"]. *)
Definition picky_host : Host :=
  {| now := 0;
     VITE_ICE_SERVERS_JSON := EnvBlank;
     isSecureContext := true;
     hasGetUserMedia := true;
     getUserMedia := inr [0%nat; 1%nat];
     iceFetch := FetchRejects;
     newPeerConnection := None;
     createOffer := inr "offer";
     createAnswer := inr "answer";
     setLocalDescription := None;
     setRemoteDescription := fun _ => None;
     addIceCandidate :=
       fun c => if String.eqb c "malformed"
                then Some (ErrorObject "OperationError") else None;
     insertCallRequest := inr 2;
     updateCallRequest := None |}.

Definition bobs_candidates : list (Host * SignalPayload) :=
  [ (host_at 1, signal 2 7 bob (Some alice) None (Some "candidate-1"));
    (host_at 2, signal 2 7 bob (Some alice) None (Some "malformed"));
    (host_at 3, signal 2 7 bob (Some alice) None (Some "candidate-2")) ].

(** Alice's chat, conversation 7 open and empty. *)
Definition alice_chat : MessageSync.Chat :=
  {| MessageSync.user := Some alice;
     MessageSync.conversation := Some 7;
     MessageSync.messages := [];
     MessageSync.composerBusy := false;
     MessageSync.chatError := None |}.

(** The realtime INSERT for Alice's message, stored with id 42. *)
Definition hello_insert : MessageSync.InsertedMessagePayload :=
  {| MessageSync.ins_id := Some 42;
     MessageSync.ins_conversation_id := Some 7;
     MessageSync.ins_sender_id := alice;
     MessageSync.ins_content := "hello";
     MessageSync.ins_created_at := "2026-01-01T10:00:00Z" |}.

Definition hello_response : string + (option Z * string) :=
  inr (Some 42, "2026-01-01T10:00:00Z").

(** The state [resetCallMedia] leaves. *)
Definition after_reset (s : State) : State := run resetCallMedia s.


(** Nothing lets the caller handshake reach a new session: the media
    context or the media request fails, or the constructor throws. *)
Definition handshake_blocked (h : Host) (mine : option MediaStream) : bool :=
  (negb (isSecureContext h)
   || negb (hasGetUserMedia h)
   || match mine, getUserMedia h with
      | None, inl _ => true
      | _, _ => false
      end
   || is_some (newPeerConnection h))%bool.

(** The events whose second delivery is compared with the first. *)
Definition replay_safe (ev : Event) : bool :=
  match ev with
  | CallRequestChange _ => true
  | Broadcast call_accepted _ => true
  | Broadcast webrtc_answer _ => true
  | Broadcast call_ended _ => true
  | _ => false
  end.

Definition bobs_candidate : Event :=
  Broadcast webrtc_ice (signal 2 7 bob (Some alice) None (Some "candidate-1")).

Definition bobs_offer : Event :=
  Broadcast webrtc_offer (signal 1 7 bob (Some alice) (Some "offer") None).

(** ** Rooms, membership and invites (the functions of migration 004) *)

Module Rooms.

Record conversation := {
  conv_id : Z;
  conv_name : string;
  conv_description : string;
  conv_created_by : option UserId
}.

Record room_invite := {
  invite_id : Z;
  invite_conversation_id : Z;
  invite_token : string;
  invite_created_by : UserId;
  invite_active : bool;
  invite_max_uses : option Z;
  invite_used_count : Z;
  invite_expires_at : option Z        (* microseconds, as [now] *)
}.

(** The tables the three functions read and write, with the two identity
    sequences. *)
Record Db := {
  profiles : list UserId;
  conversations : list conversation;
  conversation_members : list (Z * UserId);
  room_invites : list room_invite;
  conversations_seq : Z;
  room_invites_seq : Z
}.

(** A call returns a value and the new tables, or raises: the tables are
    rolled back, the sequences keep the values they handed out. *)
Inductive Outcome (A : Type) :=
| Returned (value : A) (db : Db)
| Raised (message : string) (db : Db).
Arguments Returned {A} value db.
Arguments Raised {A} message db.

Definition db_after {A} (o : Outcome A) : Db :=
  match o with
  | Returned _ db => db
  | Raised _ db => db
  end.

Definition succeeded {A} (o : Outcome A) : bool :=
  match o with
  | Returned _ _ => true
  | Raised _ _ => false
  end.

Definition is_member (db : Db) (conv : Z) (uid : UserId) : bool :=
  existsb (fun m => ((fst m =? conv) && String.eqb (snd m) uid)%bool)
          (conversation_members db).

Definition has_profile (db : Db) (uid : UserId) : bool :=
  existsb (String.eqb uid) (profiles db).

Definition has_conversation (db : Db) (conv : Z) : bool :=
  existsb (fun c => conv_id c =? conv) (conversations db).

(** [select ... from room_invites where token = p_token] *)
Definition find_invite (db : Db) (token : string) : option room_invite :=
  find (fun i => String.eqb (invite_token i) token) (room_invites db).

(** [insert into conversation_members ... on conflict do nothing] *)
Definition add_member (conv : Z) (uid : UserId) (members : list (Z * UserId))
  : list (Z * UserId) :=
  if existsb (fun m => ((fst m =? conv) && String.eqb (snd m) uid)%bool) members
  then members
  else (members ++ [(conv, uid)])%list.

(** [trim(p_name)]: blanks removed at both ends. *)
Fixpoint drop_blanks (l : list ascii) : list ascii :=
  match l with
  | " "%char :: rest => drop_blanks rest
  | _ => l
  end.

Definition trim (s : string) : string :=
  string_of_list_ascii
    (rev (drop_blanks (rev (drop_blanks (list_ascii_of_string s))))).

(** [coalesce(nullif(trim(p_name), ''), 'Untitled Room')] *)
Definition room_name (p_name : option string) : string :=
  match p_name with
  | None => "Untitled Room"
  | Some n => if String.eqb (trim n) "" then "Untitled Room" else trim n
  end.

Definition with_sequences (cseq iseq : Z) (db : Db) : Db :=
  {| profiles := profiles db;
     conversations := conversations db;
     conversation_members := conversation_members db;
     room_invites := room_invites db;
     conversations_seq := cseq;
     room_invites_seq := iseq |}.

Definition create_conversation_room (uid : option UserId)
    (p_name p_description : option string) (db : Db) : Outcome Z :=
  match uid with
  | None => Raised "Not authenticated" db
  | Some v_uid =>
      let v_conversation_id := conversations_seq db in
      if has_profile db v_uid then
        Returned v_conversation_id
          {| profiles := profiles db;
             conversations :=
               (conversations db
                ++ [ {| conv_id := v_conversation_id;
                        conv_name := room_name p_name;
                        conv_description :=
                          match p_description with
                          | Some d => d
                          | None => ""
                          end;
                        conv_created_by := Some v_uid |} ])%list;
             conversation_members :=
               add_member v_conversation_id v_uid (conversation_members db);
             room_invites := room_invites db;
             conversations_seq := v_conversation_id + 1;
             room_invites_seq := room_invites_seq db |}
      else
        Raised "violates foreign key constraint conversations_created_by_fkey"
               (with_sequences (v_conversation_id + 1) (room_invites_seq db) db)
  end.

(** [v_token] is [replace(gen_random_uuid()::text, '-', '')]. The unique
    index is checked when the row is inserted, the foreign keys at the end
    of the statement. *)
Definition create_room_invite (uid : option UserId)
    (p_conversation_id p_max_uses p_expires_in_minutes : option Z)
    (v_token : string) (now : Z) (db : Db) : Outcome string :=
  match uid with
  | None => Raised "Not authenticated" db
  | Some v_uid =>
      match p_conversation_id with
      | None => Raised "Not a member of this room" db
      | Some conv =>
          if negb (is_member db conv v_uid) then
            Raised "Not a member of this room" db
          else
            let taken := with_sequences (conversations_seq db)
                                        (room_invites_seq db + 1) db in
            if is_some (find_invite db v_token) then
              Raised "duplicate key value violates unique constraint room_invites_token_key"
                     taken
            else if negb (has_conversation db conv) then
              Raised "violates foreign key constraint room_invites_conversation_id_fkey"
                     taken
            else if negb (has_profile db v_uid) then
              Raised "violates foreign key constraint room_invites_created_by_fkey"
                     taken
            else
              Returned v_token
                {| profiles := profiles db;
                   conversations := conversations db;
                   conversation_members := conversation_members db;
                   room_invites :=
                     (room_invites db
                      ++ [ {| invite_id := room_invites_seq db;
                              invite_conversation_id := conv;
                              invite_token := v_token;
                              invite_created_by := v_uid;
                              invite_active := true;
                              invite_max_uses :=
                                Some (match p_max_uses with
                                      | None => 1
                                      | Some n => if n <=? 0 then 1 else n
                                      end);
                              invite_used_count := 0;
                              invite_expires_at :=
                                match p_expires_in_minutes with
                                | None => None
                                | Some m =>
                                    if m <=? 0 then None
                                    else Some (now + m * 60000000)
                                end |} ])%list;
                   conversations_seq := conversations_seq db;
                   room_invites_seq := room_invites_seq db + 1 |}
      end
  end.

(** [update room_invites set used_count = used_count + 1 where id = ...] *)
Definition use_invite (target : Z) (i : room_invite) : room_invite :=
  if invite_id i =? target then
    {| invite_id := invite_id i;
       invite_conversation_id := invite_conversation_id i;
       invite_token := invite_token i;
       invite_created_by := invite_created_by i;
       invite_active := invite_active i;
       invite_max_uses := invite_max_uses i;
       invite_used_count := invite_used_count i + 1;
       invite_expires_at := invite_expires_at i |}
  else i.

Definition expired (i : room_invite) (now : Z) : bool :=
  match invite_expires_at i with
  | Some t => t <? now
  | None => false
  end.

Definition used_up (i : room_invite) : bool :=
  match invite_max_uses i with
  | Some n => n <=? invite_used_count i
  | None => false
  end.

Definition accept_room_invite (uid : option UserId) (p_token : string)
    (now : Z) (db : Db) : Outcome Z :=
  match uid with
  | None => Raised "Not authenticated" db
  | Some v_uid =>
      match find_invite db p_token with
      | None => Raised "Invite not found" db
      | Some v_invite =>
          if negb (invite_active v_invite) then Raised "Invite is inactive" db
          else if expired v_invite now then Raised "Invite expired" db
          else if used_up v_invite then Raised "Invite usage limit reached" db
          else if (negb (is_member db (invite_conversation_id v_invite) v_uid)
                   && negb (has_conversation db
                              (invite_conversation_id v_invite)))%bool
          then Raised "violates foreign key constraint conversation_members_conversation_id_fkey" db
          else if (negb (is_member db (invite_conversation_id v_invite) v_uid)
                   && negb (has_profile db v_uid))%bool
          then Raised "violates foreign key constraint conversation_members_user_id_fkey" db
          else
            Returned (invite_conversation_id v_invite)
              {| profiles := profiles db;
                 conversations := conversations db;
                 conversation_members :=
                   add_member (invite_conversation_id v_invite) v_uid
                              (conversation_members db);
                 room_invites :=
                   map (use_invite (invite_id v_invite)) (room_invites db);
                 conversations_seq := conversations_seq db;
                 room_invites_seq := room_invites_seq db |}
      end
  end.

(** One remote procedure call. *)
Inductive Call :=
| CreateRoom (uid : option UserId) (p_name p_description : option string)
| CreateInvite (uid : option UserId)
               (p_conversation_id p_max_uses p_expires_in_minutes : option Z)
               (v_token : string) (now : Z)
| AcceptInvite (uid : option UserId) (p_token : string) (now : Z).

(** The tables after a call, and whether it returned. *)
Definition exec (c : Call) (db : Db) : bool * Db :=
  match c with
  | CreateRoom uid n d =>
      let o := create_conversation_room uid n d db in (succeeded o, db_after o)
  | CreateInvite uid conv mx mins tok now =>
      let o := create_room_invite uid conv mx mins tok now db in
      (succeeded o, db_after o)
  | AcceptInvite uid tok now =>
      let o := accept_room_invite uid tok now db in (succeeded o, db_after o)
  end.

Fixpoint execs (calls : list Call) (db : Db) : Db :=
  match calls with
  | [] => db
  | c :: rest => execs rest (snd (exec c db))
  end.

(** How many calls of the list accept [token] and return. *)
Fixpoint accepted (token : string) (calls : list Call) (db : Db) : Z :=
  match calls with
  | [] => 0
  | c :: rest =>
      (match c with
       | AcceptInvite _ t _ =>
           if (String.eqb t token && fst (exec c db))%bool then 1 else 0
       | _ => 0
       end)
      + accepted token rest (snd (exec c db))
  end.

(** The constraints of the tables: primary key of the members, unique
    tokens, identity column below its sequence, the two checks of
    [room_invites], and use counts within their limit. *)
Definition invite_ok (i : room_invite) : Prop :=
  0 <= invite_used_count i
  /\ match invite_max_uses i with
     | Some n => 0 < n /\ invite_used_count i <= n
     | None => True
     end.

Definition db_ok (db : Db) : Prop :=
  NoDup (conversation_members db)
  /\ NoDup (map invite_token (room_invites db))
  /\ NoDup (map invite_id (room_invites db))
  /\ Forall invite_ok (room_invites db)
  /\ Forall (fun i => invite_id i < room_invites_seq db) (room_invites db).

(** An empty installation with two profiles. *)
Definition two_users : Db :=
  {| profiles := [alice; bob];
     conversations := [];
     conversation_members := [];
     room_invites := [];
     conversations_seq := 1;
     room_invites_seq := 1 |}.

End Rooms.

(** ** More of the rooms: examples and the client's invite link *)

Module RoomsExamples.
Import Rooms.

(** [createInviteLink]: the client asks for a single-use link that lasts
    seven days. *)
Definition createInviteLink (uid : option UserId) (conv : Z)
    (v_token : string) (now : Z) : Call :=
  CreateInvite uid (Some conv) (Some 1) (Some (60 * 24 * 7)) v_token now.

(** Alice has created the room "Design" (conversation 1). *)
Definition with_room : Db :=
  snd (exec (CreateRoom (Some alice) (Some "  Design ") None) two_users).

(** ... and an invite link for it, at time 0. *)
Definition with_link : Db :=
  snd (exec (createInviteLink (Some alice) 1 "0f3c" 0) with_room).

End RoomsExamples.

(** ** The token endpoint (functions/twilio-ice-servers) *)

Module TurnEndpoint.

Inductive Method := OPTIONS | POST | OtherMethod.

(** [Deno.env]; [configuredTtl] is
    [Number(Deno.env.get("TWILIO_NTS_TTL_SECONDS") ?? "3600")]. *)
Record Env := {
  TWILIO_ACCOUNT_SID : option string;
  TWILIO_AUTH_TOKEN : option string;
  configuredTtl : JsNumber
}.

(** What Twilio answers: the request rejects, or a response with its
    [ok] flag, its text and its parsed JSON (or what [json()] rejects
    with). *)
Inductive TwilioOutcome :=
| TwilioRejects (e : Thrown)
| TwilioResponse (ok : bool) (details : string) (payload : Thrown + JsVal).

Inductive Body :=
| PlainOk
| ErrorBody (error : string) (details : option string)
| IceBody (iceServers : list JsVal) (ttlSeconds : Z).

Record Response := {
  status : Z;
  body : Body
}.

(** [entry[key]]; reading a property of [null] throws. *)
Definition prop_of (entry : JsVal) (key : string) : option JsVal :=
  match entry with
  | JNull | JUndefined => None
  | JObj props => Some (getProp props key)
  | _ => Some JUndefined
  end.

(** A property whose value is [x ?? undefined], as [JSON.stringify]
    writes it: left out when undefined. *)
Definition optional_prop (key : string) (x : JsVal) : list (string * JsVal) :=
  match x with
  | JUndefined | JNull => []
  | _ => [(key, x)]
  end.

(** [normalizeIceServer] of the endpoint; the outer [None] is the
    [TypeError] of a [null] entry, the inner one is [return null]. *)
Definition normalizeIceServer (entry : JsVal) : option (option JsVal) :=
  match prop_of entry "urls", prop_of entry "url",
        prop_of entry "username", prop_of entry "credential" with
  | Some a, Some b, Some user, Some cred =>
      let u := nullish_or a b in
      let ok := match u with
                | JStr _ => true
                | JArr items => is_some (every_string items)
                | _ => false
                end in
      if ok then
        Some (Some (JObj ([("urls", u)] ++ optional_prop "username" user
                          ++ optional_prop "credential" cred)%list))
      else Some None
  | _, _, _, _ => None
  end.

(** [.map(normalizeIceServer).filter(entry => entry !== null)] *)
Fixpoint normalize_all (entries : list JsVal) : option (list JsVal) :=
  match entries with
  | [] => Some []
  | e :: rest =>
      match normalizeIceServer e, normalize_all rest with
      | Some (Some s), Some l => Some (s :: l)
      | Some None, Some l => Some l
      | _, _ => None
      end
  end.

(** [(tokenPayload.ice_servers ?? [])] with the entries mapped; [None]
    when an access or [.map] throws. *)
Definition usable_servers (tokenPayload : JsVal) : option (list JsVal) :=
  match prop_of tokenPayload "ice_servers" with
  | None => None
  | Some (JUndefined | JNull) => Some []
  | Some (JArr entries) => normalize_all entries
  | Some _ => None
  end.

Definition clampTtl (n : JsNumber) : Z :=
  match n with
  | JFinite q =>
      if Qlt_le_dec 0 q then Z.min (Z.max (Qfloor q) 60) 86400 else 3600
  | _ => 3600
  end.

Definition failed (e : Thrown) : Response :=
  {| status := 500;
     body := ErrorBody "Failed to generate ICE servers."
                       (Some (error_message e "Unknown error")) |}.

(** A [TypeError] of the engine; the text of its message is the
    engine's and is not modelled. *)
Definition type_error : Thrown := ErrorObject "TypeError".

Definition serve (method : Method) (env : Env) (twilio : TwilioOutcome)
  : Response :=
  match method with
  | OPTIONS => {| status := 200; body := PlainOk |}
  | OtherMethod =>
      {| status := 405;
         body := ErrorBody "Method not allowed. Use POST." None |}
  | POST =>
      if (truthy_opt (TWILIO_ACCOUNT_SID env)
          && truthy_opt (TWILIO_AUTH_TOKEN env))%bool then
        let ttlSeconds := clampTtl (configuredTtl env) in
        match twilio with
        | TwilioRejects e => failed e
        | TwilioResponse false details _ =>
            {| status := 502;
               body := ErrorBody "Twilio token request failed."
                                 (Some (String.substring 0 400 details)) |}
        | TwilioResponse true _ (inl e) => failed e
        | TwilioResponse true _ (inr tokenPayload) =>
            match usable_servers tokenPayload with
            | None => failed type_error
            | Some [] =>
                {| status := 502;
                   body := ErrorBody "Twilio returned no usable ICE servers."
                                     None |}
            | Some iceServers =>
                {| status := 200; body := IceBody iceServers ttlSeconds |}
            end
        end
      else
        {| status := 500;
           body := ErrorBody
                     "Missing Twilio secret. Set TWILIO_ACCOUNT_SID and TWILIO_AUTH_TOKEN."
                     None |}
  end.

(** The response as the client's [fetch] sees it: [response.ok] and the
    JSON of the body, with [Number(payload.ttlSeconds)]. *)
Definition as_fetch (r : Response) : FetchOutcome :=
  FetchResponse
    ((200 <=? status r) && (status r <? 300))%bool
    (match body r with
     | PlainOk => None
     | ErrorBody _ _ =>
         Some {| iceServers := JUndefined; ttlSeconds := JNaN |}
     | IceBody l ttl =>
         Some {| iceServers := JArr l; ttlSeconds := JFinite (inject_Z ttl) |}
     end).

(** Twilio's usual answer: a STUN entry under the legacy key [url] and a
    TURN entry with credentials. *)
Definition twilio_token : JsVal :=
  JObj [ ("username", JStr "u1");
         ("ice_servers",
          JArr [ JObj [ ("url", JStr "stun:global.stun.twilio.com:3478") ];
                 JObj [ ("urls", JStr "turn:global.turn.twilio.com:3478");
                        ("username", JStr "u1");
                        ("credential", JStr "c1") ] ]) ].

Definition configured : Env :=
  {| TWILIO_ACCOUNT_SID := Some "AC1";
     TWILIO_AUTH_TOKEN := Some "secret";
     configuredTtl := JFinite (inject_Z 30) |}.

End TurnEndpoint.

(** A host whose token endpoint is the function above. *)
Definition endpoint_host (t : Z) : Host :=
  {| now := t;
     VITE_ICE_SERVERS_JSON := EnvBlank;
     isSecureContext := true;
     hasGetUserMedia := true;
     getUserMedia := inr [0%nat; 1%nat];
     iceFetch :=
       TurnEndpoint.as_fetch
         (TurnEndpoint.serve TurnEndpoint.POST TurnEndpoint.configured
            (TurnEndpoint.TwilioResponse true ""
               (inr TurnEndpoint.twilio_token)));
     newPeerConnection := None;
     createOffer := inr "offer";
     createAnswer := inr "answer";
     setLocalDescription := None;
     setRemoteDescription := fun _ => None;
     addIceCandidate := fun _ => None;
     insertCallRequest := inr 2;
     updateCallRequest := None |}.

(** ** Unread counters *)

Module Unread.
Import MessageSync.

(** [unreadByConversation]; an absent key reads as 0
    ([current[id] ?? 0], [!current[id]]). *)
Definition Counters : Type := Z -> nat.

Definition set_counter (c : Z) (v : nat) (m : Counters) : Counters :=
  fun k => if k =? c then v else m k.

(** The update of the counters in the realtime handler for INSERT on
    [messages]. *)
Definition onMessageInsert_unread (myId : UserId) (active : option Z)
    (inserted : InsertedMessagePayload) (current : Counters) : Counters :=
  match ins_id inserted, ins_conversation_id inserted with
  | Some _, Some insertedConversationId =>
      if String.eqb (ins_sender_id inserted) myId then current
      else
        match active with
        | Some a =>
            if insertedConversationId =? a then current
            else set_counter insertedConversationId
                             (S (current insertedConversationId)) current
        | None =>
            set_counter insertedConversationId
                        (S (current insertedConversationId)) current
        end
  | _, _ => current
  end.

(** The effect that runs when a conversation becomes the active one. *)
Definition onView (active : Z) (current : Counters) : Counters :=
  match current active with
  | O => current
  | S _ => set_counter active 0%nat current
  end.

(** A message that counts as unread for conversation [c]. *)
Definition counts_for (myId : UserId) (c : Z)
    (inserted : InsertedMessagePayload) : bool :=
  match ins_id inserted, ins_conversation_id inserted with
  | Some _, Some k =>
      ((k =? c) && negb (String.eqb (ins_sender_id inserted) myId))%bool
  | _, _ => false
  end.

End Unread.

(** ** Invariants of the controller *)

(** [m] keeps the property [P] of the state. *)
Definition preserves {A : Type} (P : State -> Prop) (m : M A) : Prop :=
  forall s, P s -> P (snd (m s)).

(** Every session constructed so far is closed, except possibly the one
    held in [peerConnectionRef]; that one is among those constructed. *)
Definition sessions_accounted (s : State) : Prop :=
  (forall p, peerConnection s = Some p ->
             (pc_id p < peersCreated (effects s))%nat)
  /\ forall i, (i < peersCreated (effects s))%nat ->
               In i (closedPeers (effects s))
               \/ option_map pc_id (peerConnection s) = Some i.

(** A pending timer belongs to a call that is connecting. *)
Definition timer_while_connecting (s : State) : Prop :=
  connectingTimer (effects s) <> None -> callStatus (view s) = connecting.

(** A cached configuration holds at least one server. *)
Definition cache_not_empty (s : State) : Prop :=
  forall c, dynamicIceCacheRef (ice s) = Some c -> servers c <> [].

(** The session held was constructed with at least one ICE server. *)
Definition session_configured (s : State) : Prop :=
  forall p, peerConnection s = Some p -> pc_iceServers p <> [].

(** Whatever the resolver caches or a session was given holds a server. *)
Definition servers_present (s : State) : Prop :=
  cache_not_empty s /\ session_configured s.

(** The rows of [call_requests] a local view stands for. *)
Definition stored_as (c : ActiveCall) (row : Policy.call_request) : Prop :=
  Policy.id row = ac_id c
  /\ Policy.requester_id row = ac_requesterId c
  /\ Policy.accepted_by row = ac_acceptedBy c
  /\ Policy.status row = ac_status c.

(** A host whose media context is not secure. *)
Definition insecure_host : Host :=
  {| now := 0;
     VITE_ICE_SERVERS_JSON := EnvBlank;
     isSecureContext := false;
     hasGetUserMedia := true;
     getUserMedia := inr [0%nat; 1%nat];
     iceFetch := FetchRejects;
     newPeerConnection := None;
     createOffer := inr "offer";
     createAnswer := inr "answer";
     setLocalDescription := None;
     setRemoteDescription := fun _ => None;
     addIceCandidate := fun _ => None;
     insertCallRequest := inr 2;
     updateCallRequest := None |}.

(** The call a remote hang-up names: the notification of a row that is
    ended, cancelled or rejected, or a [call-ended] envelope. *)
Definition hangs_up (ev : Event) : option Z :=
  match ev with
  | CallRequestChange raw =>
      match normalizeCall raw with
      | Some call =>
          match ac_status call with
          | ended | cancelled | rejected => Some (ac_id call)
          | _ => None
          end
      | None => None
      end
  | Broadcast call_ended signal => Some (sig_callId signal)
  | _ => None
  end.

(** The three slots are empty. *)
Definition no_call (s : State) : Prop :=
  activeCall (view s) = None
  /\ incomingCall (view s) = None
  /\ pendingOutgoingCall (view s) = None.

(** The operations that write to [call_requests]. *)
Definition writes_call_request (ev : Event) : bool :=
  match ev with
  | RequestCall | AcceptIncomingCall | RejectIncomingCall | EndCall => true
  | _ => false
  end.

(** A host whose database refuses every write. *)
Definition refusing_database (message : string) (h : Host) : Prop :=
  updateCallRequest h = Some message /\ insertCallRequest h = inl message.

(** ** Signing out *)

Definition setCurrentUser (v : option UserId) (s : State) : State :=
  {| currentUser := v;
     activeConversationId := activeConversationId s;
     view := view s;
     refs := refs s;
     media := media s;
     ice := ice s;
     effects := effects s |}.

(** The effect keyed on [currentUser], when nobody is signed in. It also
    empties the conversation cards, the message list and the unread
    counters, which are not part of [State]. *)
Definition onSignedOut (h : Host) : M unit :=
  modify (setDynamicIceCache None) ;;
  modify (setCurrentIceServers (ICE_SERVERS h)) ;;
  modify (setIceConfigMode mode_env) ;;
  resetCallMedia ;;
  modify (setActiveCall None) ;;
  modify (setIncomingCall None) ;;
  modify (setPendingOutgoingCall None) ;;
  modify (setCallStatus idle) ;;
  modify (setCallError None) ;;
  modify (setActiveConversationId None).

(** The session ends ([onAuthStateChange] reports no user) and the render
    runs the effect. *)
Definition sign_out (h : Host) (s : State) : State :=
  commit h s (run (onSignedOut h) (setCurrentUser None s)).

(** [logout]: [await endCall()], then [supabase.auth.signOut()], which
    ends the session. *)
Definition logout (h1 h2 : Host) (s : State) : State :=
  sign_out h2 (step h1 EndCall s).

(** ** Hosts on which a handshake goes through *)

(** The media context allows calls and the camera delivers [stream],
    unless a stream is held already. *)
Definition media_available (h : Host) (s : State) (stream : MediaStream)
  : Prop :=
  isSecureContext h = true
  /\ hasGetUserMedia h = true
  /\ match localStream (media s) with
     | Some mine => stream = mine
     | None => getUserMedia h = inr stream
     end.

(** What [resetCallMedia] or [createPeerConnection] close: the session
    held, if any. *)
Definition closing (s : State) : list nat :=
  match peerConnection s with
  | Some p => [pc_id p]
  | None => []
  end.


(** ** Handlers as the event loop interleaves them

    A function declared [async] runs, inside the handler that calls it,
    only as far as the first promise it awaits that is still pending.
    What is left of it runs when the promise has settled, in the state the
    component is in by then, and the event loop may have delivered other
    events in between. [handle] and [step] above describe the case in
    which nothing arrives while a handler waits: every promise settles
    with the answer of the one [Host] before the next event. Here each
    wait is explicit, and what is left of a handler is a value of its
    own. *)

Module Async.

(** How far an [async] function has come: it has returned or thrown
    ([Settled]), or it waits for a promise ([Pending]) and continues, in
    the state it finds then, with what the host answers then. *)
Inductive Progress (A : Type) : Type :=
| Settled (r : Res A) (s : State)
| Pending (s : State) (resume : Host -> State -> Progress A).
Arguments Settled {A} r s.
Arguments Pending {A} s resume.

(** The body of an [async] function, run from a state against the
    answers the host gives at that moment. *)
Definition Task (A : Type) : Type := Host -> State -> Progress A.

(** Code without a wait. *)
Definition lift_host {A} (m : Host -> M A) : Task A :=
  fun h s => let (r, s') := m h s in Settled r s'.

Definition lift {A} (m : M A) : Task A := lift_host (fun _ => m).

Definition done {A} (a : A) : Task A := fun _ s => Settled (Ok a) s.

Definition raise {A} (e : Thrown) : Task A := fun _ s => Settled (Raise e) s.

Definition settled {A} (answer : Thrown + A) : Res A :=
  match answer with
  | inl e => Raise e
  | inr a => Ok a
  end.

(** [await p] for a promise [p] of the host that is still pending. ([await]
    of a promise that has settled already, such as the one returned by an
    [async] function that did not wait itself, continues before any other
    event is handled: it is no wait.) *)
Definition wait {A} (answer : Host -> Thrown + A) : Task A :=
  fun _ s => Pending s (fun h' s' => Settled (settled (answer h')) s').

Definition wait_void (answer : Host -> option Thrown) : Task unit :=
  wait (fun h => match answer h with
                  | Some e => inl e
                  | None => inr tt
                  end).

(** A promise of the host that does not reject. *)
Definition wait_value {A} (answer : Host -> A) : Task A :=
  wait (fun h => inr (answer h)).

(** What the host says without a wait ([Date.now()], the build's
    environment). *)
Definition ask : Task Host := fun h s => Settled (Ok h) s.

Fixpoint and_then {A B} (p : Progress A) (k : A -> Task B) (h : Host)
  : Progress B :=
  match p with
  | Settled (Ok a) s => k a h s
  | Settled (Raise e) s => Settled (Raise e) s
  | Pending s resume => Pending s (fun h' s' => and_then (resume h' s') k h')
  end.

Definition bind {A B} (m : Task A) (k : A -> Task B) : Task B :=
  fun h s => and_then (m h s) k h.

Fixpoint or_else {A} (p : Progress A) (handler : Thrown -> Task A) (h : Host)
  : Progress A :=
  match p with
  | Settled (Ok a) s => Settled (Ok a) s
  | Settled (Raise e) s => handler e h s
  | Pending s resume =>
      Pending s (fun h' s' => or_else (resume h' s') handler h')
  end.

Definition attempt {A} (m : Task A) (handler : Thrown -> Task A) : Task A :=
  fun h s => or_else (m h s) handler h.

(** Every promise settles at once, with the answer of [h], and nothing
    else happens in between. *)
Fixpoint complete {A} (h : Host) (p : Progress A) : Res A * State :=
  match p with
  | Settled r s => (r, s)
  | Pending s resume => complete h (resume h s)
  end.

(** The state a function leaves when it returns, throws or starts to
    wait, and what is left of it. *)
Definition state_of {A} (p : Progress A) : State :=
  match p with
  | Settled _ s => s
  | Pending s _ => s
  end.

Definition left_of (p : Progress unit) : list (Task unit) :=
  match p with
  | Settled _ _ => []
  | Pending _ resume => [resume]
  end.

Definition settled_now {A} (p : Progress A) : bool :=
  match p with
  | Settled _ _ => true
  | Pending _ _ => false
  end.

Declare Scope async_scope.
Delimit Scope async_scope with async.
Notation "x <- m ;; k" := (bind m (fun x => k))
  (at level 61, m at next level, right associativity) : async_scope.
Notation "m ;; k" := (bind m (fun _ => k))
  (at level 61, right associativity) : async_scope.
Local Open Scope async_scope.

(** *** Media and negotiation *)

Definition ensureLocalStream : Task MediaStream :=
  lift_host assertMediaContext ;;
  mine <- lift (gets (fun s => localStream (media s))) ;;
  match mine with
  | Some stream => done stream
  | None =>
      stream <- wait getUserMedia ;;
      lift (modify (setLocalStream (Some stream))) ;;
      done stream
  end.

(** One wait stands for the three of the request ([getSession], [fetch],
    [json]): the function touches no state between them. *)
Definition fetch_payload : Task IceServerFunctionResponse :=
  lift (modify (push_output FetchIceServers)) ;;
  outcome <- wait_value iceFetch ;;
  match outcome with
  | FetchRejects => raise OtherValue
  | FetchResponse false _ =>
      raise (ErrorObject "TURN endpoint request failed.")
  | FetchResponse true None => raise OtherValue
  | FetchResponse true (Some data) => done data
  end.

(** [Date.now()] is read on entry, before the request. *)
Definition resolveIceServers : Task (list RTCIceServer) :=
  entry <- ask ;;
  cached <- lift (gets (fun s => dynamicIceCacheRef (ice s))) ;;
  match cache_fresh entry cached with
  | Some cachedServers => done cachedServers
  | None =>
      attempt
        (payload <- fetch_payload ;;
         let parsedServers := sanitizeIceServers (iceServers payload) in
         match parsedServers with
         | [] =>
             raise (ErrorObject "No ICE servers returned by TURN endpoint.")
         | _ :: _ =>
             let ttl := positive_floor_or (ttlSeconds payload) 600 in
             let refreshSeconds := Z.max 30 (ttl - 60) in
             lift (modify
                     (setDynamicIceCache
                        (Some {| servers := parsedServers;
                                 expiresAt :=
                                   now entry + refreshSeconds * 1000 |}))) ;;
             lift (modify (setCurrentIceServers parsedServers)) ;;
             lift (modify (setIceConfigMode mode_dynamic)) ;;
             done parsedServers
         end)
        (fun _ =>
           lift (modify (setCurrentIceServers (ICE_SERVERS entry))) ;;
           lift (modify (setIceConfigMode mode_env)) ;;
           done (ICE_SERVERS entry))
  end.

(** [createPeerConnection] has no wait; it returns the connection it has
    put into [peerConnectionRef]. *)
Definition createPeerConnection (call : ActiveCall) (stream : MediaStream)
    (myUserId : UserId) (iceServers : list RTCIceServer) : Task Peer :=
  lift_host (fun h =>
    (old <- gets peerConnection ;;
     match old with
     | Some p => modify (record_close p)
     | None => ret tt
     end ;;
     await_void (newPeerConnection h) ;;
     n <- gets (fun s => peersCreated (effects s)) ;;
     modify record_new_peer ;;
     let peer := {| pc_id := n; pc_call := call; pc_owner := myUserId;
                    pc_stream := stream; pc_iceServers := iceServers;
                    remoteDescription := None; localDescription := None;
                    addedCandidates := [] |} in
     modify (setPeerConnection (Some peer)) ;;
     ret peer)%monad).

(** A method call on the connection [peer] held in a local variable. The
    state keeps the connection that is in [peerConnectionRef]; one that has
    left the ref has been closed, and nothing more is recorded of it. *)
Definition update_peer_of (peer : Peer) (f : Peer -> Peer) (s : State) : State :=
  match peerConnection s with
  | Some p =>
      if Nat.eqb (pc_id p) (pc_id peer) then setPeerConnection (Some (f p)) s
      else s
  | None => s
  end.

Definition peer_setRemoteDescription (peer : Peer) (sdp : Sdp) : Task unit :=
  wait_void (fun h => setRemoteDescription h sdp) ;;
  lift (modify (update_peer_of peer (peer_with_remote sdp))).

Definition peer_setLocalDescription (peer : Peer) (sdp : Sdp) : Task unit :=
  wait_void setLocalDescription ;;
  lift (modify (update_peer_of peer (peer_with_local sdp))).

Definition peer_addIceCandidate (peer : Peer) (c : Candidate) : Task unit :=
  wait_void (fun h => addIceCandidate h c) ;;
  lift (modify (update_peer_of peer (peer_with_candidate c))).

Fixpoint add_queued (peer : Peer) (queued : list Candidate) : Task unit :=
  match queued with
  | [] => done tt
  | candidate :: rest =>
      attempt (peer_addIceCandidate peer candidate) (fun _ => done tt) ;;
      add_queued peer rest
  end.

Definition flushPendingRemoteCandidates : Task unit :=
  peer <- lift (gets peerConnection) ;;
  match peer with
  | None => done tt
  | Some p =>
      match remoteDescription p with
      | None => done tt
      | Some _ =>
          queued <- lift (gets (fun s => pendingRemoteCandidatesRef (media s))) ;;
          match queued with
          | [] => done tt
          | _ :: _ =>
              lift (modify (setPendingRemoteCandidates [])) ;;
              add_queued p queued
          end
      end
  end.

(** [channel.send] is started at once; its promise is awaited and its
    answer is not looked at. *)
Definition sendCallSignal (event : SignalEvent) (payload : SignalPayload)
  : Task unit :=
  lift (sendCallSignal event payload) ;;
  wait_void (fun _ => None).

Definition startCallerHandshake (call : ActiveCall) (callerId : UserId)
  : Task unit :=
  if negb (truthy_opt (ac_acceptedBy call)) then done tt
  else
    guarded <- lift (gets (handshake_guard call)) ;;
    if guarded : bool then done tt
    else
      lift (modify (setHandshakeStartedForCall (Some (ac_id call)))) ;;
      attempt
        (lift (modify (setCallStatus connecting)) ;;
         stream <- ensureLocalStream ;;
         iceServers <- resolveIceServers ;;
         peer <- createPeerConnection call stream callerId iceServers ;;
         offer <- wait createOffer ;;
         peer_setLocalDescription peer offer ;;
         sendCallSignal webrtc_offer
           {| sig_callId := ac_id call;
              sig_conversationId := ac_conversationId call;
              sig_from := callerId;
              sig_to := ac_acceptedBy call;
              sig_sdp := Some offer;
              sig_candidate := None |})
        (fun e =>
           lift (modify (setHandshakeStartedForCall None)) ;;
           lift (modify (setCallStatus error)) ;;
           lift (modify (setCallError
                           (Some (error_message e
                                    "Could not start camera/mic for the call."))))).

(** *** Persisted call-request notifications *)

(** [handleCallChange] is not [async]: it starts the caller handshake
    with [void] and returns, so what is left of the handshake is all that
    is left of the handler. *)
Definition handleCallChange (me : UserId) (raw : CallRequestRow) : Task unit :=
  match normalizeCall raw with
  | None => done tt
  | Some call =>
      match ac_status call with
      | pending =>
          if String.eqb (ac_requesterId call) me then
            lift (modify (setPendingOutgoingCall (Some call))) ;;
            lift (modify (setCallStatus requesting))
          else
            lift (modify (setIncomingCall (Some call))) ;;
            current <- lift (gets (fun s => callStatus (view s))) ;;
            lift (modify (setCallStatus
                            (match current with
                             | idle => ringing
                             | _ => current
                             end)))
      | accepted =>
          lift (modify (setActiveConversationId
                          (Some (ac_conversationId call)))) ;;
          if (String.eqb (ac_requesterId call) me
              && truthy_opt (ac_acceptedBy call))%bool then
            lift (modify (setPendingOutgoingCall None)) ;;
            lift (modify (setCallError None)) ;;
            lift (modify (setActiveCall (Some call))) ;;
            peer <- lift (gets peerConnection) ;;
            match peer with
            | None => startCallerHandshake call me
            | Some _ => done tt
            end
          else if is_user (ac_acceptedBy call) me then
            lift (modify (setIncomingCall None)) ;;
            lift (modify (setCallError None)) ;;
            lift (modify (setActiveCall (Some call))) ;;
            lift (modify (setCallStatus connecting))
          else done tt
      | ended | cancelled | rejected =>
          related <- lift (gets (isRelated (ac_id call))) ;;
          if related : bool then
            lift resetCallMedia ;;
            lift (modify (setActiveCall None)) ;;
            lift (modify (setIncomingCall None)) ;;
            lift (modify (setPendingOutgoingCall None)) ;;
            (if (Status_eqb (ac_status call) rejected
                 && String.eqb (ac_requesterId call) me)%bool
             then lift (modify (setCallError (Some "Call was declined.")))
             else done tt) ;;
            lift (modify (setCallStatus idle))
          else done tt
      end
  end.

(** *** Broadcast signals *)

Definition on_call_accepted (me : UserId) (signal : SignalPayload) : Task unit :=
  if for_someone_else signal me then done tt
  else
    waiting <- lift (gets (fun s => pendingOutgoingCallRef (refs s))) ;;
    match matching waiting (sig_callId signal) with
    | None => done tt
    | Some pendingCall =>
        let acceptedCall := accept_view pendingCall (sig_from signal) in
        lift (modify (setPendingOutgoingCall None)) ;;
        lift (modify (setActiveCall (Some acceptedCall))) ;;
        lift (modify (setCallStatus connecting)) ;;
        lift (modify (setActiveConversationId
                        (Some (ac_conversationId acceptedCall)))) ;;
        startCallerHandshake acceptedCall me
    end.

Definition answer_offer (me : UserId) (call : ActiveCall)
    (signal : SignalPayload) (sdp : Sdp) : Task unit :=
  attempt
    (lift (modify (setCallStatus connecting)) ;;
     stream <- ensureLocalStream ;;
     iceServers <- resolveIceServers ;;
     peer <- createPeerConnection call stream me iceServers ;;
     peer_setRemoteDescription peer sdp ;;
     flushPendingRemoteCandidates ;;
     answer <- wait createAnswer ;;
     peer_setLocalDescription peer answer ;;
     sendCallSignal webrtc_answer
       {| sig_callId := ac_id call;
          sig_conversationId := ac_conversationId call;
          sig_from := me;
          sig_to := Some (sig_from signal);
          sig_sdp := Some answer;
          sig_candidate := None |})
    (fun e =>
       lift (modify (setCallStatus error)) ;;
       lift (modify (setCallError
                       (Some (error_message e "Could not answer the call."))))).

Definition on_webrtc_offer (me : UserId) (signal : SignalPayload) : Task unit :=
  if for_someone_else signal me then done tt
  else
    match sig_sdp signal with
    | None => done tt
    | Some sdp =>
        found <- lift (offer_call me signal) ;;
        match found with
        | None => done tt
        | Some call => answer_offer me call signal sdp
        end
    end.

Definition on_webrtc_answer (me : UserId) (signal : SignalPayload) : Task unit :=
  if for_someone_else signal me then done tt
  else
    peer <- lift (gets peerConnection) ;;
    match sig_sdp signal, peer with
    | Some sdp, Some p =>
        peer_setRemoteDescription p sdp ;;
        flushPendingRemoteCandidates
    | _, _ => done tt
    end.

Definition on_webrtc_ice (me : UserId) (signal : SignalPayload) : Task unit :=
  if for_someone_else signal me then done tt
  else
    peer <- lift (gets peerConnection) ;;
    match sig_candidate signal, peer with
    | Some candidate, Some p =>
        attempt
          (match remoteDescription p with
           | Some _ => peer_addIceCandidate p candidate
           | None =>
               queued <- lift (gets (fun s =>
                                       pendingRemoteCandidatesRef (media s))) ;;
               lift (modify (setPendingRemoteCandidates
                               (queued ++ [candidate])))
           end)
          (fun _ => done tt)
    | _, _ => done tt
    end.

(** The [call-ended] handler has no wait. *)
Definition on_broadcast (me : UserId) (event : SignalEvent)
    (signal : SignalPayload) : Task unit :=
  match event with
  | call_accepted => on_call_accepted me signal
  | webrtc_offer => on_webrtc_offer me signal
  | webrtc_answer => on_webrtc_answer me signal
  | webrtc_ice => on_webrtc_ice me signal
  | call_ended => lift (on_call_ended signal)
  end.

(** *** User operations *)

Definition requestCall : Task unit :=
  user <- lift (gets currentUser) ;;
  conversation <- lift (gets activeConversationId) ;;
  match user, conversation with
  | Some me, Some conv =>
      current <- lift (gets (fun s => callStatus (view s))) ;;
      match current with
      | connecting | in_call | requesting => done tt
      | _ =>
          allowed <-
            lift_host (fun h =>
              try_catch
                (assertMediaContext h ;; ret true)%monad
                (fun e =>
                   (fail_call
                      (error_message e "This device cannot start calls here.") ;;
                    ret false)%monad)) ;;
          if allowed : bool then
            lift (modify (setCallError None)) ;;
            lift (modify (push_output (InsertCallRequest conv me pending))) ;;
            answer <- wait_value insertCallRequest ;;
            match answer with
            | inl message => lift (fail_call message)
            | inr newId =>
                match normalizeCall (inserted_row conv me newId) with
                | None => lift (fail_call "Failed to create call request.")
                | Some pendingCall =>
                    lift (modify (setPendingOutgoingCall (Some pendingCall))) ;;
                    lift (modify (setCallStatus requesting))
                end
            end
          else done tt
      end
  | _, _ => done tt
  end.

Definition acceptIncomingCall : Task unit :=
  user <- lift (gets currentUser) ;;
  incoming <- lift (gets (fun s => incomingCall (view s))) ;;
  match incoming, user with
  | Some inc, Some me =>
      lift (modify (push_output
                      (UpdateCallRequest (ac_id inc) accepted (Some me)))) ;;
      refusal <- wait_value updateCallRequest ;;
      match refusal with
      | Some message => lift (fail_call message)
      | None =>
          let acceptedCall := accept_view inc me in
          lift (modify (setActiveConversationId
                          (Some (ac_conversationId acceptedCall)))) ;;
          lift (modify (setIncomingCall None)) ;;
          lift (modify (setActiveCall (Some acceptedCall))) ;;
          lift (modify (setCallStatus connecting)) ;;
          lift (modify (setCallError None)) ;;
          sendCallSignal call_accepted
            {| sig_callId := ac_id acceptedCall;
               sig_conversationId := ac_conversationId acceptedCall;
               sig_from := me;
               sig_to := Some (ac_requesterId acceptedCall);
               sig_sdp := None;
               sig_candidate := None |}
      end
  | _, _ => done tt
  end.

Definition rejectIncomingCall : Task unit :=
  user <- lift (gets currentUser) ;;
  incoming <- lift (gets (fun s => incomingCall (view s))) ;;
  match incoming, user with
  | Some inc, Some me =>
      lift (modify (push_output
                      (UpdateCallRequest (ac_id inc) rejected (Some me)))) ;;
      refusal <- wait_value updateCallRequest ;;
      match refusal with
      | Some message => lift (fail_call message)
      | None =>
          lift (modify (setIncomingCall None)) ;;
          lift (modify (setCallStatus idle))
      end
  | _, _ => done tt
  end.

Definition endCall : Task unit :=
  user <- lift (gets currentUser) ;;
  match user with
  | None => done tt
  | Some me =>
      held <- lift (gets call_to_end) ;;
      match held with
      | None => done tt
      | Some current =>
          lift (modify (push_output
                          (UpdateCallRequest (ac_id current)
                                             (nextStatus current me) None))) ;;
          refusal <- wait_value updateCallRequest ;;
          match refusal with
          | Some message => lift (fail_call message)
          | None =>
              let targetId :=
                if String.eqb me (ac_requesterId current)
                then ac_acceptedBy current
                else Some (ac_requesterId current) in
              (if truthy_opt targetId then
                 sendCallSignal call_ended
                   {| sig_callId := ac_id current;
                      sig_conversationId := ac_conversationId current;
                      sig_from := me;
                      sig_to := targetId;
                      sig_sdp := None;
                      sig_candidate := None |}
               else done tt) ;;
              lift resetCallMedia ;;
              lift (modify (setActiveCall None)) ;;
              lift (modify (setIncomingCall None)) ;;
              lift (modify (setPendingOutgoingCall None)) ;;
              lift (modify (setCallStatus idle))
          end
      end
  end.

Definition headerCallButton : Task unit :=
  conversation <- lift (gets activeConversationId) ;;
  current <- lift (gets (fun s => callStatus (view s))) ;;
  match conversation, current with
  | None, _ => done tt
  | Some _, connecting => done tt
  | Some _, _ =>
      shown <- lift (gets callForActiveConversation) ;;
      match shown with
      | Some _ => endCall
      | None => requestCall
      end
  end.

(** *** The event loop *)

Definition signed_in (k : UserId -> Task unit) : Task unit :=
  user <- lift (gets currentUser) ;;
  match user with
  | Some me => k me
  | None => done tt
  end.

(** The callbacks of the peer connection and of the timer have no wait. *)
Definition handle (ev : Event) : Task unit :=
  match ev with
  | CallRequestChange raw => signed_in (fun me => handleCallChange me raw)
  | Broadcast event payload =>
      signed_in (fun me => on_broadcast me event payload)
  | LocalIceCandidate c => lift (onicecandidate c)
  | ConnectionStateChange st => lift (onconnectionstatechange st)
  | IceConnectionStateChange st => lift (oniceconnectionstatechange st)
  | RemoteTrack str => lift (ontrack str)
  | ConnectingTimeout => lift_host onConnectingTimeout
  | ClickCallButton => headerCallButton
  | RequestCall => requestCall
  | AcceptIncomingCall => acceptIncomingCall
  | RejectIncomingCall => rejectIncomingCall
  | EndCall => endCall
  end.

(** The component between two events: its state, and what is left of the
    handlers that wait. A handler that has waited and has finished since
    stays in the list as [done tt], so that a position names the same
    handler throughout. *)
Record World := {
  current : State;
  suspended : list (Task unit)
}.

Definition at_rest (s : State) : World := {| current := s; suspended := [] |}.

Definition rest_of (p : Progress unit) : Task unit :=
  match p with
  | Settled _ _ => done tt
  | Pending _ resume => resume
  end.

Fixpoint put {A} (n : nat) (x : A) (l : list A) : list A :=
  match l, n with
  | [], _ => []
  | _ :: rest, O => x :: rest
  | y :: rest, S m => y :: put m x rest
  end.

(** An event arrives: its handler runs until it returns or waits, then the
    component renders. *)
Definition deliver (h : Host) (ev : Event) (w : World) : World :=
  let p := handle ev h (current w) in
  {| current := commit h (current w) (state_of p);
     suspended := suspended w ++ left_of p |}.

(** The promise the [n]-th handler waits for settles: the handler runs
    until it returns or waits again, then the component renders. *)
Definition resume (h : Host) (n : nat) (w : World) : World :=
  match nth_error (suspended w) n with
  | None => w
  | Some k =>
      let p := k h (current w) in
      {| current := commit h (current w) (state_of p);
         suspended := put n (rest_of p) (suspended w) |}
  end.

Inductive Tick :=
| Deliver (ev : Event)
| Resume (n : nat).

Definition tick (h : Host) (t : Tick) (w : World) : World :=
  match t with
  | Deliver ev => deliver h ev w
  | Resume n => resume h n w
  end.

Fixpoint ticks (trace : list (Host * Tick)) (w : World) : World :=
  match trace with
  | [] => w
  | (h, t) :: rest => ticks rest (tick h t w)
  end.

End Async.

(** With every wait answered at once by [h], the task [t] is the
    computation [m]. *)
Definition settles_as {A} (h : Host) (t : Async.Task A) (m : M A) : Prop :=
  forall s, Async.complete h (t h s) = m s.

(** The identity of the connection held. *)
Definition held_id (s : State) : option nat :=
  option_map pc_id (peerConnection s).

(** The task [t] never waits. *)
Definition waitless {A} (t : Async.Task A) : Prop :=
  forall h s, Async.settled_now (t h s) = true.

(** What a second delivery starts again while the first still waits:
    [setRemoteDescription] for an answer and, as long as no session is
    held, the caller handshake of a notification. *)
Definition started_again (ev : Event) (once : Async.World)
  : list (Async.Task unit) :=
  match ev with
  | CallRequestChange _ =>
      match peerConnection (Async.current once) with
      | None => Async.suspended once
      | Some _ => []
      end
  | Broadcast webrtc_answer _ => Async.suspended once
  | _ => []
  end.

(** The notification that Bob has accepted Alice's call 2. *)
Definition bobs_acceptance : Event :=
  CallRequestChange (call_row 2 7 alice (Some bob) accepted).

(** The promises the [n]-th handler waits for settle one after the other
    at time [t], with nothing else in between. On [host_at t] a caller
    handshake waits five times: for the camera, the ICE servers, the
    offer, the local description and the channel. *)
Definition settling (t : Z) (n : nat) : list (Host * Async.Tick) :=
  repeat (host_at t, Async.Resume n) 5.

Definition offers_sent (s : State) : list Output :=
  filter (fun o => match o with
                   | SendSignal webrtc_offer _ => true
                   | _ => false
                   end)
         (outbox (effects s)).

(** * Verification *)

Local Open Scope list_scope.

(** Runs the monadic plumbing of a handler, leaving the state updates. *)
Ltac monad_simpl :=
  cbv beta iota zeta delta
    [bind ret throw try_catch gets modify await await_void run signed_in
     fail_call sendCallSignal].

Lemma skipn_own_length {A} (l r : list A) :
  skipn (List.length l) (l ++ r) = r.
Proof.
  induction l as [|x l IH]; [reflexivity | exact IH].
Qed.

(** ** Rejecting an incoming call *)

(** C10. Rejecting an incoming call sends exactly one update, which sets
    [status = rejected] and [accepted_by] to the rejecting user's own id;
    on whatever row it is applied, the stored row then has status
    [rejected] and a non-null [accepted_by] naming the party who declined. *)
Theorem rejectIncomingCall_names_the_decliner :
  forall (h : Host) (s : State) (me : UserId) (inc : ActiveCall),
    currentUser s = Some me ->
    incomingCall (view s) = Some inc ->
    issued (rejectIncomingCall h) s
      = [UpdateCallRequest (ac_id inc) rejected (Some me)]
    /\ forall old : Policy.call_request,
         Policy.status (Policy.updated old rejected (Some me)) = rejected
         /\ Policy.accepted_by (Policy.updated old rejected (Some me)) = Some me.
Proof.
  intros h s me inc Huser Hinc. split.
  - unfold issued, rejectIncomingCall, run, bind, gets, modify.
    rewrite Huser, Hinc. cbn.
    destruct (updateCallRequest h); cbn; apply skipn_own_length.
  - intros old. split; reflexivity.
Qed.

Lemma rejectIncomingCall_names_the_decliner_witness :
  issued (rejectIncomingCall (host_at 0)) alice_ringing
    = [UpdateCallRequest 1 rejected (Some alice)].
Proof.
  exact (proj1 (rejectIncomingCall_names_the_decliner
                  (host_at 0) alice_ringing alice
                  {| ac_id := 1; ac_conversationId := 7; ac_requesterId := bob;
                     ac_acceptedBy := None; ac_status := pending |}
                  eq_refl eq_refl)).
Defined.

(** ** The render after a handler *)

Lemma view_sync_refs (s : State) : view (sync_refs s) = view s.
Proof. reflexivity. Qed.

Lemma view_connecting_effect (h : Host) (a b : State) :
  view (connecting_effect h a b) = view b.
Proof.
  unfold connecting_effect.
  destruct (CallStatus_eqb _ _); [reflexivity|].
  destruct (callStatus (view b)); reflexivity.
Qed.

Lemma view_commit (h : Host) (a b : State) : view (commit h a b) = view b.
Proof. unfold commit. now rewrite view_connecting_effect. Qed.

Lemma CallStatus_eqb_eq (a b : CallStatus) :
  CallStatus_eqb a b = true <-> a = b.
Proof. destruct a, b; cbn; split; congruence. Qed.


(** ** The connecting timeout *)




(** ** The ICE-server resolver *)

Lemma resolve_cached (h : Host) (s : State) (c : IceCache) :
  dynamicIceCacheRef (ice s) = Some c ->
  now h + 15000 < expiresAt c ->
  resolveIceServers h s = (Ok (servers c), s).
Proof.
  intros Hc Hfresh. unfold resolveIceServers, bind, gets, cache_fresh.
  rewrite Hc. apply Z.ltb_lt in Hfresh. now rewrite Hfresh.
Qed.

Lemma cache_stale (h : Host) (s : State) :
  (forall c, dynamicIceCacheRef (ice s) = Some c -> expiresAt c <= now h + 15000) ->
  cache_fresh h (dynamicIceCacheRef (ice s)) = None.
Proof.
  intros Hstale. unfold cache_fresh.
  destruct (dynamicIceCacheRef (ice s)) as [c|]; [|reflexivity].
  specialize (Hstale c eq_refl).
  destruct (now h + 15000 <? expiresAt c) eqn:E; [|reflexivity].
  apply Z.ltb_lt in E. lia.
Qed.

Lemma resolve_fetched (h : Host) (s : State) (data : IceServerFunctionResponse) :
  cache_fresh h (dynamicIceCacheRef (ice s)) = None ->
  usable_response h = Some data ->
  let parsed := sanitizeIceServers (iceServers data) in
  let s' := snd (resolveIceServers h s) in
  fst (resolveIceServers h s) = Ok parsed
  /\ parsed <> []
  /\ dynamicIceCacheRef (ice s')
     = Some {| servers := parsed;
               expiresAt := now h + Z.max 30 (positive_floor_or (ttlSeconds data) 600 - 60) * 1000 |}
  /\ currentIceServers (ice s') = parsed
  /\ iceConfigMode (ice s') = mode_dynamic
  /\ issued (fun st => (Ok tt, snd (resolveIceServers h st))) s = [FetchIceServers].
Proof.
  intros Hstale Hgood parsed s'. subst parsed s'.
  unfold issued, resolveIceServers, usable_response, fetch_payload in *.
  monad_simpl. rewrite Hstale.
  destruct (iceFetch h) as [|[|] [d|]]; try discriminate.
  destruct (sanitizeIceServers (iceServers d)) as [|x l] eqn:E; [discriminate|].
  injection Hgood as <-. monad_simpl. rewrite E. cbn.
  repeat split; try reflexivity; try discriminate.
  apply skipn_own_length.
Qed.

Lemma resolve_fallback (h : Host) (s : State) :
  cache_fresh h (dynamicIceCacheRef (ice s)) = None ->
  usable_response h = None ->
  let s' := snd (resolveIceServers h s) in
  fst (resolveIceServers h s) = Ok (ICE_SERVERS h)
  /\ currentIceServers (ice s') = ICE_SERVERS h
  /\ iceConfigMode (ice s') = mode_env
  /\ dynamicIceCacheRef (ice s') = dynamicIceCacheRef (ice s).
Proof.
  intros Hstale Hbad s'. subst s'.
  unfold resolveIceServers, usable_response, fetch_payload in *.
  monad_simpl. rewrite Hstale.
  destruct (iceFetch h) as [|[|] [d|]]; monad_simpl; cbn; auto.
  destruct (sanitizeIceServers (iceServers d)) as [|x l] eqn:E;
    [|discriminate].
  cbn. auto.
Qed.

Lemma ttl_default (n : JsNumber) :
  match n with
  | JFinite q => (q <= 0)%Q
  | _ => True
  end ->
  positive_floor_or n 600 = 600.
Proof.
  destruct n as [| |q]; cbn; try reflexivity.
  intros Hq. destruct (Qlt_le_dec 0 q) as [Hlt|]; [|reflexivity].
  exfalso. exact (Qlt_not_le _ _ Hlt Hq).
Qed.

Lemma fallback_is_default (h : Host) :
  match VITE_ICE_SERVERS_JSON h with
  | EnvParsed v => sanitizeIceServers v = []
  | _ => True
  end ->
  ICE_SERVERS h = defaultIceServers.
Proof.
  unfold ICE_SERVERS, parseIceServers.
  destruct (VITE_ICE_SERVERS_JSON h); try reflexivity.
  now intros ->.
Qed.

(** C8 (as the code has it). A cached configuration whose expiry is more
    than 15 seconds away is returned with no fetch and no state change.
    Otherwise the endpoint's answer decides. A response with at least one
    well-formed entry is returned, cached with expiry [max(30, ttl - 60)]
    seconds from now (ttl is 600 when it is not a finite positive number)
    and the mode becomes dynamic. Any failure returns the static list [ICE_SERVERS] and
    sets the mode to env, leaving the cache as it was. [ICE_SERVERS] is
    the STUN-only default, which holds no relay, exactly when the
    deployment configures no well-formed server of its own. *)
Theorem resolveIceServers_cases :
  forall (h : Host) (s : State),
    (forall c,
        dynamicIceCacheRef (ice s) = Some c ->
        now h + 15000 < expiresAt c ->
        resolveIceServers h s = (Ok (servers c), s))
    /\ ((forall c, dynamicIceCacheRef (ice s) = Some c ->
                   expiresAt c <= now h + 15000) ->
        let s' := snd (resolveIceServers h s) in
        (forall data,
            usable_response h = Some data ->
            let parsed := sanitizeIceServers (iceServers data) in
            fst (resolveIceServers h s) = Ok parsed
            /\ parsed <> []
            /\ dynamicIceCacheRef (ice s')
               = Some {| servers := parsed;
                         expiresAt :=
                           now h
                           + Z.max 30
                               (positive_floor_or (ttlSeconds data) 600 - 60)
                             * 1000 |}
            /\ iceConfigMode (ice s') = mode_dynamic)
        /\ (usable_response h = None ->
            fst (resolveIceServers h s) = Ok (ICE_SERVERS h)
            /\ currentIceServers (ice s') = ICE_SERVERS h
            /\ iceConfigMode (ice s') = mode_env
            /\ dynamicIceCacheRef (ice s') = dynamicIceCacheRef (ice s)))
    /\ (forall n,
           match n with JFinite q => (q <= 0)%Q | _ => True end ->
           positive_floor_or n 600 = 600)
    /\ (match VITE_ICE_SERVERS_JSON h with
        | EnvParsed v => sanitizeIceServers v = []
        | _ => True
        end ->
        ICE_SERVERS h = defaultIceServers)
    /\ hasTurnServer defaultIceServers = false.
Proof.
  intros h s. split; [|split; [|split; [|split]]].
  - intros c. apply resolve_cached.
  - intros Hstale s'. apply cache_stale in Hstale. split.
    + intros data Hgood parsed.
      destruct (resolve_fetched h s data Hstale Hgood)
        as (H1 & H2 & H3 & H4 & H5 & _).
      auto.
    + intros Hbad. now apply resolve_fallback.
  - apply ttl_default.
  - apply fallback_is_default.
  - reflexivity.
Qed.

Lemma resolveIceServers_cases_witness :
  fst (resolveIceServers (host_at 0) alice_idle) = Ok defaultIceServers
  /\ iceConfigMode (ice (snd (resolveIceServers (host_at 0) alice_idle)))
     = mode_env.
Proof.
  destruct (resolveIceServers_cases (host_at 0) alice_idle)
    as (_ & Hfetch & _).
  destruct (Hfetch (fun c (H : None = Some c) => False_ind _ (eq_ind None (fun o => match o with None => True | Some _ => False end) I _ H)))
    as (_ & Hfail).
  destruct (Hfail eq_refl) as (H1 & _ & H3 & _).
  split; [exact H1 | exact H3].
Defined.

(** C8, as stated, fails where the deployment configures a relay of its
    own: after a failed fetch the list returned is not STUN-only. *)
Lemma fallback_may_hold_a_relay :
  usable_response relay_host = None
  /\ exists l,
       fst (resolveIceServers relay_host (initial relay_host alice (Some 7)))
       = Ok l
       /\ hasTurnServer l = true.
Proof.
  split; [reflexivity|].
  eexists. split; reflexivity.
Qed.

(** ** Requesting a call *)

(** Case analysis on an innermost scrutinee of the goal. *)
Ltac break_match :=
  match goal with
  | |- context [match ?x with _ => _ end] =>
      lazymatch x with
      | context [match _ with _ => _ end] => fail
      | _ => destruct x eqn:?
      end
  end.

Ltac crunch := monad_simpl; cbn; repeat (break_match; monad_simpl; cbn).

Lemma skipn_all_own {A} (l : list A) : skipn (List.length l) l = [].
Proof. induction l; [reflexivity | assumption]. Qed.

Lemma issued_nothing (m : M unit) (s : State) :
  run m s = s -> issued m s = [].
Proof. unfold issued. intros ->. apply skipn_all_own. Qed.

Lemma requestCall_guarded (h : Host) (s : State) :
  callStatus (view s) = requesting
  \/ callStatus (view s) = connecting
  \/ callStatus (view s) = in_call ->
  run (requestCall h) s = s.
Proof.
  intros Hst. unfold requestCall. monad_simpl.
  destruct (currentUser s), (activeConversationId s); try reflexivity.
  destruct Hst as [-> | [-> | ->]]; reflexivity.
Qed.

Lemma issued_app (m : M unit) (s : State) (l : list Output) :
  outbox (effects (run m s)) = outbox (effects s) ++ l -> issued m s = l.
Proof. unfold issued. intros ->. apply skipn_own_length. Qed.

Lemma endCall_outbox (h : Host) (s : State) :
  exists l,
    outbox (effects (run (endCall h) s)) = outbox (effects s) ++ l
    /\ inserts l = [].
Proof.
  unfold endCall, resetCallMedia. crunch;
    try (exists []; split; [now rewrite app_nil_r | reflexivity]);
    try (eexists [_]; split; reflexivity);
    try (eexists [_; _]; split; [now rewrite <- app_assoc | reflexivity]).
Qed.

(** The header button never requests a call while a call of the viewed
    conversation is held in a slot: it ends that call. *)
Lemma headerCallButton_ends_held_call (h : Host) (s : State) (c : ActiveCall) :
  callForActiveConversation s = Some c ->
  inserts (issued (headerCallButton h) s) = [].
Proof.
  intros Hheld.
  destruct (endCall_outbox h s) as (l & Hl & Hins).
  assert (Hend : inserts (issued (endCall h) s) = [])
    by now rewrite (issued_app (endCall h) s l Hl).
  unfold issued, headerCallButton in *. monad_simpl.
  destruct (activeConversationId s);
    [destruct (callStatus (view s))|];
    rewrite ?Hheld; try exact Hend; now rewrite skipn_all_own.
Qed.

Lemma held_call_is_shown (s : State) (conv : Z) (c : ActiveCall) :
  activeConversationId s = Some conv ->
  ac_conversationId c = conv ->
  pendingOutgoingCall (view s) = Some c
  \/ incomingCall (view s) = Some c
  \/ activeCall (view s) = Some c ->
  exists shown, callForActiveConversation s = Some shown.
Proof.
  intros Hconv Hc Hslot.
  unfold callForActiveConversation, in_active_conversation, first_call.
  rewrite Hconv.
  assert (Hsame : (ac_conversationId c =? conv) = true) by now apply Z.eqb_eq.
  destruct Hslot as [H | [H | H]]; rewrite H, Hsame;
    repeat match goal with
           | |- context [match ?x with _ => _ end] => destruct x
           end;
    eauto.
Qed.

(** C5. While a slot holds a call of the viewed conversation (the user's
    own pending call, an incoming call that rings, a call that is
    connecting or in progress), asking for a call sends no insert. The
    request-call control is the call button of the thread header, the one
    place [requestCall] is bound to: with such a call held, the button is
    disabled (connecting) or bound to [endCall]. Besides, [requestCall]
    itself returns at its guard, sending and changing nothing, while the
    status is requesting, connecting or in-call. *)
Theorem requestCall_rejected_locally :
  forall (h : Host) (s : State),
    (forall conv c,
        activeConversationId s = Some conv ->
        ac_conversationId c = conv ->
        pendingOutgoingCall (view s) = Some c
        \/ incomingCall (view s) = Some c
        \/ activeCall (view s) = Some c ->
        inserts (issued (handle h ClickCallButton) s) = [])
    /\ (callStatus (view s) = requesting
        \/ callStatus (view s) = connecting
        \/ callStatus (view s) = in_call ->
        issued (requestCall h) s = [] /\ run (requestCall h) s = s).
Proof.
  intros h s. split.
  - intros conv c Hconv Hc Hslot.
    destruct (held_call_is_shown s conv c Hconv Hc Hslot) as (shown & Hshown).
    exact (headerCallButton_ends_held_call h s shown Hshown).
  - intros Hst. pose proof (requestCall_guarded h s Hst) as Hrun.
    split; [now apply issued_nothing | exact Hrun].
Qed.

Lemma requestCall_rejected_locally_witness :
  inserts (issued (handle (host_at 0) ClickCallButton) alice_ringing) = []
  /\ (issued (requestCall (host_at 0)) alice_connecting = []
      /\ run (requestCall (host_at 0)) alice_connecting = alice_connecting).
Proof.
  split.
  - apply (proj1 (requestCall_rejected_locally (host_at 0) alice_ringing) 7
             {| ac_id := 1; ac_conversationId := 7; ac_requesterId := bob;
                ac_acceptedBy := None; ac_status := pending |}).
    + reflexivity.
    + reflexivity.
    + right. left. reflexivity.
  - apply (proj2 (requestCall_rejected_locally (host_at 0) alice_connecting)).
    right. left. reflexivity.
Defined.

(** ** Teardown *)

Lemma resetCallMedia_tears_down (s : State) :
  fst (resetCallMedia s) = Ok tt /\ torn_down s (run resetCallMedia s).
Proof.
  unfold torn_down, resetCallMedia, peerConnection. monad_simpl.
  destruct s as [u conv w r [peer q g ls rs muted] i [n closed stopped t out]].
  destruct peer, ls, rs; cbn;
    rewrite ?app_nil_r, <- ?app_assoc; repeat split; reflexivity.
Qed.

Lemma resetCallMedia_twice (s : State) :
  run resetCallMedia (run resetCallMedia s) = run resetCallMedia s.
Proof.
  unfold resetCallMedia, peerConnection. monad_simpl.
  destruct s as [u conv w r [peer q g ls rs muted] i [n closed stopped t out]].
  destruct peer, ls, rs; vm_compute; reflexivity.
Qed.

Lemma endCall_tears_down (h : Host) (s : State) (me : UserId) (c : ActiveCall) :
  currentUser s = Some me ->
  call_to_end s = Some c ->
  updateCallRequest h = None ->
  torn_down s (run (endCall h) s)
  /\ activeCall (view (run (endCall h) s)) = None
  /\ incomingCall (view (run (endCall h) s)) = None
  /\ pendingOutgoingCall (view (run (endCall h) s)) = None
  /\ callStatus (view (run (endCall h) s)) = idle.
Proof.
  intros Hme Hcall Hdb.
  unfold torn_down, endCall, resetCallMedia, peerConnection. monad_simpl.
  rewrite Hme, Hcall, Hdb. clear Hme Hcall Hdb.
  destruct s as [u conv w r [peer q g ls rs muted] i [n closed stopped t out]].
  destruct peer, ls, rs; crunch;
    rewrite ?app_nil_r, <- ?app_assoc; repeat split; reflexivity.
Qed.

Lemma endCall_without_teardown (h : Host) (s : State) :
  currentUser s = None \/ call_to_end s = None \/ updateCallRequest h <> None ->
  media (run (endCall h) s) = media s.
Proof.
  intros Hcase. unfold endCall. monad_simpl.
  destruct (currentUser s); [|reflexivity].
  destruct (call_to_end s); [|reflexivity].
  destruct (updateCallRequest h); [reflexivity|].
  destruct Hcase as [H | [H | H]]; congruence.
Qed.

(** C7 (as the code has it). Teardown ([resetCallMedia]) never fails, with
    or without a session: it closes the session if there is one, stops
    every track of the local and remote streams, empties the candidate
    queue and clears the handshake guard; a second teardown changes
    nothing. [endCall] performs it, clears the three slots and returns to
    [idle], whenever a call is held in a slot and the database accepts the
    update. With no call held, or when the update is refused, [endCall]
    leaves session, streams, queue and guard as they were. *)
Theorem endCall_teardown :
  forall (h : Host) (s : State),
    (fst (resetCallMedia s) = Ok tt /\ torn_down s (run resetCallMedia s))
    /\ run resetCallMedia (run resetCallMedia s) = run resetCallMedia s
    /\ (forall me c,
           currentUser s = Some me ->
           call_to_end s = Some c ->
           updateCallRequest h = None ->
           torn_down s (run (endCall h) s)
           /\ activeCall (view (run (endCall h) s)) = None
           /\ incomingCall (view (run (endCall h) s)) = None
           /\ pendingOutgoingCall (view (run (endCall h) s)) = None
           /\ callStatus (view (run (endCall h) s)) = idle)
    /\ (currentUser s = None \/ call_to_end s = None
        \/ updateCallRequest h <> None ->
        media (run (endCall h) s) = media s).
Proof.
  intros h s. split; [|split; [|split]].
  - apply resetCallMedia_tears_down.
  - apply resetCallMedia_twice.
  - intros me c. apply endCall_tears_down.
  - apply endCall_without_teardown.
Qed.

Lemma endCall_teardown_witness :
  torn_down alice_calling (run (endCall (host_at 5000)) alice_calling)
  /\ callStatus (view (run (endCall (host_at 5000)) alice_calling)) = idle.
Proof.
  destruct (endCall_teardown (host_at 5000) alice_calling)
    as (_ & _ & Hend & _).
  destruct (Hend alice
              {| ac_id := 2; ac_conversationId := 7; ac_requesterId := alice;
                 ac_acceptedBy := Some bob; ac_status := accepted |}
              eq_refl eq_refl eq_refl)
    as (H1 & _ & _ & _ & H5).
  split; [exact H1 | exact H5].
Defined.

(** C7, as stated, fails when the database refuses the update: Alice's
    session, her local stream, the queued candidate and the handshake
    guard all survive [endCall]. *)
Lemma endCall_refused_keeps_session :
  let s' := run (endCall refusing_host) alice_calling in
  is_some (peerConnection alice_calling) = true
  /\ is_some (peerConnection s') = true
  /\ localStream (media s') = Some [0%nat; 1%nat]
  /\ pendingRemoteCandidatesRef (media s') = ["candidate-1"]
  /\ handshakeStartedForCallRef (media s') = Some 2
  /\ closedPeers (effects s') = []
  /\ stoppedTracks (effects s') = []
  /\ callStatus (view s') = error.
Proof. vm_compute. repeat split. Qed.

(** ** Buffered ICE candidates *)

Lemma media_commit (h : Host) (a b : State) : media (commit h a b) = media b.
Proof.
  unfold commit, connecting_effect.
  destruct (CallStatus_eqb _ _); [reflexivity|].
  destruct (callStatus (view (sync_refs b))); reflexivity.
Qed.

Lemma currentUser_commit (h : Host) (a b : State) :
  currentUser (commit h a b) = currentUser b.
Proof.
  unfold commit, connecting_effect.
  destruct (CallStatus_eqb _ _); [reflexivity|].
  destruct (callStatus (view (sync_refs b))); reflexivity.
Qed.

Lemma peerConnection_commit (h : Host) (a b : State) :
  peerConnection (commit h a b) = peerConnection b.
Proof. unfold peerConnection. now rewrite media_commit. Qed.

(** One delivery while the session has no remote description. *)
Lemma ice_is_queued (h : Host) (me : UserId) (sg : SignalPayload)
    (s : State) (p : Peer) :
  currentUser s = Some me ->
  peerConnection s = Some p ->
  remoteDescription p = None ->
  for_someone_else sg me = false ->
  let s' := step h (Broadcast webrtc_ice sg) s in
  currentUser s' = Some me
  /\ peerConnection s' = Some p
  /\ pendingRemoteCandidatesRef (media s')
     = pendingRemoteCandidatesRef (media s) ++ candidates_of [(h, sg)].
Proof.
  intros Hme Hpeer Hremote Hto s'. subst s'. unfold step.
  rewrite currentUser_commit, peerConnection_commit, media_commit.
  unfold handle, on_broadcast, on_webrtc_ice, candidates_of. monad_simpl.
  rewrite Hme, Hto, Hpeer. cbn.
  destruct (sig_candidate sg); monad_simpl; rewrite ?Hremote; cbn;
    rewrite ?app_nil_r; auto.
Qed.

Lemma ice_run_is_queued (me : UserId) (p : Peer)
    (deliveries : list (Host * SignalPayload)) :
  remoteDescription p = None ->
  Forall (fun d => for_someone_else (snd d) me = false) deliveries ->
  forall s,
    currentUser s = Some me ->
    peerConnection s = Some p ->
    let s' := steps (ice_deliveries deliveries) s in
    currentUser s' = Some me
    /\ peerConnection s' = Some p
    /\ pendingRemoteCandidatesRef (media s')
       = pendingRemoteCandidatesRef (media s) ++ candidates_of deliveries.
Proof.
  intros Hremote Hall. induction Hall as [|[h sg] rest Hto _ IH]; intros s Hme Hpeer.
  - cbn. rewrite app_nil_r. auto.
  - cbn [ice_deliveries map steps fst snd].
    destruct (ice_is_queued h me sg s p Hme Hpeer Hremote Hto) as (H1 & H2 & H3).
    destruct (IH _ H1 H2) as (K1 & K2 & K3).
    split; [exact K1|]. split; [exact K2|].
    fold (ice_deliveries rest). rewrite K3, H3, <- app_assoc.
    f_equal. unfold candidates_of. cbn [flat_map].
    now rewrite app_nil_r.
Qed.

(** The loop of the flush: failures are skipped, order is kept. *)
Lemma add_queued_filters (h : Host) (queued : list Candidate) :
  forall s p,
    peerConnection s = Some p ->
    fst (add_queued h queued s) = Ok tt
    /\ snd (add_queued h queued s)
       = setPeerConnection
           (Some (peer_with_candidates (filter (candidate_applies h) queued) p))
           s.
Proof.
  induction queued as [|c rest IH]; intros s p Hpeer.
  - unfold peer_with_candidates. cbn. rewrite app_nil_r. split; [reflexivity|].
    unfold peerConnection in Hpeer.
    destruct s as [u conv w r [peer q g ls rs muted] i e], p.
    cbn in *. now rewrite Hpeer.
  - cbn [add_queued filter]. unfold peer_addIceCandidate, candidate_applies.
    monad_simpl. destruct (addIceCandidate h c) as [e|] eqn:E.
    + monad_simpl. apply (IH s p Hpeer).
    + monad_simpl. unfold update_peer. rewrite Hpeer.
      destruct (IH (setPeerConnection (Some (peer_with_candidate c p)) s)
                   (peer_with_candidate c p) eq_refl) as (H1 & H2).
      split; [exact H1|]. rewrite H2. unfold peer_with_candidates. cbn.
      now rewrite <- app_assoc.
Qed.

Lemma flush_applies_in_order (h : Host) (s : State) (p : Peer) (sdp : Sdp) :
  peerConnection s = Some p ->
  remoteDescription p = Some sdp ->
  fst (flushPendingRemoteCandidates h s) = Ok tt
  /\ peerConnection (snd (flushPendingRemoteCandidates h s))
     = Some (peer_with_candidates
               (filter (candidate_applies h) (pendingRemoteCandidatesRef (media s)))
               p)
  /\ pendingRemoteCandidatesRef (media (snd (flushPendingRemoteCandidates h s)))
     = [].
Proof.
  intros Hpeer Hremote. unfold flushPendingRemoteCandidates. monad_simpl.
  rewrite Hpeer, Hremote.
  destruct (pendingRemoteCandidatesRef (media s)) as [|c q] eqn:Hq.
  - cbn. rewrite Hpeer, Hq. unfold peer_with_candidates.
    rewrite app_nil_r. destruct p; auto.
  - monad_simpl.
    destruct (add_queued_filters h (c :: q)
                (setPendingRemoteCandidates [] s) p Hpeer) as (H1 & H2).
    rewrite H1, H2. auto.
Qed.

Lemma answer_flushes_queue (h : Host) (me : UserId) (sg : SignalPayload)
    (s : State) (p : Peer) (sdp : Sdp) :
  currentUser s = Some me ->
  peerConnection s = Some p ->
  for_someone_else sg me = false ->
  sig_sdp sg = Some sdp ->
  setRemoteDescription h sdp = None ->
  let s' := step h (Broadcast webrtc_answer sg) s in
  peerConnection s'
  = Some (peer_with_candidates
            (filter (candidate_applies h) (pendingRemoteCandidatesRef (media s)))
            (peer_with_remote sdp p))
  /\ pendingRemoteCandidatesRef (media s') = [].
Proof.
  intros Hme Hpeer Hto Hsdp Hok s'. subst s'. unfold step.
  rewrite peerConnection_commit, media_commit.
  unfold handle, on_broadcast, on_webrtc_answer, peer_setRemoteDescription.
  monad_simpl. rewrite Hme, Hto, Hsdp, Hpeer, Hok. monad_simpl.
  destruct (flush_applies_in_order h (update_peer (peer_with_remote sdp) s)
              (peer_with_remote sdp p) sdp) as (_ & H2 & H3).
  - unfold update_peer. now rewrite Hpeer.
  - reflexivity.
  - replace (pendingRemoteCandidatesRef
               (media (update_peer (peer_with_remote sdp) s)))
      with (pendingRemoteCandidatesRef (media s)) in H2
      by (unfold update_peer; now rewrite Hpeer).
    split; [exact H2 | exact H3].
Qed.

(** C6 (as the code has it). While a peer-connection session exists and
    has no remote description, every [webrtc-ice] delivery for this user
    appends its candidate to the queue, in arrival order. When the answer
    then sets the remote description, the queue is emptied and its
    candidates are added to the session in that order; a candidate whose
    [addIceCandidate] fails is skipped and the ones after it are still
    added. *)
Theorem queued_candidates_flush_in_order :
  forall (me : UserId) (s : State) (p : Peer)
         (deliveries : list (Host * SignalPayload))
         (h : Host) (answer : SignalPayload) (sdp : Sdp),
    currentUser s = Some me ->
    peerConnection s = Some p ->
    remoteDescription p = None ->
    Forall (fun d => for_someone_else (snd d) me = false) deliveries ->
    for_someone_else answer me = false ->
    sig_sdp answer = Some sdp ->
    setRemoteDescription h sdp = None ->
    let queued := steps (ice_deliveries deliveries) s in
    let flushed := step h (Broadcast webrtc_answer answer) queued in
    peerConnection queued = Some p
    /\ pendingRemoteCandidatesRef (media queued)
       = pendingRemoteCandidatesRef (media s) ++ candidates_of deliveries
    /\ peerConnection flushed
       = Some (peer_with_candidates
                 (filter (candidate_applies h)
                         (pendingRemoteCandidatesRef (media s)
                          ++ candidates_of deliveries))
                 (peer_with_remote sdp p))
    /\ pendingRemoteCandidatesRef (media flushed) = [].
Proof.
  intros me s p deliveries h answer sdp Hme Hpeer Hremote Hall Hto Hsdp Hok
         queued flushed.
  destruct (ice_run_is_queued me p deliveries Hremote Hall s Hme Hpeer)
    as (H1 & H2 & H3).
  fold queued in H1, H2, H3.
  destruct (answer_flushes_queue h me answer queued p sdp H1 H2 Hto Hsdp Hok)
    as (K1 & K2).
  fold flushed in K1, K2. rewrite H3 in K1. auto.
Qed.

Lemma queued_candidates_flush_in_order_witness :
  let queued := steps (ice_deliveries bobs_candidates) alice_offering in
  let flushed :=
    step picky_host
         (Broadcast webrtc_answer (signal 2 7 bob (Some alice) (Some "answer") None))
         queued in
  pendingRemoteCandidatesRef (media queued)
  = ["candidate-1"; "malformed"; "candidate-2"]
  /\ option_map addedCandidates (peerConnection flushed)
     = Some ["candidate-1"; "candidate-2"]
  /\ pendingRemoteCandidatesRef (media flushed) = [].
Proof.
  intros queued flushed.
  destruct (queued_candidates_flush_in_order
              alice alice_offering offering_peer bobs_candidates picky_host
              (signal 2 7 bob (Some alice) (Some "answer") None) "answer"
              eq_refl eq_refl eq_refl
              ltac:(repeat constructor) eq_refl eq_refl eq_refl)
    as (_ & Hq & Hp & He).
  split; [exact Hq|]. split; [|exact He].
  unfold flushed, queued. rewrite Hp. reflexivity.
Defined.

(** C6, as stated, fails before a session exists: Bob's candidate reaches
    Alice while his call still rings (no session, hence no remote
    description); it is neither queued nor applied once his offer has set
    the remote description. *)
Lemma candidate_before_session_is_dropped :
  let early :=
    step (host_at 1)
         (Broadcast webrtc_ice (signal 1 7 bob (Some alice) None (Some "candidate-1")))
         alice_ringing in
  let answered :=
    step (host_at 2)
         (Broadcast webrtc_offer (signal 1 7 bob (Some alice) (Some "offer") None))
         early in
  peerConnection alice_ringing = None
  /\ pendingRemoteCandidatesRef (media early) = []
  /\ option_map remoteDescription (peerConnection answered) = Some (Some "offer")
  /\ option_map addedCandidates (peerConnection answered) = Some []
  /\ pendingRemoteCandidatesRef (media answered) = [].
Proof. vm_compute. repeat split. Qed.

(** ** The message list *)

Module MessageSyncFacts.
Import MessageSync.

Lemma count_id_app (i : Z) (a b : list ChatMessage) :
  count_id i (a ++ b) = (count_id i a + count_id i b)%nat.
Proof. unfold count_id. now rewrite filter_app, length_app. Qed.

Lemma existsb_count (i : Z) (ms : list ChatMessage) :
  existsb (fun m => msg_id m =? i) ms = false <-> count_id i ms = 0%nat.
Proof.
  unfold count_id. induction ms as [|m ms IH]; cbn; [tauto|].
  destruct (msg_id m =? i); cbn; [split; discriminate | exact IH].
Qed.

(** Reconciling the placeholder renames exactly the entries that carry
    the placeholder id. *)
Lemma count_after_reconcile (fc : string -> string) (opt i : Z)
    (stamp : string) (ms : list ChatMessage) :
  i <> opt ->
  count_id i
    (map (fun m => if msg_id m =? opt then with_id m i (fc stamp) else m) ms)
  = (count_id i ms + count_id opt ms)%nat.
Proof.
  intros Hne. unfold count_id. induction ms as [|m ms IH]; [reflexivity|].
  cbn. destruct (msg_id m =? opt) eqn:E1.
  - apply Z.eqb_eq in E1. cbn. rewrite Z.eqb_refl.
    assert (E2 : (msg_id m =? i) = false) by (apply Z.eqb_neq; congruence).
    rewrite E2. cbn. rewrite IH. lia.
  - destruct (msg_id m =? i); cbn; rewrite IH; reflexivity.
Qed.

(** A feed insert never changes the number of entries with id [i] once
    there is one. *)
Lemma feed_keeps_single (fc : string -> string)
    (inserted : InsertedMessagePayload) (i : Z) (c : Chat) :
  count_id i (messages c) = 1%nat ->
  count_id i (messages (onMessageInsert fc inserted c)) = 1%nat.
Proof.
  intros Hone. unfold onMessageInsert.
  destruct (user c), (ins_id inserted) as [j|],
           (ins_conversation_id inserted) as [k|]; try exact Hone.
  destruct (conversation c) as [active|]; [|exact Hone].
  destruct (k =? active); [|exact Hone]. cbn [messages setMessages].
  destruct (existsb (fun m => msg_id m =? j) (messages c)) eqn:E;
    [exact Hone|].
  rewrite count_id_app, Hone. unfold count_id. cbn.
  destruct (j =? i) eqn:Eji; [|reflexivity].
  apply Z.eqb_eq in Eji. subst j.
  apply existsb_count in E. congruence.
Qed.

(** When the response is handled first, later feed deliveries (of this
    or of any other message) leave exactly one entry with the assigned
    id. *)
Lemma response_before_feed_single (fc : string -> string)
    (nowMs i : Z) (isoTime trimmed createdAt : string)
    (feeds : list InsertedMessagePayload) (c : Chat) (u : UserId) (conv : Z) :
  user c = Some u ->
  conversation c = Some conv ->
  truthy trimmed = true ->
  composerBusy c = false ->
  count_id i (messages c) = 0%nat ->
  count_id (- nowMs) (messages c) = 0%nat ->
  i <> - nowMs ->
  count_id i
    (messages
       (send_and_receive fc nowMs isoTime trimmed
          (Response (inr (Some i, createdAt)) :: map FeedInsert feeds) c))
  = 1%nat.
Proof.
  intros Hu Hconv Htrim Hbusy Hi Hopt Hne.
  unfold send_and_receive, sendMessage_submit.
  rewrite Hu, Hconv, Htrim, Hbusy. cbn [negb orb fold_left arrive].
  set (c1 := sendMessage_settle _ _ _ _).
  assert (H1 : count_id i (messages c1) = 1%nat).
  { subst c1. cbn [sendMessage_settle messages setMessages setComposerBusy
                     setChatError optimisticId].
    rewrite count_after_reconcile by exact Hne.
    rewrite !count_id_app, Hi, Hopt. unfold count_id. cbn.
    rewrite Z.eqb_refl.
    assert (E : (- nowMs =? i) = false) by (apply Z.eqb_neq; congruence).
    rewrite E. reflexivity. }
  clearbody c1. revert c1 H1.
  induction feeds as [|f feeds IH]; intros c1 H1; [exact H1|].
  cbn. apply IH. now apply feed_keeps_single.
Qed.

(** C4 at the failing interleaving. Alice sends "hello"; the realtime
    feed delivers the insert for id 42 before the insert request
    returns; the response then renames the placeholder to 42. The list
    holds two entries with id 42. *)
Theorem feed_before_response_duplicates :
  count_id 42
    (messages
       (send_and_receive (fun iso => iso) 1767261600000
          "2026-01-01T10:00:00Z" "hello"
          [FeedInsert hello_insert; Response hello_response] alice_chat))
  = 2%nat
  /\ count_id 42
       (messages
          (send_and_receive (fun iso => iso) 1767261600000
             "2026-01-01T10:00:00Z" "hello"
             [Response hello_response; FeedInsert hello_insert] alice_chat))
     = 1%nat.
Proof. split; reflexivity. Qed.

End MessageSyncFacts.

(** ** What the slots hold *)

Lemma well_formed_initial (h : Host) (me : UserId) (conv : option Z) :
  well_formed (initial h me conv).
Proof.
  intros u _. repeat split; discriminate.
Qed.


(** ** What a computation leaves untouched *)

Section Frame.

Context {X : Type} (f : State -> X).

Lemma keeps_ret {A} (a : A) : keeps f (ret a).
Proof. intros s. reflexivity. Qed.

Lemma keeps_throw {A} (e : Thrown) : keeps f (@throw A e).
Proof. intros s. reflexivity. Qed.

Lemma keeps_gets {A} (g : State -> A) : keeps f (gets g).
Proof. intros s. reflexivity. Qed.

Lemma keeps_modify (g : State -> State) :
  (forall s, f (g s) = f s) -> keeps f (modify g).
Proof. intros Hg s. apply Hg. Qed.

Lemma keeps_await {A} (r : Thrown + A) : keeps f (await r).
Proof. intros s. destruct r; reflexivity. Qed.

Lemma keeps_await_void (r : option Thrown) : keeps f (await_void r).
Proof. intros s. destruct r; reflexivity. Qed.

Lemma keeps_bind {A B} (m : M A) (k : A -> M B) :
  keeps f m -> (forall a, keeps f (k a)) -> keeps f (bind m k).
Proof.
  intros Hm Hk s. unfold bind. specialize (Hm s).
  destruct (m s) as [[a|e] s']; cbn in *.
  - now rewrite Hk.
  - exact Hm.
Qed.

Lemma keeps_try_catch {A} (m : M A) (handler : Thrown -> M A) :
  keeps f m -> (forall e, keeps f (handler e)) ->
keeps f (try_catch m handler).
Proof.
  intros Hm Hh s. unfold try_catch. specialize (Hm s).
  destruct (m s) as [[a|e] s']; cbn in *.
  - exact Hm.
  - now rewrite Hh.
Qed.

End Frame.


Create HintDb frames.

Ltac frame_step :=
  first
    [ apply keeps_ret | apply keeps_throw | apply keeps_gets
    | apply keeps_await | apply keeps_await_void
    | solve [auto with frames]
    | apply keeps_modify; intros ?;
      first [ reflexivity
            | unfold update_peer; break_match; reflexivity ]
    | apply keeps_bind; [|intros ?]
    | apply keeps_try_catch; [|intros ?]
    | match goal with
      | |- keeps _ (match ?x with _ => _ end) => destruct x
      end ].

Ltac frame := repeat frame_step.

Lemma resetCallMedia_keeps_slots : keeps slots_of resetCallMedia.
Proof. unfold resetCallMedia. frame. Qed.

Lemma ensureLocalStream_keeps (h : Host) :
  keeps slots_and_queue (ensureLocalStream h).
Proof. unfold ensureLocalStream, assertMediaContext. frame. Qed.

Lemma resolveIceServers_keeps (h : Host) :
  keeps slots_and_queue (resolveIceServers h).
Proof. unfold resolveIceServers, fetch_payload. frame. Qed.

Lemma createPeerConnection_keeps (h : Host) call stream me iceServers :
  keeps slots_and_queue (createPeerConnection h call stream me iceServers).
Proof. unfold createPeerConnection. frame. Qed.

Lemma peer_setLocalDescription_keeps (h : Host) (sdp : Sdp) :
  keeps slots_and_queue (peer_setLocalDescription h sdp).
Proof. unfold peer_setLocalDescription. frame. Qed.

Lemma peer_setRemoteDescription_keeps (h : Host) (sdp : Sdp) :
  keeps slots_and_queue (peer_setRemoteDescription h sdp).
Proof. unfold peer_setRemoteDescription. frame. Qed.

#[local] Hint Resolve resetCallMedia_keeps_slots ensureLocalStream_keeps
  resolveIceServers_keeps createPeerConnection_keeps
  peer_setLocalDescription_keeps peer_setRemoteDescription_keeps : frames.

Lemma startCallerHandshake_keeps (h : Host) (call : ActiveCall) (me : UserId) :
  keeps slots_and_queue (startCallerHandshake h call me).
Proof. unfold startCallerHandshake, sendCallSignal. frame. Qed.

Lemma keeps_slots_of_queue {A} (m : M A) :
  keeps slots_and_queue m -> keeps slots_of m.
Proof. intros H s. specialize (H s). unfold slots_and_queue in H. congruence. Qed.

Lemma add_queued_keeps_slots (h : Host) (queued : list Candidate) :
  keeps slots_of (add_queued h queued).
Proof.
  induction queued as [|c rest IH]; cbn [add_queued];
    unfold peer_addIceCandidate; frame.
Qed.

#[local] Hint Resolve add_queued_keeps_slots : frames.

Lemma flush_keeps_slots (h : Host) :
  keeps slots_of (flushPendingRemoteCandidates h).
Proof. unfold flushPendingRemoteCandidates. frame. Qed.

#[local] Hint Resolve flush_keeps_slots : frames.

Lemma ensureLocalStream_keeps_slots (h : Host) :
  keeps slots_of (ensureLocalStream h).
Proof. apply keeps_slots_of_queue, ensureLocalStream_keeps. Qed.

Lemma resolveIceServers_keeps_slots (h : Host) :
  keeps slots_of (resolveIceServers h).
Proof. apply keeps_slots_of_queue, resolveIceServers_keeps. Qed.

Lemma createPeerConnection_keeps_slots (h : Host) call stream me iceServers :
  keeps slots_of (createPeerConnection h call stream me iceServers).
Proof. apply keeps_slots_of_queue, createPeerConnection_keeps. Qed.

Lemma peer_setLocalDescription_keeps_slots (h : Host) (sdp : Sdp) :
  keeps slots_of (peer_setLocalDescription h sdp).
Proof. apply keeps_slots_of_queue, peer_setLocalDescription_keeps. Qed.

Lemma peer_setRemoteDescription_keeps_slots (h : Host) (sdp : Sdp) :
  keeps slots_of (peer_setRemoteDescription h sdp).
Proof. apply keeps_slots_of_queue, peer_setRemoteDescription_keeps. Qed.

Lemma startCallerHandshake_keeps_slots (h : Host) call me :
  keeps slots_of (startCallerHandshake h call me).
Proof. apply keeps_slots_of_queue, startCallerHandshake_keeps. Qed.

#[local] Hint Resolve ensureLocalStream_keeps_slots
  resolveIceServers_keeps_slots createPeerConnection_keeps_slots
  peer_setLocalDescription_keeps_slots peer_setRemoteDescription_keeps_slots
  startCallerHandshake_keeps_slots startCallerHandshake_keeps : frames.

Lemma answer_offer_keeps_slots (h : Host) me call sg sdp :
  keeps slots_of (answer_offer h me call sg sdp).
Proof. unfold answer_offer, sendCallSignal. frame. Qed.

#[local] Hint Resolve answer_offer_keeps_slots : frames.

(** ** Handlers and the slots *)

#[local] Arguments startCallerHandshake : simpl never.
#[local] Arguments resetCallMedia : simpl never.
#[local] Arguments after_reset : simpl never.
#[local] Arguments answer_offer : simpl never.
#[local] Arguments slots_of : simpl never.

Lemma resetCallMedia_total (s : State) :
  resetCallMedia s = (Ok tt, after_reset s).
Proof.
  unfold after_reset, run.
  pose proof (proj1 (resetCallMedia_tears_down s)) as H.
  destruct (resetCallMedia s) as [r s']. cbn in *. now subst r.
Qed.

Lemma slots_after_reset (s : State) : slots_of (after_reset s) = slots_of s.
Proof. apply resetCallMedia_keeps_slots. Qed.

Lemma slots_after_handshake (h : Host) call me (s : State) :
  slots_of (snd (startCallerHandshake h call me s)) = slots_of s.
Proof. apply startCallerHandshake_keeps_slots. Qed.

Lemma slots_after_answer_offer (h : Host) me call sg sdp (s : State) :
  slots_of (snd (answer_offer h me call sg sdp s)) = slots_of s.
Proof. apply answer_offer_keeps_slots. Qed.

Lemma slots_commit (h : Host) (a b : State) :
  slots_of (commit h a b) = slots_of b.
Proof.
  unfold slots_of. now rewrite currentUser_commit, view_commit.
Qed.

Lemma on_webrtc_answer_keeps_slots (h : Host) me sg :
  keeps slots_of (on_webrtc_answer h me sg).
Proof. unfold on_webrtc_answer. frame. Qed.

Lemma on_webrtc_ice_keeps_slots (h : Host) me sg :
  keeps slots_of (on_webrtc_ice h me sg).
Proof. unfold on_webrtc_ice, peer_addIceCandidate. frame. Qed.

Lemma peer_callbacks_keep_slots (h : Host) :
  (forall c, keeps slots_of (onicecandidate c))
  /\ (forall st, keeps slots_of (onconnectionstatechange st))
  /\ (forall st, keeps slots_of (oniceconnectionstatechange st))
  /\ (forall str, keeps slots_of (ontrack str))
  /\ keeps slots_of (onConnectingTimeout h).
Proof.
  repeat split; intros;
    unfold onicecandidate, onconnectionstatechange,
      oniceconnectionstatechange, ontrack, onConnectingTimeout,
      sendCallSignal;
    frame.
Qed.

(** Case analysis on the branches of a handler; the handshakes and the
    teardown stay folded. *)
Ltac handler_cases :=
  monad_simpl; cbn;
  repeat (first [rewrite resetCallMedia_total | break_match];
          monad_simpl; cbn).

Lemma slots_of_inv (a b : State) :
  slots_of a = slots_of b ->
  currentUser a = currentUser b
  /\ activeCall (view a) = activeCall (view b)
  /\ incomingCall (view a) = incomingCall (view b)
  /\ pendingOutgoingCall (view a) = pendingOutgoingCall (view b).
Proof. unfold slots_of. intros H. injection H. auto. Qed.

Ltac use_frame E :=
  let E1 := fresh in
  let E2 := fresh in
  let E3 := fresh in
  let E4 := fresh in
  destruct (slots_of_inv _ _ E) as (E1 & E2 & E3 & E4);
  rewrite ?E1, ?E2, ?E3, ?E4; clear E1 E2 E3 E4.

(** Brings the slots of a handler's final state back to those of its
    initial state. *)
Ltac slots_norm :=
  unfold slots_of; cbn;
  repeat match goal with
         | |- context [after_reset ?s] =>
             progress use_frame (slots_after_reset s)
         | |- context [snd (startCallerHandshake ?h ?c ?u ?s)] =>
             progress use_frame (slots_after_handshake h c u s)
         | |- context [snd (answer_offer ?h ?u ?c ?g ?d ?s)] =>
             progress use_frame (slots_after_answer_offer h u c g d s)
         end;
  cbn.

Ltac slot_facts :=
  repeat match goal with
         | H : Some _ = Some _ |- _ => injection H as H; subst
         | H : None = Some _ |- _ => discriminate H
         | H : Some _ = None |- _ => discriminate H
         | H : _ /\ _ |- _ => destruct H
         end.






(** ** Well-formed slots are kept by every event *)

Ltac solve_well_formed :=
  let Hwf := fresh "Hwf" in
  let u := fresh "u" in
  let Hu := fresh "Hu" in
  unfold well_formed, well_formed_slots, slots_of; intros Hwf u Hu;
  cbn in *;
  specialize (Hwf u Hu); destruct Hwf as (? & ? & ?);
  repeat split; intros; slot_facts; cbn in *;
  try match goal with
      | H1 : ?x = Some ?a, H2 : ?x = Some ?b |- _ =>
          assert (a = b) by congruence; subst
      end;
  first [ reflexivity | assumption | congruence | apply String.eqb_refl
        | match goal with H : forall c, _ = Some c -> _ |- _ =>
            solve [eapply H; eauto | apply (proj1 (H _ eq_refl))
                  | apply (proj2 (H _ eq_refl))] end ].

Lemma well_formed_keeps {A} (m : M A) (s : State) :
  keeps slots_of m -> well_formed s -> well_formed (snd (m s)).
Proof. unfold well_formed. intros Hk. now rewrite Hk. Qed.

Lemma handleCallChange_well_formed (h : Host) me raw (s : State) :
  currentUser s = Some me ->
  well_formed s -> well_formed (run (handleCallChange h me raw) s).
Proof.
  intros Hme. unfold handleCallChange, normalizeCall.
  unfold well_formed at 2.
  handler_cases; slots_norm; solve_well_formed.
Qed.

Lemma on_broadcast_well_formed (h : Host) me event sg (s : State) :
  currentUser s = Some me ->
  well_formed s -> well_formed (run (on_broadcast h me event sg) s).
Proof.
  intros Hme. destruct event; unfold on_broadcast.
  - unfold on_call_accepted, matching, well_formed at 2.
    handler_cases; slots_norm; solve_well_formed.
  - unfold on_webrtc_offer, offer_call, matching, well_formed at 2.
    handler_cases; slots_norm; solve_well_formed.
  - apply well_formed_keeps, on_webrtc_answer_keeps_slots.
  - apply well_formed_keeps, on_webrtc_ice_keeps_slots.
  - unfold on_call_ended, well_formed at 2.
    handler_cases; slots_norm; solve_well_formed.
Qed.

Lemma requestCall_well_formed (h : Host) (s : State) :
  well_formed s -> well_formed (run (requestCall h) s).
Proof.
  unfold requestCall, assertMediaContext, normalizeCall, inserted_row,
    well_formed at 2.
  handler_cases; slots_norm; solve_well_formed.
Qed.

Lemma acceptIncomingCall_well_formed (h : Host) (s : State) :
  well_formed s -> well_formed (run (acceptIncomingCall h) s).
Proof.
  unfold acceptIncomingCall, well_formed at 2.
  handler_cases; slots_norm; solve_well_formed.
Qed.

Lemma rejectIncomingCall_well_formed (h : Host) (s : State) :
  well_formed s -> well_formed (run (rejectIncomingCall h) s).
Proof.
  unfold rejectIncomingCall, well_formed at 2.
  handler_cases; slots_norm; solve_well_formed.
Qed.

Lemma endCall_well_formed (h : Host) (s : State) :
  well_formed s -> well_formed (run (endCall h) s).
Proof.
  unfold endCall, call_to_end, first_call, well_formed at 2.
  handler_cases; slots_norm; solve_well_formed.
Qed.

Lemma headerCallButton_well_formed (h : Host) (s : State) :
  well_formed s -> well_formed (run (headerCallButton h) s).
Proof.
  intros Hwf. unfold headerCallButton. monad_simpl.
  destruct (activeConversationId s); [|exact Hwf].
  destruct (callStatus (view s)), (callForActiveConversation s);
    first [ exact Hwf
          | now apply endCall_well_formed
          | now apply requestCall_well_formed ].
Qed.

(** Every event keeps the slots well formed. *)
Lemma well_formed_step (h : Host) (ev : Event) (s : State) :
  well_formed s -> well_formed (step h ev s).
Proof.
  intros Hwf. unfold step, well_formed. rewrite slots_commit.
  fold (well_formed (run (handle h ev) s)).
  destruct (peer_callbacks_keep_slots h) as (K1 & K2 & K3 & K4 & K5).
  destruct ev; unfold handle, signed_in.
  - monad_simpl. destruct (currentUser s) eqn:Hu; [|exact Hwf].
    now apply handleCallChange_well_formed.
  - monad_simpl. destruct (currentUser s) eqn:Hu; [|exact Hwf].
    now apply on_broadcast_well_formed.
  - now apply well_formed_keeps.
  - now apply well_formed_keeps.
  - now apply well_formed_keeps.
  - now apply well_formed_keeps.
  - now apply well_formed_keeps.
  - now apply headerCallButton_well_formed.
  - now apply requestCall_well_formed.
  - now apply acceptIncomingCall_well_formed.
  - now apply rejectIncomingCall_well_formed.
  - now apply endCall_well_formed.
Qed.

Lemma well_formed_steps (trace : list (Host * Event)) (s : State) :
  well_formed s -> well_formed (steps trace s).
Proof.
  revert s. induction trace as [|[h ev] rest IH]; intros s Hwf; [exact Hwf|].
  cbn. apply IH. now apply well_formed_step.
Qed.

(** ** Status updates sent to the database *)











(** ** The caller handshake *)

Lemma handshake_outcome (h : Host) (call : ActiveCall) (me : UserId)
    (s : State) :
  truthy_opt (ac_acceptedBy call) = true ->
  peerConnection s = None ->
  let s' := snd (startCallerHandshake h call me s) in
  handshake_blocked h (localStream (media s'))
  = handshake_blocked h (localStream (media s))
  /\ if handshake_blocked h (localStream (media s))
     then peerConnection s' = None /\ callStatus (view s') = error
     else is_some (peerConnection s') = true.
Proof.
  intros Hacc Hpeer.
  unfold startCallerHandshake, handshake_guard, ensureLocalStream,
    assertMediaContext, resolveIceServers, fetch_payload,
    createPeerConnection, peer_setLocalDescription, update_peer,
    handshake_blocked.
  rewrite Hacc.
  destruct s as [u conv w r [peer q g ls rs muted] i e].
  unfold peerConnection in *. cbn in Hpeer. subst peer.
  destruct (isSecureContext h), (hasGetUserMedia h), ls,
    (getUserMedia h), (newPeerConnection h);
    crunch; auto.
Qed.

(** ** Delivering an event twice *)

Lemma observe_commit (h : Host) (a b : State) :
  observe (commit h a b) = observe b.
Proof.
  unfold observe. now rewrite view_commit, peerConnection_commit, media_commit.
Qed.

Lemma synced_commit (h : Host) (a b : State) : synced (commit h a b).
Proof.
  unfold commit, connecting_effect, synced.
  destruct (CallStatus_eqb _ _); [cbn; auto|].
  destruct (callStatus (view (sync_refs b))); cbn; auto.
Qed.

Lemma synced_step (h : Host) (ev : Event) (s : State) : synced (step h ev s).
Proof. apply synced_commit. Qed.

Lemma slots_and_queue_inv (a b : State) :
  slots_and_queue a = slots_and_queue b ->
  currentUser a = currentUser b
  /\ activeCall (view a) = activeCall (view b)
  /\ incomingCall (view a) = incomingCall (view b)
  /\ pendingOutgoingCall (view a) = pendingOutgoingCall (view b)
  /\ pendingRemoteCandidatesRef (media a) = pendingRemoteCandidatesRef (media b).
Proof.
  unfold slots_and_queue, slots_of. intros H. injection H. auto 10.
Qed.

Lemma refs_commit (h : Host) (a b : State) :
  refs (commit h a b) = refs (sync_refs b).
Proof.
  unfold commit, connecting_effect.
  destruct (CallStatus_eqb _ _); [reflexivity|].
  destruct (callStatus (view (sync_refs b))); reflexivity.
Qed.

Lemma view_after_reset (s : State) : view (after_reset s) = view s.
Proof.
  unfold after_reset, resetCallMedia. monad_simpl.
  destruct s as [u conv w r [peer q g ls rs muted] i e].
  destruct peer, ls, rs; reflexivity.
Qed.

Lemma currentUser_after_reset (s : State) :
  currentUser (after_reset s) = currentUser s.
Proof.
  unfold after_reset, resetCallMedia. monad_simpl.
  destruct s as [u conv w r [peer q g ls rs muted] i e].
  destruct peer, ls, rs; reflexivity.
Qed.

Lemma peer_after_reset (s : State) :
  peerConnectionRef (media (after_reset s)) = None.
Proof. apply (proj2 (resetCallMedia_tears_down s)). Qed.

Lemma queue_after_reset (s : State) :
  pendingRemoteCandidatesRef (media (after_reset s)) = [].
Proof. apply (proj2 (resetCallMedia_tears_down s)). Qed.

Lemma after_reset_twice (s : State) :
  media (after_reset (after_reset s)) = media (after_reset s).
Proof. unfold after_reset. now rewrite resetCallMedia_twice. Qed.

#[local] Arguments commit : simpl never.

Create Rewrite HintDb renders.
#[local] Hint Rewrite view_commit media_commit currentUser_commit refs_commit
  view_after_reset currentUser_after_reset peer_after_reset queue_after_reset
  : renders.

Ltac render := cbn; autorewrite with renders; cbn.

Lemma isRelated_after_render (h : Host) (a s : State) (i : Z) :
  synced s -> isRelated i (commit h a s) = isRelated i s.
Proof.
  intros (H1 & H2 & H3). unfold isRelated, ref_id.
  rewrite refs_commit. cbn. now rewrite H1, H2, H3.
Qed.

Lemma isRelated_cleared (h : Host) (a b : State) (i : Z) :
  activeCall (view b) = None ->
  incomingCall (view b) = None ->
  pendingOutgoingCall (view b) = None ->
  isRelated i (commit h a b) = false.
Proof.
  intros H1 H2 H3. unfold isRelated, ref_id.
  rewrite refs_commit. cbn. now rewrite H1, H2, H3.
Qed.

(** A terminal notification, or [call-ended]: the teardown with the slots
    cleared, [E] standing for the optional "declined" message. *)
Lemma terminal_twice (h : Host) (s : State) (i : Z) (E : State -> State) :
  (forall t, media (E t) = media t) ->
  (forall t, slots_of (E t) = slots_of t) ->
  synced s ->
  let G t :=
    if isRelated i t
    then setCallStatus idle
           (E (setPendingOutgoingCall None
                 (setIncomingCall None (setActiveCall None (after_reset t)))))
    else t in
  observe (G (commit h s (G s))) = observe (G s).
Proof.
  intros HE1 HE2 Hs G. subst G. cbv beta.
  destruct (isRelated i s) eqn:Hrel.
  - rewrite isRelated_cleared.
    + apply observe_commit.
    + cbn. now destruct (slots_of_inv _ _ (HE2 (setPendingOutgoingCall None
             (setIncomingCall None (setActiveCall None (after_reset s)))))) as (_ & -> & _).
    + cbn. now destruct (slots_of_inv _ _ (HE2 (setPendingOutgoingCall None
             (setIncomingCall None (setActiveCall None (after_reset s)))))) as (_ & _ & -> & _).
    + cbn. now destruct (slots_of_inv _ _ (HE2 (setPendingOutgoingCall None
             (setIncomingCall None (setActiveCall None (after_reset s)))))) as (_ & _ & _ & ->).
  - rewrite isRelated_after_render, Hrel by exact Hs. apply observe_commit.
Qed.

Lemma handshake_frame (h : Host) call me (s : State) :
  let s' := snd (startCallerHandshake h call me s) in
  activeCall (view s') = activeCall (view s)
  /\ incomingCall (view s') = incomingCall (view s)
  /\ pendingOutgoingCall (view s') = pendingOutgoingCall (view s)
  /\ pendingRemoteCandidatesRef (media s') = pendingRemoteCandidatesRef (media s).
Proof.
  destruct (slots_and_queue_inv _ _ (startCallerHandshake_keeps h call me s))
    as (_ & H1 & H2 & H3 & H4).
  auto.
Qed.

(** The notification "accepted" at the requester's: the slots are set
    and, without a session, the caller handshake runs. *)
Lemma accepted_twice (h : Host) (s : State) call me conv :
  truthy_opt (ac_acceptedBy call) = true ->
  let F t :=
    setActiveCall (Some call)
      (setCallError None
         (setPendingOutgoingCall None (setActiveConversationId conv t))) in
  let G t :=
    match peerConnection (F t) with
    | None => snd (startCallerHandshake h call me (F t))
    | Some _ => F t
    end in
  observe (G (commit h s (G s))) = observe (G s).
Proof.
  intros Hacc F G. subst G. cbv beta.
  assert (HF : forall t, peerConnection (F t) = peerConnection t)
    by reflexivity.
  rewrite !HF.
  destruct (peerConnection s) as [p|] eqn:Hp.
  - rewrite peerConnection_commit, HF, Hp.
    subst F. unfold observe, peerConnection in *. render. reflexivity.
  - destruct (handshake_outcome h call me (F s) Hacc) as (Hstable & Hout);
      [now rewrite HF|].
    destruct (handshake_frame h call me (F s)) as (A1 & A2 & A3 & A4).
    set (X := snd (startCallerHandshake h call me (F s))) in *.
    rewrite peerConnection_commit.
    destruct (handshake_blocked h (localStream (media (F s)))) eqn:Hb.
    + destruct Hout as (Hnone & Herr). rewrite Hnone.
      destruct (handshake_outcome h call me (F (commit h s X)) Hacc)
        as (_ & Hout2);
        [now rewrite HF, peerConnection_commit|].
      destruct (handshake_frame h call me (F (commit h s X)))
        as (B1 & B2 & B3 & B4).
      replace (localStream (media (F (commit h s X))))
        with (localStream (media X)) in Hout2
        by (subst F; render; reflexivity).
      rewrite Hstable in Hout2. destruct Hout2 as (Hnone2 & Herr2).
      unfold observe. rewrite Hnone2, Herr2, Hnone, Herr, B1, B2, B3, B4,
        A1, A2, A3, A4.
      subst F. render. now rewrite A2, A4.
    + destruct (peerConnection X) as [p|] eqn:HpX; [|discriminate Hout].
      unfold observe. rewrite HF, peerConnection_commit, HpX, A1, A2, A3, A4.
      subst F. render. now rewrite A2, A4.
Qed.

(** Rewrites both runs of a handler to the state function [G]. *)
Ltac as_function G :=
  match goal with
  | |- observe (run ?m _) = _ =>
      let HG := fresh "HG" in
      assert (HG : forall t, run m t = G t);
      [ intros t;
        repeat match goal with f := _ |- _ => subst f end;
        unfold run; monad_simpl; cbn [Status_eqb andb];
        repeat (first [rewrite resetCallMedia_total | break_match];
                monad_simpl; cbn [Status_eqb andb]);
        reflexivity
      | rewrite !HG; clear HG ]
  end.

Lemma handleCallChange_twice (h : Host) me raw (s : State) :
  synced s ->
  observe (run (handleCallChange h me raw)
               (commit h s (run (handleCallChange h me raw) s)))
  = observe (run (handleCallChange h me raw) s).
Proof.
  intros Hs. unfold handleCallChange.
  destruct (normalizeCall raw) as [call|]; [|apply observe_commit].
  pose (terminal E t :=
          if isRelated (ac_id call) t
          then setCallStatus idle
                 (E (setPendingOutgoingCall None
                       (setIncomingCall None
                          (setActiveCall None (after_reset t)))))
          else t).
  destruct (ac_status call) eqn:Hst.
  - (* pending *)
    destruct (String.eqb (ac_requesterId call) me).
    + unfold observe, peerConnection. monad_simpl. render. reflexivity.
    + unfold observe, peerConnection. monad_simpl. render.
      destruct (callStatus (view s)); reflexivity.
  - (* accepted *)
    destruct (String.eqb (ac_requesterId call) me
              && truthy_opt (ac_acceptedBy call))%bool eqn:Hmine.
    + apply andb_true_iff in Hmine. destruct Hmine as (_ & Hacc).
      pose (F t :=
              setActiveCall (Some call)
                (setCallError None
                   (setPendingOutgoingCall None
                      (setActiveConversationId
                         (Some (ac_conversationId call)) t)))).
      as_function (fun t => match peerConnection (F t) with
                            | None => snd (startCallerHandshake h call me (F t))
                            | Some _ => F t
                            end).
      exact (accepted_twice h s call me (Some (ac_conversationId call)) Hacc).
    + destruct (is_user (ac_acceptedBy call) me).
      * unfold observe, peerConnection. monad_simpl. render. reflexivity.
      * unfold observe, peerConnection. monad_simpl. render. reflexivity.
  - (* rejected *)
    destruct (String.eqb (ac_requesterId call) me).
    + as_function (terminal (setCallError (Some "Call was declined."))).
      exact (terminal_twice h s (ac_id call)
               (setCallError (Some "Call was declined."))
               (fun _ => eq_refl) (fun _ => eq_refl) Hs).
    + as_function (terminal (fun t => t)).
      exact (terminal_twice h s (ac_id call) (fun t => t)
               (fun _ => eq_refl) (fun _ => eq_refl) Hs).
  - (* ended *)
    as_function (terminal (fun t => t)).
    exact (terminal_twice h s (ac_id call) (fun t => t)
             (fun _ => eq_refl) (fun _ => eq_refl) Hs).
  - (* cancelled *)
    as_function (terminal (fun t => t)).
    exact (terminal_twice h s (ac_id call) (fun t => t)
             (fun _ => eq_refl) (fun _ => eq_refl) Hs).
Qed.

Lemma add_queued_keeps_user (h : Host) (queued : list Candidate) :
  keeps currentUser (add_queued h queued).
Proof.
  induction queued as [|c rest IH]; cbn [add_queued];
    unfold peer_addIceCandidate; frame.
Qed.

Lemma add_queued_keeps_view (h : Host) (queued : list Candidate) :
  keeps view (add_queued h queued).
Proof.
  induction queued as [|c rest IH]; cbn [add_queued];
    unfold peer_addIceCandidate; frame.
Qed.

#[local] Hint Resolve add_queued_keeps_user add_queued_keeps_view : frames.

Lemma handle_keeps_user (h : Host) (ev : Event) :
  keeps currentUser (handle h ev).
Proof.
  destruct ev as [raw|event sg| | | | | | | | | | ];
    [ | destruct event | .. ];
    unfold handle, signed_in, on_broadcast, handleCallChange,
      on_call_accepted, on_webrtc_offer, offer_call, answer_offer,
      on_webrtc_answer, on_webrtc_ice, on_call_ended, onicecandidate,
      onconnectionstatechange, oniceconnectionstatechange, ontrack,
      onConnectingTimeout, headerCallButton, requestCall,
      acceptIncomingCall, rejectIncomingCall, endCall, fail_call,
      startCallerHandshake, resetCallMedia, ensureLocalStream,
      assertMediaContext, resolveIceServers, fetch_payload,
      createPeerConnection, peer_setLocalDescription,
      peer_setRemoteDescription, peer_addIceCandidate,
      flushPendingRemoteCandidates, sendCallSignal;
    frame.
Qed.

Lemma on_webrtc_answer_keeps_view (h : Host) me sg :
  keeps view (on_webrtc_answer h me sg).
Proof.
  unfold on_webrtc_answer, peer_setRemoteDescription,
    flushPendingRemoteCandidates.
  frame.
Qed.

(** The state-changing case of [webrtc-answer]. *)
Lemma answer_run (h : Host) me sg (t : State) (p : Peer) (sdp : Sdp) :
  for_someone_else sg me = false ->
  sig_sdp sg = Some sdp ->
  setRemoteDescription h sdp = None ->
  peerConnection t = Some p ->
  let t' := run (on_webrtc_answer h me sg) t in
  peerConnection t'
  = Some (peer_with_candidates
            (filter (candidate_applies h) (pendingRemoteCandidatesRef (media t)))
            (peer_with_remote sdp p))
  /\ pendingRemoteCandidatesRef (media t') = [].
Proof.
  intros Hto Hsdp Hok Hpeer t'. subst t'.
  unfold on_webrtc_answer, peer_setRemoteDescription.
  monad_simpl. rewrite Hto, Hsdp, Hpeer, Hok. monad_simpl.
  destruct (flush_applies_in_order h (update_peer (peer_with_remote sdp) t)
              (peer_with_remote sdp p) sdp) as (_ & H2 & H3).
  - unfold update_peer. now rewrite Hpeer.
  - reflexivity.
  - replace (pendingRemoteCandidatesRef
               (media (update_peer (peer_with_remote sdp) t)))
      with (pendingRemoteCandidatesRef (media t)) in H2
      by (unfold update_peer; now rewrite Hpeer).
    split; [exact H2 | exact H3].
Qed.

(** The cases in which [webrtc-answer] changes nothing. *)
Lemma answer_ignored (h : Host) me sg (t : State) :
  for_someone_else sg me = true
  \/ sig_sdp sg = None
  \/ peerConnection t = None
  \/ (exists sdp e, sig_sdp sg = Some sdp /\ setRemoteDescription h sdp = Some e) ->
  run (on_webrtc_answer h me sg) t = t.
Proof.
  intros Hcase. unfold on_webrtc_answer, peer_setRemoteDescription.
  monad_simpl.
  destruct (for_someone_else sg me); [reflexivity|].
  destruct (sig_sdp sg) as [sdp|] eqn:Hsdp; [|reflexivity].
  destruct (peerConnection t) eqn:Hp; [|reflexivity].
  destruct (setRemoteDescription h sdp) eqn:Hr; [reflexivity|].
  destruct Hcase as [H|[H|[H|(x & e & H1 & H2)]]]; try discriminate.
  injection H1 as <-. congruence.
Qed.

Lemma answer_twice (h : Host) me sg (s : State) :
  observe (run (on_webrtc_answer h me sg)
               (commit h s (run (on_webrtc_answer h me sg) s)))
  = observe (run (on_webrtc_answer h me sg) s).
Proof.
  destruct (for_someone_else sg me) eqn:Hto;
    [rewrite !answer_ignored by auto; apply observe_commit|].
  destruct (sig_sdp sg) as [sdp|] eqn:Hsdp;
    [|rewrite !answer_ignored by auto; apply observe_commit].
  destruct (setRemoteDescription h sdp) as [e|] eqn:Hok;
    [rewrite !answer_ignored by eauto 10; apply observe_commit|].
  destruct (peerConnection s) as [p|] eqn:Hp.
  - destruct (answer_run h me sg s p sdp Hto Hsdp Hok Hp) as (H1 & H2).
    set (X := run (on_webrtc_answer h me sg) s) in *.
    destruct (answer_run h me sg (commit h s X) _ sdp Hto Hsdp Hok
                (eq_trans (peerConnection_commit h s X) H1)) as (K1 & K2).
    unfold observe. rewrite K1, K2, H1, H2.
    unfold run. rewrite !on_webrtc_answer_keeps_view, view_commit.
    fold (run (on_webrtc_answer h me sg) s). fold X.
    rewrite media_commit, H2. cbn [filter].
    unfold peer_with_candidates, peer_with_remote. cbn.
    now rewrite app_nil_r.
  - rewrite (answer_ignored h me sg s) by auto.
    rewrite answer_ignored by (rewrite peerConnection_commit; auto).
    apply observe_commit.
Qed.

Lemma call_accepted_twice (h : Host) me sg (s : State) :
  synced s ->
  observe (run (on_call_accepted h me sg)
               (commit h s (run (on_call_accepted h me sg) s)))
  = observe (run (on_call_accepted h me sg) s).
Proof.
  intros (_ & _ & Hout). unfold on_call_accepted.
  destruct (for_someone_else sg me); [apply observe_commit|].
  monad_simpl.
  destruct (matching (pendingOutgoingCallRef (refs s)) (sig_callId sg))
    as [pc|] eqn:Hm.
  - monad_simpl. rewrite refs_commit. cbn.
    match goal with
    | |- context [pendingOutgoingCall
                    (view (snd (startCallerHandshake h ?c me ?t)))] =>
        destruct (handshake_frame h c me t) as (_ & _ & A3 & _)
    end.
    rewrite A3. cbn. apply observe_commit.
  - rewrite refs_commit. cbn.
    rewrite <- Hout, Hm. apply observe_commit.
Qed.

Lemma call_ended_twice (h : Host) sg (s : State) :
  synced s ->
  observe (run (on_call_ended sg) (commit h s (run (on_call_ended sg) s)))
  = observe (run (on_call_ended sg) s).
Proof.
  intros Hs. unfold on_call_ended.
  as_function (fun t =>
                 if isRelated (sig_callId sg) t
                 then setCallStatus idle
                        (setPendingOutgoingCall None
                           (setIncomingCall None
                              (setActiveCall None (after_reset t))))
                 else t).
  exact (terminal_twice h s (sig_callId sg) (fun t => t)
           (fun _ => eq_refl) (fun _ => eq_refl) Hs).
Qed.

Lemma handle_signed_out (h : Host) (ev : Event) (t : State) :
  replay_safe ev = true -> currentUser t = None -> run (handle h ev) t = t.
Proof.
  intros Hev Hu. destruct ev as [raw|event sg| | | | | | | | | | ];
    try discriminate; unfold handle, signed_in; monad_simpl; now rewrite Hu.
Qed.

(** ** Waits that settle at once *)

Lemma complete_and_then {A B} (h : Host) (p : Async.Progress A)
    (k : A -> Async.Task B) :
  Async.complete h (Async.and_then p k h)
  = match Async.complete h p with
    | (Ok a, s) => Async.complete h (k a h s)
    | (Raise e, s) => (Raise e, s)
    end.
Proof. induction p as [[a|e] s|s resume IH]; cbn; auto. Qed.

Lemma complete_or_else {A} (h : Host) (p : Async.Progress A)
    (handler : Thrown -> Async.Task A) :
  Async.complete h (Async.or_else p handler h)
  = match Async.complete h p with
    | (Ok a, s) => (Ok a, s)
    | (Raise e, s) => Async.complete h (handler e h s)
    end.
Proof. induction p as [[a|e] s|s resume IH]; cbn; auto. Qed.

Section Settles.

Context (h : Host).

Lemma settles_bind {A B} (t : Async.Task A) (k : A -> Async.Task B)
    (m : M A) (f : A -> M B) :
  settles_as h t m ->
  (forall a, settles_as h (k a) (f a)) ->
  settles_as h (Async.bind t k) (bind m f).
Proof.
  intros Ht Hk s. unfold Async.bind, bind.
  rewrite complete_and_then, Ht.
  destruct (m s) as [[a|e] s']; [apply Hk | reflexivity].
Qed.

Lemma settles_attempt {A} (t : Async.Task A) (handler : Thrown -> Async.Task A)
    (m : M A) (f : Thrown -> M A) :
  settles_as h t m ->
  (forall e, settles_as h (handler e) (f e)) ->
  settles_as h (Async.attempt t handler) (try_catch m f).
Proof.
  intros Ht Hk s. unfold Async.attempt, try_catch.
  rewrite complete_or_else, Ht.
  destruct (m s) as [[a|e] s']; [reflexivity | apply Hk].
Qed.

Lemma settles_lift_host {A} (m : Host -> M A) :
  settles_as h (Async.lift_host m) (m h).
Proof. intros s. unfold Async.lift_host. now destruct (m h s). Qed.

Lemma settles_lift {A} (m : M A) : settles_as h (Async.lift m) m.
Proof. apply (settles_lift_host (fun _ => m)). Qed.

Lemma settles_done {A} (a : A) : settles_as h (Async.done a) (ret a).
Proof. intros s. reflexivity. Qed.

Lemma settles_raise {A} (e : Thrown) : settles_as h (@Async.raise A e) (throw e).
Proof. intros s. reflexivity. Qed.

Lemma settles_ask {A} (k : Host -> Async.Task A) (m : M A) :
  settles_as h (k h) m -> settles_as h (Async.bind Async.ask k) m.
Proof. intros Hk s. apply Hk. Qed.

Lemma settles_wait {A} (answer : Host -> Thrown + A) :
  settles_as h (Async.wait answer) (await (answer h)).
Proof. intros s. cbn. now destruct (answer h). Qed.

Lemma settles_wait_void (answer : Host -> option Thrown) :
  settles_as h (Async.wait_void answer) (await_void (answer h)).
Proof. intros s. cbn. now destruct (answer h). Qed.

Lemma settles_wait_value {A} (answer : Host -> A) :
  settles_as h (Async.wait_value answer) (ret (answer h)).
Proof. intros s. reflexivity. Qed.

Lemma settles_answer {A B} (answer : Host -> A) (k : A -> Async.Task B)
    (m : M B) :
  settles_as h (k (answer h)) m ->
  settles_as h (Async.bind (Async.wait_value answer) k) m.
Proof. intros Hk s. apply Hk. Qed.

Lemma settles_same {A} (t : Async.Task A) (m m' : M A) :
  settles_as h t m -> (forall s, m s = m' s) -> settles_as h t m'.
Proof. intros Ht Hm s. now rewrite Ht. Qed.

End Settles.

Create HintDb settled.

#[local] Hint Resolve settles_lift_host settles_lift settles_done settles_raise
  settles_wait settles_wait_void settles_wait_value : settled.

(** Follows the structure the task and the computation share. *)
Ltac settle_step :=
  first
    [ solve [auto with settled]
    | match goal with
      | |- settles_as ?h (Async.lift_host ?m) _ => exact (settles_lift_host h m)
      end
    | apply settles_answer
    | apply settles_bind; [|intros ?]
    | apply settles_attempt; [|intros ?]
    | match goal with
      | |- settles_as _ (match ?x with _ => _ end) _ => destruct x
      | |- settles_as _ (if ?x then _ else _) _ => destruct x
      end ].

Ltac settle := repeat settle_step.

Lemma ensureLocalStream_settles (h : Host) :
  settles_as h Async.ensureLocalStream (ensureLocalStream h).
Proof. unfold Async.ensureLocalStream, ensureLocalStream. settle. Qed.

Lemma fetch_payload_settles (h : Host) :
  settles_as h Async.fetch_payload (fetch_payload h).
Proof.
  unfold Async.fetch_payload, fetch_payload.
  apply settles_bind; [apply settles_lift | intros _].
  apply (settles_same h _
           (outcome <- ret (iceFetch h) ;;
            match outcome with
            | FetchRejects => throw OtherValue
            | FetchResponse false _ =>
                throw (ErrorObject "TURN endpoint request failed.")
            | FetchResponse true None => throw OtherValue
            | FetchResponse true (Some data) => ret data
            end)).
  - settle.
  - intros s. reflexivity.
Qed.

#[local] Hint Resolve ensureLocalStream_settles fetch_payload_settles : settled.

Lemma resolveIceServers_settles (h : Host) :
  settles_as h Async.resolveIceServers (resolveIceServers h).
Proof.
  unfold Async.resolveIceServers, resolveIceServers.
  apply settles_ask. settle.
Qed.

#[local] Hint Resolve resolveIceServers_settles : settled.

(** The connection [createPeerConnection] returns is the one it leaves in
    [peerConnectionRef]. *)
Lemma createPeerConnection_settles (h : Host) call stream me iceServers :
  settles_as h (Async.createPeerConnection call stream me iceServers)
    (createPeerConnection h call stream me iceServers ;;
     held <- gets peerConnection ;;
     match held with
     | Some peer => ret peer
     | None => throw OtherValue
     end).
Proof.
  intros s. unfold Async.createPeerConnection, createPeerConnection.
  unfold Async.lift_host, peerConnection. monad_simpl.
  destruct (peerConnectionRef (media s)), (newPeerConnection h); reflexivity.
Qed.

Lemma update_peer_of_held (peer : Peer) (f : Peer -> Peer) (s : State) :
  peerConnection s = Some peer ->
  Async.update_peer_of peer f s = update_peer f s.
Proof.
  intros H. unfold Async.update_peer_of, update_peer.
  now rewrite H, Nat.eqb_refl.
Qed.

Lemma bind_same {A B} (m : M A) (k k' : A -> M B) (s : State) :
  (forall a t, k a t = k' a t) -> bind m k s = bind m k' s.
Proof. intros H. unfold bind. destruct (m s) as [[a|e] t]; auto. Qed.

Lemma bind_unit (m : M unit) (s : State) :
  bind m (fun _ => ret tt) s = m s.
Proof. unfold bind, ret. now destruct (m s) as [[[]|e] t]. Qed.

Lemma sendCallSignal_settles (h : Host) event payload :
  settles_as h (Async.sendCallSignal event payload)
    (sendCallSignal event payload).
Proof. intros s. reflexivity. Qed.

#[local] Hint Resolve sendCallSignal_settles : settled.

(** A method call on the connection that is held. *)
Lemma on_held_settles (h : Host) (peer : Peer) (f : Peer -> Peer)
    (answer : Host -> option Thrown) (s : State) :
  peerConnection s = Some peer ->
  Async.complete h
    (Async.bind (Async.wait_void answer)
       (fun _ => Async.lift (modify (Async.update_peer_of peer f))) h s)
  = (await_void (answer h) ;; modify (update_peer f)) s.
Proof.
  intros Hheld. cbn. monad_simpl. destruct (answer h); cbn; [reflexivity|].
  now rewrite update_peer_of_held.
Qed.

Lemma startCallerHandshake_settles (h : Host) (call : ActiveCall)
    (callerId : UserId) :
  settles_as h (Async.startCallerHandshake call callerId)
    (startCallerHandshake h call callerId).
Proof.
  unfold Async.startCallerHandshake, startCallerHandshake.
  destruct (negb (truthy_opt (ac_acceptedBy call))); [apply settles_done|].
  apply settles_bind; [apply settles_lift | intros guarded].
  destruct guarded; [apply settles_done|].
  apply settles_bind; [apply settles_lift | intros _].
  apply settles_attempt; [|intros e; settle].
  apply settles_bind; [apply settles_lift | intros _].
  apply settles_bind; [apply ensureLocalStream_settles | intros stream].
  apply settles_bind; [apply resolveIceServers_settles | intros iceServers].
  intros s.
  unfold Async.bind, Async.createPeerConnection, Async.lift_host,
    createPeerConnection, peer_setLocalDescription, peerConnection.
  monad_simpl.
  destruct (peerConnectionRef (media s)), (newPeerConnection h) eqn:Hn,
    (createOffer h) eqn:Ho, (setLocalDescription h) eqn:Hl;
    repeat (cbn;
            unfold Async.update_peer_of, update_peer, peerConnection;
            rewrite ?Hn, ?Ho, ?Hl, ?Nat.eqb_refl);
    reflexivity.
Qed.

#[local] Hint Resolve startCallerHandshake_settles : settled.

Lemma complete_bind {A B} (h : Host) (t : Async.Task A)
    (k : A -> Async.Task B) (s : State) :
  Async.complete h (Async.bind t k h s)
  = match Async.complete h (t h s) with
    | (Ok a, s') => Async.complete h (k a h s')
    | (Raise e, s') => (Raise e, s')
    end.
Proof. apply complete_and_then. Qed.

Lemma update_peer_of_same_id (peer : Peer) (f : Peer -> Peer) (s : State) :
  held_id s = Some (pc_id peer) ->
  Async.update_peer_of peer f s = update_peer f s.
Proof.
  unfold held_id, Async.update_peer_of, update_peer.
  destruct (peerConnection s) as [p|]; [|discriminate].
  cbn. intros H. injection H as ->. now rewrite Nat.eqb_refl.
Qed.

Lemma held_id_update_peer (f : Peer -> Peer) (s : State) :
  (forall p, pc_id (f p) = pc_id p) ->
  held_id (update_peer f s) = held_id s.
Proof.
  intros Hf. unfold held_id, update_peer, peerConnection.
  destruct (peerConnectionRef (media s)) as [p|] eqn:E; cbn; rewrite ?E; cbn;
    [now rewrite Hf | reflexivity].
Qed.

(** A method call on the connection that is held. *)
Lemma method_settles (h : Host) (peer : Peer) (f : Peer -> Peer)
    (answer : Host -> option Thrown) (s : State) :
  held_id s = Some (pc_id peer) ->
  Async.complete h
    (Async.bind (Async.wait_void answer)
       (fun _ => Async.lift (modify (Async.update_peer_of peer f))) h s)
  = (await_void (answer h) ;; modify (update_peer f)) s.
Proof.
  intros Hheld. cbn. monad_simpl. destruct (answer h); cbn; [reflexivity|].
  now rewrite update_peer_of_same_id.
Qed.

Lemma add_queued_settles (h : Host) (peer : Peer) (queued : list Candidate) :
  forall s,
    held_id s = Some (pc_id peer) ->
    Async.complete h (Async.add_queued peer queued h s) = add_queued h queued s.
Proof.
  induction queued as [|c rest IH]; intros s Hheld; [reflexivity|].
  cbn [Async.add_queued add_queued].
  rewrite complete_bind. unfold Async.attempt. rewrite complete_or_else.
  unfold Async.peer_addIceCandidate.
  rewrite (method_settles h peer _ (fun h => addIceCandidate h c) s Hheld).
  unfold peer_addIceCandidate. monad_simpl.
  destruct (addIceCandidate h c); cbn.
  - now apply IH.
  - apply IH. now rewrite held_id_update_peer.
Qed.

Lemma flush_settles (h : Host) :
  settles_as h Async.flushPendingRemoteCandidates
    (flushPendingRemoteCandidates h).
Proof.
  intros s.
  unfold Async.flushPendingRemoteCandidates, flushPendingRemoteCandidates.
  rewrite complete_bind. cbn. monad_simpl.
  destruct (peerConnection s) as [p|] eqn:Hp; [|reflexivity].
  destruct (remoteDescription p); [|reflexivity].
  rewrite complete_bind. cbn.
  destruct (pendingRemoteCandidatesRef (media s)) as [|c rest]; [reflexivity|].
  rewrite complete_bind. cbn -[Async.add_queued add_queued].
  apply add_queued_settles. unfold held_id. cbn.
  unfold peerConnection in Hp. now rewrite Hp.
Qed.

#[local] Hint Resolve flush_settles : settled.

Lemma handleCallChange_settles (h : Host) (me : UserId) (raw : CallRequestRow) :
  settles_as h (Async.handleCallChange me raw) (handleCallChange h me raw).
Proof. unfold Async.handleCallChange, handleCallChange. settle. Qed.

Lemma on_call_accepted_settles (h : Host) (me : UserId) (sg : SignalPayload) :
  settles_as h (Async.on_call_accepted me sg) (on_call_accepted h me sg).
Proof. unfold Async.on_call_accepted, on_call_accepted. settle. Qed.

Lemma held_id_created (h : Host) call stream me iceServers (s : State)
    (peer : Peer) (s' : State) :
  Async.complete h (Async.createPeerConnection call stream me iceServers h s)
  = (Ok peer, s') ->
  createPeerConnection h call stream me iceServers s = (Ok tt, s')
  /\ held_id s' = Some (pc_id peer).
Proof.
  unfold Async.createPeerConnection, Async.lift_host, createPeerConnection,
    held_id, peerConnection.
  monad_simpl.
  destruct (peerConnectionRef (media s)), (newPeerConnection h); cbn;
    intros H; try discriminate; injection H as <- <-; split; reflexivity.
Qed.

Lemma created_or_thrown (h : Host) call stream me iceServers (s : State)
    (e : Thrown) (s' : State) :
  Async.complete h (Async.createPeerConnection call stream me iceServers h s)
  = (Raise e, s') ->
  createPeerConnection h call stream me iceServers s = (Raise e, s').
Proof.
  unfold Async.createPeerConnection, Async.lift_host, createPeerConnection,
    peerConnection.
  monad_simpl.
  destruct (peerConnectionRef (media s)), (newPeerConnection h); cbn;
    intros H; try discriminate; injection H as <- <-; reflexivity.
Qed.

Lemma flush_keeps_held_id (h : Host) :
  keeps held_id (flushPendingRemoteCandidates h).
Proof.
  assert (Hq : forall queued, keeps held_id (add_queued h queued)).
  { induction queued as [|c rest IH]; cbn [add_queued];
      unfold peer_addIceCandidate; frame.
    apply keeps_modify. intros s. now apply held_id_update_peer. }
  unfold flushPendingRemoteCandidates. frame.
Qed.

Lemma bind_ok {A B} (m : M A) (k : A -> M B) (s s' : State) (a : A) :
  m s = (Ok a, s') -> bind m k s = k a s'.
Proof. unfold bind. now intros ->. Qed.

Lemma bind_raise {A B} (m : M A) (k : A -> M B) (s s' : State) (e : Thrown) :
  m s = (Raise e, s') -> bind m k s = (Raise e, s').
Proof. unfold bind. now intros ->. Qed.

Lemma answer_offer_settles (h : Host) (me : UserId) (call : ActiveCall)
    (sg : SignalPayload) (sdp : Sdp) :
  settles_as h (Async.answer_offer me call sg sdp) (answer_offer h me call sg sdp).
Proof.
  unfold Async.answer_offer, answer_offer.
  apply settles_attempt; [|intros e; settle].
  apply settles_bind; [apply settles_lift | intros _].
  apply settles_bind; [apply ensureLocalStream_settles | intros stream].
  apply settles_bind; [apply resolveIceServers_settles | intros iceServers].
  intros s. rewrite complete_bind.
  destruct (Async.complete h
              (Async.createPeerConnection call stream me iceServers h s))
    as [[peer|e] s1] eqn:Hc;
    [|now rewrite (bind_raise _ _ _ _ _ (created_or_thrown _ _ _ _ _ _ _ _ Hc))].
  destruct (held_id_created _ _ _ _ _ _ _ _ Hc) as (Hc' & Hheld).
  rewrite (bind_ok _ _ _ _ _ Hc').
  rewrite complete_bind. unfold Async.peer_setRemoteDescription.
  rewrite (method_settles h peer _ (fun h => setRemoteDescription h sdp)
             s1 Hheld).
  fold (peer_setRemoteDescription h sdp).
  assert (Hheld2 : held_id (snd (peer_setRemoteDescription h sdp s1))
                   = Some (pc_id peer)).
  { unfold peer_setRemoteDescription. monad_simpl.
    destruct (setRemoteDescription h sdp); cbn; [exact Hheld|].
    now rewrite held_id_update_peer. }
  destruct (peer_setRemoteDescription h sdp s1) as [[[]|e] s2] eqn:E2;
    [|now rewrite (bind_raise _ _ _ _ _ E2)].
  rewrite (bind_ok _ _ _ _ _ E2). cbn [snd] in Hheld2.
  rewrite complete_bind, flush_settles.
  pose proof (flush_keeps_held_id h s2) as Hheld3.
  destruct (flushPendingRemoteCandidates h s2) as [[[]|e] s3] eqn:E3;
    [|now rewrite (bind_raise _ _ _ _ _ E3)].
  rewrite (bind_ok _ _ _ _ _ E3). cbn [snd] in Hheld3.
  rewrite Hheld2 in Hheld3.
  rewrite complete_bind, (settles_wait h createAnswer s3).
  destruct (await (createAnswer h) s3) as [[answer|e] s4] eqn:Ha;
    [|now rewrite (bind_raise _ _ _ _ _ Ha)].
  rewrite (bind_ok _ _ _ _ _ Ha).
  assert (s4 = s3) as ->
    by (unfold await in Ha; destruct (createAnswer h); now inversion Ha).
  rewrite complete_bind. unfold Async.peer_setLocalDescription.
  rewrite (method_settles h peer _ setLocalDescription s3 Hheld3).
  fold (peer_setLocalDescription h answer).
  destruct (peer_setLocalDescription h answer s3) as [[[]|e] s5] eqn:E5;
    [|now rewrite (bind_raise _ _ _ _ _ E5)].
  rewrite (bind_ok _ _ _ _ _ E5).
  apply sendCallSignal_settles.
Qed.

#[local] Hint Resolve handleCallChange_settles on_call_accepted_settles
  answer_offer_settles : settled.

Lemma on_webrtc_offer_settles (h : Host) (me : UserId) (sg : SignalPayload) :
  settles_as h (Async.on_webrtc_offer me sg) (on_webrtc_offer h me sg).
Proof. unfold Async.on_webrtc_offer, on_webrtc_offer. settle. Qed.

Lemma on_webrtc_answer_settles (h : Host) (me : UserId) (sg : SignalPayload) :
  settles_as h (Async.on_webrtc_answer me sg) (on_webrtc_answer h me sg).
Proof.
  unfold Async.on_webrtc_answer, on_webrtc_answer.
  destruct (for_someone_else sg me); [apply settles_done|].
  intros s. rewrite complete_bind. cbn [Async.lift Async.lift_host gets
    Async.complete]. unfold bind at 1. cbn [gets].
  destruct (sig_sdp sg) as [sdp|], (peerConnection s) as [p|] eqn:Hp;
    try reflexivity.
  rewrite complete_bind. unfold Async.peer_setRemoteDescription.
  rewrite (method_settles h p _ (fun h => setRemoteDescription h sdp) s)
    by (unfold held_id; now rewrite Hp).
  fold (peer_setRemoteDescription h sdp). unfold bind.
  destruct (peer_setRemoteDescription h sdp s) as [[[]|e] s2]; [|reflexivity].
  apply flush_settles.
Qed.

Lemma on_webrtc_ice_settles (h : Host) (me : UserId) (sg : SignalPayload) :
  settles_as h (Async.on_webrtc_ice me sg) (on_webrtc_ice h me sg).
Proof.
  unfold Async.on_webrtc_ice, on_webrtc_ice.
  destruct (for_someone_else sg me); [apply settles_done|].
  intros s. rewrite complete_bind. cbn [Async.lift Async.lift_host gets
    Async.complete]. unfold bind at 1. cbn [gets].
  destruct (sig_candidate sg) as [c|], (peerConnection s) as [p|] eqn:Hp;
    try reflexivity.
  unfold Async.attempt, try_catch. rewrite complete_or_else.
  destruct (remoteDescription p).
  - unfold Async.peer_addIceCandidate.
    rewrite (method_settles h p _ (fun h => addIceCandidate h c) s)
      by (unfold held_id; now rewrite Hp).
    fold (peer_addIceCandidate h c).
    now destruct (peer_addIceCandidate h c s) as [[[]|e] s2].
  - reflexivity.
Qed.

#[local] Hint Resolve on_webrtc_offer_settles on_webrtc_answer_settles
  on_webrtc_ice_settles : settled.

Lemma on_broadcast_settles (h : Host) (me : UserId) (event : SignalEvent)
    (sg : SignalPayload) :
  settles_as h (Async.on_broadcast me event sg) (on_broadcast h me event sg).
Proof. unfold Async.on_broadcast, on_broadcast. settle. Qed.

Lemma requestCall_settles (h : Host) :
  settles_as h Async.requestCall (requestCall h).
Proof. unfold Async.requestCall, requestCall. settle. Qed.

Lemma acceptIncomingCall_settles (h : Host) :
  settles_as h Async.acceptIncomingCall (acceptIncomingCall h).
Proof. unfold Async.acceptIncomingCall, acceptIncomingCall. settle. Qed.

Lemma rejectIncomingCall_settles (h : Host) :
  settles_as h Async.rejectIncomingCall (rejectIncomingCall h).
Proof. unfold Async.rejectIncomingCall, rejectIncomingCall. settle. Qed.

Lemma endCall_settles (h : Host) :
  settles_as h Async.endCall (endCall h).
Proof. unfold Async.endCall, endCall. settle. Qed.

#[local] Hint Resolve on_broadcast_settles requestCall_settles
  acceptIncomingCall_settles rejectIncomingCall_settles endCall_settles
  : settled.

Lemma headerCallButton_settles (h : Host) :
  settles_as h Async.headerCallButton (headerCallButton h).
Proof. unfold Async.headerCallButton, headerCallButton. settle. Qed.

#[local] Hint Resolve headerCallButton_settles : settled.

Lemma handle_settles (h : Host) (ev : Event) :
  settles_as h (Async.handle ev) (handle h ev).
Proof.
  destruct ev; unfold Async.handle, handle, Async.signed_in, signed_in; settle.
Qed.

(** [step] is the delivery of an event all of whose waits settle at once,
    followed by one render. *)
Lemma step_settles (h : Host) (ev : Event) (s : State) :
  step h ev s = commit h s (snd (Async.complete h (Async.handle ev h s))).
Proof. unfold step, run. now rewrite handle_settles. Qed.

(** ** A second delivery while the first still waits *)

Section Waitless.

Lemma waitless_lift_host {A} (m : Host -> M A) : waitless (Async.lift_host m).
Proof. intros h s. unfold Async.lift_host. now destruct (m h s). Qed.

Lemma waitless_lift {A} (m : M A) : waitless (Async.lift m).
Proof. apply waitless_lift_host. Qed.

Lemma waitless_done {A} (a : A) : waitless (Async.done a).
Proof. intros h s. reflexivity. Qed.

Lemma waitless_bind {A B} (t : Async.Task A) (k : A -> Async.Task B) :
  waitless t -> (forall a, waitless (k a)) -> waitless (Async.bind t k).
Proof.
  intros Ht Hk h s. unfold Async.bind. specialize (Ht h s).
  destruct (t h s) as [[a|e] s'|s' resume]; cbn in *;
    [apply Hk | reflexivity | discriminate].
Qed.

Lemma waitless_state {A} (t : Async.Task A) (h : Host) (s : State) :
  waitless t -> Async.state_of (t h s) = snd (Async.complete h (t h s)).
Proof. intros Ht. specialize (Ht h s). now destruct (t h s). Qed.

Lemma waitless_left (t : Async.Task unit) (h : Host) (s : State) :
  waitless t -> Async.left_of (t h s) = [].
Proof. intros Ht. specialize (Ht h s). now destruct (t h s). Qed.

End Waitless.

Ltac waitless_step :=
  first
    [ apply waitless_lift | apply waitless_lift_host | apply waitless_done
    | apply waitless_bind; [|intros ?]
    | match goal with
      | |- waitless (match ?x with _ => _ end) => destruct x
      | |- waitless (if ?x then _ else _) => destruct x
      end ].

Ltac never_waits := repeat waitless_step.

(** Opens the plumbing of a task; [cbn] then runs it as far as the
    answers are known. *)
Ltac async_simpl :=
  unfold Async.bind, Async.attempt, Async.lift, Async.lift_host, Async.done,
    Async.raise, Async.wait_value, Async.wait_void, Async.wait, Async.ask;
  cbn.

(** The ways the first stretch of the caller handshake ends. *)
Ltac first_stretch h cache ls Hsec Hgum Hfresh Hctor :=
  async_simpl;
  destruct (isSecureContext h) eqn:Hsec; cbn;
  [ destruct (hasGetUserMedia h) eqn:Hgum; cbn;
    [ destruct ls as [?stream|]; cbn;
      [ destruct (cache_fresh h cache) eqn:Hfresh; cbn;
        [ destruct (newPeerConnection h) eqn:Hctor; cbn | ]
      | ]
    | ]
  | ].

(** The first stretch of the caller handshake leaves the slots and the
    queue as they are. *)
Lemma handshake_stretch_keeps (h : Host) (call : ActiveCall) (me : UserId)
    (s : State) :
  slots_and_queue (Async.state_of (Async.startCallerHandshake call me h s))
  = slots_and_queue s.
Proof.
  destruct s as [u conv w r [peer q g ls rs muted] [cache cur mode] e].
  unfold Async.startCallerHandshake, handshake_guard, peerConnection,
    Async.ensureLocalStream, Async.resolveIceServers, Async.fetch_payload,
    Async.createPeerConnection, assertMediaContext.
  destruct (negb (truthy_opt (ac_acceptedBy call))); [reflexivity|].
  destruct peer as [p|], g as [started|]; cbn;
    try (destruct (started =? ac_id call); [reflexivity|]);
    first_stretch h cache ls Hsec Hgum Hfresh Hctor; reflexivity.
Qed.

(** When no session is held and the first stretch ends without one (the
    handshake has failed, or it waits for the camera or for the ICE
    servers), it has left the stream and the cache as they were, and from
    any state that agrees on these it ends in the same way. *)
Lemma handshake_first_stretch (h : Host) (call : ActiveCall) (me : UserId)
    (s : State) :
  truthy_opt (ac_acceptedBy call) = true ->
  peerConnection s = None ->
  let p := Async.startCallerHandshake call me h s in
  peerConnection (Async.state_of p) = None ->
  localStream (media (Async.state_of p)) = localStream (media s)
  /\ dynamicIceCacheRef (ice (Async.state_of p)) = dynamicIceCacheRef (ice s)
  /\ forall t,
       peerConnection t = None ->
       localStream (media t) = localStream (media s) ->
       dynamicIceCacheRef (ice t) = dynamicIceCacheRef (ice s) ->
       let q := Async.startCallerHandshake call me h t in
       peerConnection (Async.state_of q) = None
       /\ callStatus (view (Async.state_of q))
          = callStatus (view (Async.state_of p))
       /\ Async.left_of q = Async.left_of p.
Proof.
  intros Hacc Hnone.
  destruct s as [u conv w r [peer q g ls rs muted] [cache cur mode] e].
  unfold peerConnection in Hnone. cbn in Hnone. subst peer.
  assert (Hguard : forall started : option Z,
             match started with Some _ | _ => false end = false)
    by (now intros []).
  assert (Hother :
            forall t, peerConnection t = None ->
                      localStream (media t) = ls ->
                      dynamicIceCacheRef (ice t) = cache ->
                      exists u' conv' w' r' q' g' rs' muted' cur' mode' e',
                        t = {| currentUser := u'; activeConversationId := conv';
                               view := w'; refs := r';
                               media := {| peerConnectionRef := None;
                                           pendingRemoteCandidatesRef := q';
                                           handshakeStartedForCallRef := g';
                                           localStream := ls;
                                           remoteStream := rs';
                                           isMicMuted := muted' |};
                               ice := {| dynamicIceCacheRef := cache;
                                         currentIceServers := cur';
                                         iceConfigMode := mode' |};
                               effects := e' |}).
  { intros [u' conv' w' r' [peer' q' g' ls' rs' muted'] [cache' cur' mode'] e'].
    unfold peerConnection. cbn. intros -> -> ->. eauto 12. }
  cbv zeta.
  unfold Async.startCallerHandshake, handshake_guard, peerConnection,
    Async.ensureLocalStream, Async.resolveIceServers, Async.fetch_payload,
    Async.createPeerConnection, assertMediaContext.
  rewrite Hacc. async_simpl. rewrite ?Hguard.
  first_stretch h cache ls Hsec Hgum Hfresh Hctor;
    intros Hp; try discriminate Hp;
    (split; [reflexivity|]); (split; [reflexivity|]);
    intros other Ht Hls Hcache;
    destruct (Hother other Ht Hls Hcache)
      as (u' & conv' & w' & r' & q' & g' & rs' & muted' & cur' & mode' & e'
          & ->);
    repeat (cbn; rewrite ?Hguard, ?Hsec, ?Hgum, ?Hfresh, ?Hctor);
    repeat split.
Qed.

Lemma ice_commit (h : Host) (a b : State) : ice (commit h a b) = ice b.
Proof.
  unfold commit, connecting_effect.
  destruct (CallStatus_eqb _ _); [reflexivity|].
  destruct (callStatus (view (sync_refs b))); reflexivity.
Qed.

Lemma settled_at_once {A} (h : Host) (p : Async.Progress A) :
  Async.settled_now p = true ->
  Async.state_of p = snd (Async.complete h p).
Proof. now destruct p. Qed.

Lemma nothing_left (p : Async.Progress unit) :
  Async.settled_now p = true -> Async.left_of p = [].
Proof. now destruct p. Qed.

Lemma handleCallChange_keeps_user (h : Host) (me : UserId)
    (raw : CallRequestRow) :
  keeps currentUser (handleCallChange h me raw).
Proof.
  unfold handleCallChange, startCallerHandshake, resetCallMedia,
    ensureLocalStream, assertMediaContext, resolveIceServers, fetch_payload,
    createPeerConnection, peer_setLocalDescription, sendCallSignal.
  frame.
Qed.

(** A notification whose handler starts no handshake returns at once. *)
Lemma notification_returns (h : Host) (me : UserId) (raw : CallRequestRow)
    (s : State) :
  (forall call,
      normalizeCall raw = Some call ->
      ac_status call = accepted ->
      (String.eqb (ac_requesterId call) me
       && truthy_opt (ac_acceptedBy call))%bool = true ->
      peerConnection s <> None) ->
  Async.settled_now (Async.handleCallChange me raw h s) = true.
Proof.
  intros Hheld. unfold Async.handleCallChange.
  destruct (normalizeCall raw) as [call|]; [|reflexivity].
  specialize (Hheld call eq_refl).
  destruct (ac_status call);
    try solve [match goal with
               | |- Async.settled_now (?t h s) = true =>
                   apply (fun H : waitless t => H h s); never_waits
               end].
  destruct (String.eqb (ac_requesterId call) me
            && truthy_opt (ac_acceptedBy call))%bool.
  - specialize (Hheld eq_refl eq_refl). async_simpl.
    unfold peerConnection in *. cbn in *.
    now destruct (peerConnectionRef (media s)).
  - match goal with
    | |- Async.settled_now (?t h s) = true =>
        apply (fun H : waitless t => H h s); never_waits
    end.
Qed.

(** The slots an "accepted" notification sets at the requester's. *)
Lemma notification_starts_handshake (h : Host) (me : UserId)
    (raw : CallRequestRow) (call : ActiveCall) (s : State) :
  normalizeCall raw = Some call ->
  ac_status call = accepted ->
  (String.eqb (ac_requesterId call) me
   && truthy_opt (ac_acceptedBy call))%bool = true ->
  peerConnection s = None ->
  Async.handleCallChange me raw h s
  = Async.startCallerHandshake call me h
      (setActiveCall (Some call)
         (setCallError None
            (setPendingOutgoingCall None
               (setActiveConversationId (Some (ac_conversationId call)) s)))).
Proof.
  intros Hn Hst Hmine Hnone. unfold Async.handleCallChange.
  rewrite Hn, Hst, Hmine. async_simpl.
  unfold peerConnection in *. cbn. now rewrite Hnone.
Qed.

Lemma notification_held_runs (h : Host) (me : UserId)
    (raw : CallRequestRow) (call : ActiveCall) (s : State) :
  normalizeCall raw = Some call ->
  ac_status call = accepted ->
  (String.eqb (ac_requesterId call) me
   && truthy_opt (ac_acceptedBy call))%bool = true ->
  peerConnection s <> None ->
  run (handleCallChange h me raw) s
  = setActiveCall (Some call)
      (setCallError None
         (setPendingOutgoingCall None
            (setActiveConversationId (Some (ac_conversationId call)) s))).
Proof.
  intros Hn Hst Hmine Hheld. unfold handleCallChange, run.
  rewrite Hn, Hst, Hmine. monad_simpl.
  unfold peerConnection in *. cbn.
  now destruct (peerConnectionRef (media s)).
Qed.

Lemma notification_in_flight (h : Host) (me : UserId) (raw : CallRequestRow)
    (s : State) :
  synced s ->
  let p1 := Async.handleCallChange me raw h s in
  let c1 := commit h s (Async.state_of p1) in
  let p2 := Async.handleCallChange me raw h c1 in
  currentUser (Async.state_of p1) = currentUser s
  /\ observe (Async.state_of p2) = observe (Async.state_of p1)
  /\ Async.left_of p2
     = match peerConnection c1 with
       | None => Async.left_of p1
       | Some _ => []
       end.
Proof.
  intros Hs p1 c1 p2.
  assert (Hcases :
            (exists call,
                normalizeCall raw = Some call
                /\ ac_status call = accepted
                /\ (String.eqb (ac_requesterId call) me
                    && truthy_opt (ac_acceptedBy call))%bool = true
                /\ peerConnection s = None)
            \/ (forall call,
                   normalizeCall raw = Some call ->
                   ac_status call = accepted ->
                   (String.eqb (ac_requesterId call) me
                    && truthy_opt (ac_acceptedBy call))%bool = true ->
                   peerConnection s <> None)).
  { destruct (normalizeCall raw) as [call|]; [|right; discriminate].
    destruct (ac_status call) eqn:Hst; try (right; intros c Hc; injection Hc as <-; congruence).
    destruct (String.eqb (ac_requesterId call) me
              && truthy_opt (ac_acceptedBy call))%bool eqn:Hmine;
      [|right; intros c Hc; injection Hc as <-; congruence].
    destruct (peerConnection s) eqn:Hp;
      [right; intros c Hc _ _; discriminate | left; eauto]. }
  destruct Hcases as [(call & Hn & Hst & Hmine & Hnone) | Hheld].
  - (* the handshake starts *)
    pose (F t := setActiveCall (Some call)
                   (setCallError None
                      (setPendingOutgoingCall None
                         (setActiveConversationId
                            (Some (ac_conversationId call)) t)))).
    assert (Hp1 : p1 = Async.startCallerHandshake call me h (F s))
      by (apply notification_starts_handshake; assumption).
    destruct (slots_and_queue_inv _ _ (handshake_stretch_keeps h call me (F s)))
      as (K0 & K1 & K2 & K3 & K4).
    rewrite <- Hp1 in K0, K1, K2, K3, K4.
    split; [exact K0|].
    apply andb_true_iff in Hmine. destruct Hmine as (Hmine & Hacc).
    destruct (peerConnection (Async.state_of p1)) as [held|] eqn:HpX.
    + (* it has built its session: the second delivery starts nothing *)
      assert (Hheld : peerConnection c1 <> None)
        by (subst c1; rewrite peerConnection_commit, HpX; discriminate).
      assert (Hset : Async.settled_now p2 = true).
      { apply notification_returns. intros c Hc _ _.
        exact Hheld. }
      rewrite (nothing_left p2 Hset).
      subst c1. rewrite peerConnection_commit, HpX. split; [|reflexivity].
      rewrite (settled_at_once h p2 Hset). subst p2.
      rewrite handleCallChange_settles.
      fold (run (handleCallChange h me raw)
                (commit h s (Async.state_of p1))).
      rewrite (notification_held_runs h me raw call _ Hn Hst)
        by (try exact Hheld; now rewrite Hmine, Hacc).
      unfold observe, peerConnection in *. cbn.
      rewrite view_commit, media_commit.
      now rewrite K1, K2, K3.
    + (* it has not: the second delivery starts the handshake again *)
      assert (Hnone' : peerConnection c1 = None)
        by (subst c1; now rewrite peerConnection_commit).
      assert (Hp2 : p2 = Async.startCallerHandshake call me h (F c1)).
      { apply notification_starts_handshake; try assumption.
        now rewrite Hmine, Hacc. }
      rewrite Hnone'.
      assert (HnoneF : peerConnection (F s) = None) by exact Hnone.
      rewrite Hp1 in HpX.
      destruct (handshake_first_stretch h call me (F s) Hacc HnoneF HpX)
        as (Hls & Hcache & Hsame).
      destruct (Hsame (F c1)) as (Q1 & Q2 & Q3).
      * exact Hnone'.
      * subst c1 F. cbn. rewrite media_commit, Hp1. exact Hls.
      * subst c1 F. cbn. rewrite ice_commit, Hp1. exact Hcache.
      * cbv zeta in Q1, Q2, Q3.
        rewrite <- Hp2 in Q1, Q2, Q3. rewrite <- Hp1 in Q2, Q3.
        split; [|exact Q3].
        destruct (slots_and_queue_inv _ _
                    (handshake_stretch_keeps h call me (F c1)))
          as (_ & J1 & J2 & J3 & J4).
        rewrite <- Hp2 in J1, J2, J3, J4.
        unfold observe. rewrite Q1, Q2, J1, J2, J3, J4.
        rewrite <- Hp1 in HpX. rewrite HpX, K1, K2, K3, K4.
        subst c1 F. cbn. rewrite view_commit, media_commit.
        now rewrite K2, K4.
  - (* no handshake: the handler returns at once, both times *)
    assert (Hset1 : Async.settled_now p1 = true)
      by (apply notification_returns; exact Hheld).
    assert (Hst1 : Async.state_of p1 = run (handleCallChange h me raw) s).
    { rewrite (settled_at_once h p1 Hset1). subst p1.
      now rewrite handleCallChange_settles. }
    assert (Hheld2 : forall call,
               normalizeCall raw = Some call ->
               ac_status call = accepted ->
               (String.eqb (ac_requesterId call) me
                && truthy_opt (ac_acceptedBy call))%bool = true ->
               peerConnection c1 <> None).
    { intros call Hn Hst Hmine. subst c1.
      rewrite peerConnection_commit, Hst1.
      rewrite (notification_held_runs h me raw call s Hn Hst Hmine)
        by now apply (Hheld call).
      exact (Hheld call Hn Hst Hmine). }
    assert (Hset2 : Async.settled_now p2 = true)
      by (apply notification_returns; exact Hheld2).
    rewrite (nothing_left p1 Hset1), (nothing_left p2 Hset2).
    split; [|split; [|now destruct (peerConnection c1)]].
    + rewrite Hst1. unfold run. apply handleCallChange_keeps_user.
    + rewrite (settled_at_once h p2 Hset2). subst p2.
      rewrite handleCallChange_settles. subst c1. rewrite Hst1.
      exact (handleCallChange_twice h me raw s Hs).
Qed.

Lemma call_accepted_in_flight (h : Host) (me : UserId) (sg : SignalPayload)
    (s : State) :
  synced s ->
  let p1 := Async.on_call_accepted me sg h s in
  let c1 := commit h s (Async.state_of p1) in
  let p2 := Async.on_call_accepted me sg h c1 in
  currentUser (Async.state_of p1) = currentUser s
  /\ observe (Async.state_of p2) = observe (Async.state_of p1)
  /\ Async.left_of p2 = [].
Proof.
  intros (_ & _ & Hout) p1 c1 p2.
  assert (H1 : currentUser (Async.state_of p1) = currentUser s
               /\ matching (pendingOutgoingCall (view (Async.state_of p1)))
                           (sig_callId sg) = None
                  \/ for_someone_else sg me = true).
  { subst p1. unfold Async.on_call_accepted.
    destruct (for_someone_else sg me); [now right | left].
    async_simpl.
    destruct (matching (pendingOutgoingCallRef (refs s)) (sig_callId sg))
      as [waiting|] eqn:Hm.
    - match goal with
      | |- context [Async.startCallerHandshake ?c me h ?t] =>
          destruct (slots_and_queue_inv _ _
                      (handshake_stretch_keeps h c me t))
            as (K0 & _ & _ & K3 & _)
      end.
      rewrite K0, K3. split; reflexivity.
    - cbn. rewrite <- Hout. split; [reflexivity | exact Hm]. }
  assert (H2 : p2 = Async.Settled (Ok tt) c1).
  { subst p2. unfold Async.on_call_accepted.
    destruct (for_someone_else sg me); [reflexivity|].
    destruct H1 as [(_ & Hm)|]; [|discriminate].
    async_simpl. subst c1. rewrite refs_commit. cbn. now rewrite Hm. }
  rewrite H2. cbn. subst c1. rewrite observe_commit.
  repeat split.
  subst p1. unfold Async.on_call_accepted.
  destruct H1 as [(Hu & _)|Helse]; [exact Hu|].
  now rewrite Helse.
Qed.

Lemma answer_in_flight (h : Host) (me : UserId) (sg : SignalPayload)
    (s : State) :
  let p1 := Async.on_webrtc_answer me sg h s in
  let c1 := commit h s (Async.state_of p1) in
  let p2 := Async.on_webrtc_answer me sg h c1 in
  Async.state_of p1 = s
  /\ Async.state_of p2 = c1
  /\ Async.left_of p2 = Async.left_of p1.
Proof.
  intros p1 c1 p2.
  assert (H1 : Async.state_of p1 = s).
  { subst p1. unfold Async.on_webrtc_answer, Async.peer_setRemoteDescription.
    destruct (for_someone_else sg me); [reflexivity|]. async_simpl.
    now destruct (sig_sdp sg), (peerConnection s). }
  split; [exact H1|].
  subst p2 p1. unfold Async.on_webrtc_answer, Async.peer_setRemoteDescription.
  destruct (for_someone_else sg me); [split; reflexivity|]. async_simpl.
  assert (Hpc : peerConnection c1 = peerConnection s)
    by (subst c1; now rewrite peerConnection_commit, H1).
  rewrite Hpc.
  destruct (sig_sdp sg), (peerConnection s); split; reflexivity.
Qed.

Lemma call_ended_returns (sg : SignalPayload) :
  waitless (Async.lift (on_call_ended sg)).
Proof. apply waitless_lift. Qed.

Lemma signed_in_runs (k : UserId -> Async.Task unit) (me : UserId)
    (h : Host) (s : State) :
  currentUser s = Some me -> Async.signed_in k h s = k me h s.
Proof. intros Hu. unfold Async.signed_in. async_simpl. now rewrite Hu. Qed.

Lemma signed_out_returns (k : UserId -> Async.Task unit) (h : Host)
    (s : State) :
  currentUser s = None -> Async.signed_in k h s = Async.Settled (Ok tt) s.
Proof. intros Hu. unfold Async.signed_in. async_simpl. now rewrite Hu. Qed.

(** The second delivery comes when everything the first awaited has
    settled. *)
Lemma replay_after_completion (h : Host) (s : State) (ev : Event) :
  synced s ->
  replay_safe ev = true ->
  observe (step h ev (step h ev s)) = observe (step h ev s).
Proof.
  intros Hs Hev. unfold step. rewrite !observe_commit.
  destruct (currentUser s) as [me|] eqn:Hu.
  - assert (Hu' : currentUser (commit h s (run (handle h ev) s)) = Some me).
    { rewrite currentUser_commit. unfold run.
      now rewrite handle_keeps_user. }
    destruct ev as [raw|event sg| | | | | | | | | | ]; try discriminate.
    + revert Hu'. unfold handle, signed_in, run. monad_simpl.
      rewrite Hu. intros ->. now apply handleCallChange_twice.
    + revert Hu'. unfold handle, signed_in, run. monad_simpl.
      rewrite Hu. intros ->.
      destruct event; try discriminate; unfold on_broadcast.
      * now apply call_accepted_twice.
      * apply answer_twice.
      * now apply call_ended_twice.
  - rewrite (handle_signed_out h ev s Hev Hu).
    rewrite handle_signed_out; [apply observe_commit | exact Hev |].
    now rewrite currentUser_commit.
Qed.

(** The second delivery comes while the first still waits. *)
Lemma replay_in_flight (h : Host) (s : State) (ev : Event) :
  synced s ->
  replay_safe ev = true ->
  let once := Async.deliver h ev (Async.at_rest s) in
  let twice := Async.deliver h ev once in
  observe (Async.current twice) = observe (Async.current once)
  /\ Async.suspended twice = Async.suspended once ++ started_again ev once.
Proof.
  intros Hs Hev. unfold Async.deliver, Async.at_rest, started_again.
  cbn [Async.current Async.suspended app]. rewrite !observe_commit.
  destruct (currentUser s) as [me|] eqn:Hu.
  - destruct ev as [raw|event sg| | | | | | | | | | ]; try discriminate;
      unfold Async.handle.
    + rewrite (signed_in_runs _ me h s Hu).
      destruct (notification_in_flight h me raw s Hs) as (Hu1 & Hobs & Hleft).
      rewrite (signed_in_runs _ me)
        by now rewrite currentUser_commit, Hu1.
      split; [exact Hobs|]. now rewrite Hleft.
    + rewrite (signed_in_runs _ me h s Hu).
      destruct event; try discriminate; unfold Async.on_broadcast.
      * destruct (call_accepted_in_flight h me sg s Hs) as (Hu1 & Hobs & Hleft).
        rewrite (signed_in_runs _ me)
          by now rewrite currentUser_commit, Hu1.
        split; [exact Hobs|]. now rewrite Hleft.
      * destruct (answer_in_flight h me sg s) as (H1 & H2 & Hleft).
        rewrite (signed_in_runs _ me)
          by now rewrite currentUser_commit, H1.
        rewrite Hleft, H2, H1. split; [|reflexivity].
        now rewrite observe_commit.
      * pose proof (call_ended_returns sg) as Hw.
        rewrite (waitless_state _ h s Hw), (waitless_left _ h s Hw).
        rewrite settles_lift.
        rewrite (signed_in_runs _ me)
          by (rewrite currentUser_commit;
              pose proof (handle_keeps_user h (Broadcast call_ended sg) s)
                as Hk;
              unfold handle, signed_in, on_broadcast in Hk;
              revert Hk; monad_simpl; rewrite Hu; intros ->; reflexivity).
        rewrite (waitless_state _ h _ Hw), (waitless_left _ h _ Hw).
        rewrite settles_lift. split; [|reflexivity].
        exact (call_ended_twice h sg s Hs).
  - assert (Hout : forall k, Async.signed_in k h s = Async.Settled (Ok tt) s)
      by (intros k; now apply signed_out_returns).
    assert (Hout' : forall k,
               Async.signed_in k h (commit h s s)
               = Async.Settled (Ok tt) (commit h s s))
      by (intros k; apply signed_out_returns; now rewrite currentUser_commit).
    destruct ev as [raw|event sg| | | | | | | | | | ]; try discriminate;
      unfold Async.handle; rewrite Hout; cbn [Async.state_of Async.left_of];
      rewrite Hout'; cbn [Async.state_of Async.left_of app];
      rewrite observe_commit; (split; [reflexivity|]).
    + now destruct (peerConnection (commit h s s)).
    + now destruct event.
Qed.

(** C2 (as the code has it). For a call-request notification, or a
    [call-accepted], [webrtc-answer] or [call-ended] envelope, delivered in
    a rendered state (refs mirroring the slots) and delivered once more
    against the same host:
    - [step] is the delivery in which every promise the handler awaits
      settles before anything else happens;
    - if the second delivery comes then, it leaves the call slots, the call
      status, the session and the candidate queue as the first left them;
    - if it comes while the first still waits, it leaves these four as they
      are at that moment, and what the first delivery waits for is started
      once more: [setRemoteDescription] for an answer and, as long as no
      session is held, the caller handshake of a notification. *)
Theorem replay_is_idempotent :
  forall (h : Host) (s : State) (ev : Event),
    synced s ->
    replay_safe ev = true ->
    step h ev s = commit h s (snd (Async.complete h (Async.handle ev h s)))
    /\ observe (step h ev (step h ev s)) = observe (step h ev s)
    /\ (let once := Async.deliver h ev (Async.at_rest s) in
        let twice := Async.deliver h ev once in
        observe (Async.current twice) = observe (Async.current once)
        /\ Async.suspended twice
           = Async.suspended once ++ started_again ev once).
Proof.
  intros h s ev Hs Hev. split; [apply step_settles|].
  split; [now apply replay_after_completion | now apply replay_in_flight].
Qed.

Lemma replay_is_idempotent_witness :
  observe (step (host_at 0) bobs_acceptance alice_offering)
  = observe alice_offering
  /\ List.length
       (Async.suspended
          (Async.deliver (host_at 0) bobs_acceptance
             (Async.deliver (host_at 0) bobs_acceptance
                (Async.at_rest alice_requesting))))
     = 2%nat.
Proof.
  destruct (replay_is_idempotent (host_at 0) alice_requesting bobs_acceptance
              (conj eq_refl (conj eq_refl eq_refl)) eq_refl)
    as (_ & Hafter & _ & Hstarted).
  split; [exact Hafter|].
  rewrite Hstarted. reflexivity.
Defined.

(** C2, as stated, fails for [webrtc-ice]: while Alice's session waits for
    the answer, the same candidate delivered twice is queued twice. *)
Lemma duplicate_candidate_is_queued_twice :
  pendingRemoteCandidatesRef
    (media (step (host_at 1) bobs_candidate alice_offering))
  = ["candidate-1"]
  /\ pendingRemoteCandidatesRef
       (media (step (host_at 1) bobs_candidate
                 (step (host_at 1) bobs_candidate alice_offering)))
     = ["candidate-1"; "candidate-1"]
  /\ observe (step (host_at 1) bobs_candidate
                (step (host_at 1) bobs_candidate alice_offering))
     <> observe (step (host_at 1) bobs_candidate alice_offering).
Proof.
  split; [reflexivity|]. split; [reflexivity|].
  intros H. apply (f_equal snd) in H. vm_compute in H. discriminate H.
Qed.

(** Nor is [webrtc-offer] idempotent: every delivery closes the session
    and builds a new one. *)
Lemma duplicate_offer_replaces_session :
  option_map pc_id
    (peerConnection (step (host_at 1) bobs_offer alice_ringing)) = Some 0%nat
  /\ option_map pc_id
       (peerConnection (step (host_at 1) bobs_offer
                          (step (host_at 1) bobs_offer alice_ringing)))
     = Some 1%nat
  /\ closedPeers
       (effects (step (host_at 1) bobs_offer
                   (step (host_at 1) bobs_offer alice_ringing)))
     = [0%nat].
Proof. repeat split. Qed.

(** While the caller handshake started by the "accepted" notification
    waits for the camera, the same notification delivered again starts a
    second handshake. When the promises of both have settled, one after
    the other, a second connection has been constructed, the first has
    been closed and two offers have been sent; delivered once, the
    notification leads to one connection and one offer. *)
Lemma replayed_acceptance_builds_two_sessions :
  let once :=
    Async.ticks ((host_at 0, Async.Deliver bobs_acceptance) :: settling 1 0)
                (Async.at_rest alice_requesting) in
  let twice :=
    Async.ticks ((host_at 0, Async.Deliver bobs_acceptance)
                   :: (host_at 0, Async.Deliver bobs_acceptance)
                   :: settling 1 0 ++ settling 2 1)
                (Async.at_rest alice_requesting) in
  (peersCreated (effects (Async.current once)) = 1%nat
   /\ closedPeers (effects (Async.current once)) = []
   /\ held_id (Async.current once) = Some 0%nat
   /\ List.length (offers_sent (Async.current once)) = 1%nat)
  /\ (peersCreated (effects (Async.current twice)) = 2%nat
      /\ closedPeers (effects (Async.current twice)) = [0%nat]
      /\ held_id (Async.current twice) = Some 1%nat
      /\ List.length (offers_sent (Async.current twice)) = 2%nat)
  /\ observe (Async.current twice) <> observe (Async.current once).
Proof.
  cbv zeta. split; [repeat split|split; [repeat split|]].
  intros H.
  apply (f_equal (fun o => option_map pc_id (snd (fst o)))) in H.
  vm_compute in H. discriminate H.
Qed.


(** * Further properties of the code *)

(** ** Rooms and invites *)

Module RoomsFacts.
Import Rooms.

Ltac case_member :=
  match goal with
  | |- context [existsb ?f ?l] => destruct (existsb f l) eqn:?E
  end.

Lemma add_member_NoDup (conv : Z) (uid : UserId) (ms : list (Z * UserId)) :
  NoDup ms -> NoDup (add_member conv uid ms).
Proof.
  intros Hnd. unfold add_member. case_member; [exact Hnd|].
  apply NoDup_app; [exact Hnd | repeat constructor; intros [] |].
  intros x Hin [<-|[]].
  assert (Hex : existsb (fun m => ((fst m =? conv) && String.eqb (snd m) uid)%bool) ms = true).
  { apply existsb_exists. exists (conv, uid). split; [exact Hin|].
    cbn. now rewrite Z.eqb_refl, String.eqb_refl. }
  congruence.
Qed.

Lemma add_member_keeps (conv c : Z) (uid u : UserId) (ms : list (Z * UserId)) :
  In (c, u) ms -> In (c, u) (add_member conv uid ms).
Proof.
  intros Hin. unfold add_member. case_member; [exact Hin|].
  apply in_or_app. now left.
Qed.

Lemma add_member_adds (conv : Z) (uid : UserId) (ms : list (Z * UserId)) :
  In (conv, uid) (add_member conv uid ms).
Proof.
  unfold add_member. case_member.
  - apply existsb_exists in E. destruct E as ([c u] & Hin & Hc).
    cbn in Hc. apply andb_true_iff in Hc. destruct Hc as [Hc Hu].
    apply Z.eqb_eq in Hc. apply String.eqb_eq in Hu. now subst.
  - apply in_or_app. right. now left.
Qed.

Lemma is_member_In (db : Db) (conv : Z) (uid : UserId) :
  is_member db conv uid = true <-> In (conv, uid) (conversation_members db).
Proof.
  unfold is_member. rewrite existsb_exists. split.
  - intros ([c u] & Hin & Hc). cbn in Hc.
    apply andb_true_iff in Hc. destruct Hc as [Hc Hu].
    apply Z.eqb_eq in Hc. apply String.eqb_eq in Hu. now subst.
  - intros Hin. exists (conv, uid). split; [exact Hin|].
    cbn. now rewrite Z.eqb_refl, String.eqb_refl.
Qed.

Lemma use_invite_token (target : Z) (i : room_invite) :
  invite_token (use_invite target i) = invite_token i.
Proof. unfold use_invite. destruct (_ =? _); reflexivity. Qed.

Lemma use_invite_id (target : Z) (i : room_invite) :
  invite_id (use_invite target i) = invite_id i.
Proof. unfold use_invite. destruct (_ =? _); reflexivity. Qed.

Lemma map_use_invite_tokens (target : Z) (l : list room_invite) :
  map invite_token (map (use_invite target) l) = map invite_token l.
Proof.
  rewrite map_map. apply map_ext. intros i. apply use_invite_token.
Qed.

Lemma map_use_invite_ids (target : Z) (l : list room_invite) :
  map invite_id (map (use_invite target) l) = map invite_id l.
Proof.
  rewrite map_map. apply map_ext. intros i. apply use_invite_id.
Qed.

Lemma find_invite_In (db : Db) (token : string) (i : room_invite) :
  find_invite db token = Some i ->
  In i (room_invites db) /\ invite_token i = token.
Proof.
  unfold find_invite. intros H. apply find_some in H.
  destruct H as [Hin Heq]. apply String.eqb_eq in Heq. auto.
Qed.

Lemma find_invite_none (db : Db) (token : string) :
  find_invite db token = None ->
  ~ In token (map invite_token (room_invites db)).
Proof.
  unfold find_invite. intros H Hin. apply in_map_iff in Hin.
  destruct Hin as (i & Ht & Hin).
  pose proof (find_none _ _ H i Hin) as Hf. cbn in Hf.
  rewrite Ht, String.eqb_refl in Hf. discriminate.
Qed.

Lemma invite_id_inj (l : list room_invite) (a b : room_invite) :
  NoDup (map invite_id l) -> In a l -> In b l ->
  invite_id a = invite_id b -> a = b.
Proof.
  intros Hnd Ha Hb E. induction l as [|x l IH]; [destruct Ha|].
  cbn in Hnd. inversion Hnd as [|? ? Hnot Hnd']; subst.
  destruct Ha as [->|Ha], Hb as [->|Hb]; auto.
  - exfalso. apply Hnot. rewrite E. now apply in_map.
  - exfalso. apply Hnot. rewrite <- E. now apply in_map.
Qed.

(** One call keeps the constraints of the tables. *)
Lemma exec_keeps_constraints (c : Call) (db : Db) :
  db_ok db -> db_ok (snd (exec c db)).
Proof.
  intros (Hm & Ht & Hi & Hok & Hseq).
  destruct c as [uid n d | uid conv mx mins tok now | uid tok now]; cbn.
  - unfold create_conversation_room.
    destruct uid as [u|]; [|repeat split; assumption].
    destruct (has_profile db u); cbn; repeat split; try assumption.
    now apply add_member_NoDup.
  - unfold create_room_invite.
    destruct uid as [u|]; [|repeat split; assumption].
    destruct conv as [conv|]; [|repeat split; assumption].
    destruct (is_member db conv u); cbn; [|repeat split; assumption].
    assert (Hseq' : Forall (fun i => invite_id i < room_invites_seq db + 1)
                           (room_invites db)).
    { eapply Forall_impl; [|exact Hseq]. cbn. intros. lia. }
    destruct (find_invite db tok) eqn:Hf; cbn; [repeat split; assumption|].
    destruct (has_conversation db conv); cbn; [|repeat split; assumption].
    destruct (has_profile db u); cbn; [|repeat split; assumption].
    repeat split; cbn; try assumption.
    + rewrite map_app. cbn. apply NoDup_app; [exact Ht | repeat constructor; intros [] |].
      intros x Hin [<-|[]]. now apply (find_invite_none db tok Hf).
    + rewrite map_app. cbn. apply NoDup_app; [exact Hi | repeat constructor; intros [] |].
      intros x Hin [<-|[]]. apply in_map_iff in Hin.
      destruct Hin as (i & Hid & Hin).
      rewrite Forall_forall in Hseq. specialize (Hseq i Hin). lia.
    + apply Forall_app. split; [exact Hok|].
      constructor; [|constructor]. unfold invite_ok. cbn.
      destruct mx as [m|]; [destruct (m <=? 0) eqn:E|];
        try (apply Z.leb_gt in E); lia.
    + apply Forall_app. split; [exact Hseq'|].
      constructor; [|constructor]. cbn. lia.
  - unfold accept_room_invite.
    destruct uid as [u|]; [|repeat split; assumption].
    destruct (find_invite db tok) as [v|] eqn:Hf; [|repeat split; assumption].
    destruct (invite_active v); cbn; [|repeat split; assumption].
    destruct (expired v now); cbn; [repeat split; assumption|].
    destruct (used_up v) eqn:Hup; cbn; [repeat split; assumption|].
    destruct (negb (is_member db (invite_conversation_id v) u)
              && negb (has_conversation db (invite_conversation_id v)))%bool;
      cbn; [repeat split; assumption|].
    destruct (negb (is_member db (invite_conversation_id v) u)
              && negb (has_profile db u))%bool;
      cbn; [repeat split; assumption|].
    repeat split; cbn.
    + now apply add_member_NoDup.
    + now rewrite map_use_invite_tokens.
    + now rewrite map_use_invite_ids.
    + rewrite Forall_forall in *. intros i' Hin. apply in_map_iff in Hin.
      destruct Hin as (i & <- & Hin). specialize (Hok i Hin).
      unfold use_invite. destruct (invite_id i =? invite_id v) eqn:E; [|exact Hok].
      assert (i = v).
      { destruct (find_invite_In db tok v Hf) as [Hv _].
        apply Z.eqb_eq in E.
        exact (invite_id_inj (room_invites db) i v Hi Hin Hv E). }
      subst i. unfold invite_ok, used_up in *. cbn.
      destruct Hok as [H0 Hmax]. split; [lia|].
      destruct (invite_max_uses v) as [n|]; [|exact I].
      apply Z.leb_gt in Hup. lia.
    + rewrite Forall_forall in *. intros i' Hin. apply in_map_iff in Hin.
      destruct Hin as (i & <- & Hin). rewrite use_invite_id. now apply Hseq.
Qed.

Lemma find_app_found {A} (p : A -> bool) (l r : list A) (x : A) :
  find p l = Some x -> find p (l ++ r) = Some x.
Proof.
  induction l as [|y l IH]; cbn; [discriminate|].
  destruct (p y); [auto | exact IH].
Qed.

Lemma find_map_same {A} (p : A -> bool) (g : A -> A) (l : list A) :
  (forall x, p (g x) = p x) ->
  find p (map g l) = option_map g (find p l).
Proof.
  intros Hp. induction l as [|y l IH]; cbn; [reflexivity|].
  rewrite Hp. destruct (p y); [reflexivity | exact IH].
Qed.

Ltac unchanged :=
  cbn; rewrite ?andb_false_r; cbn; rewrite ?Z.add_0_r in *;
  match goal with H : exists _, _ |- _ => exact H end.

(** What one call does to the invite of [token]. *)
Lemma exec_counts (c : Call) (db : Db) (token : string) (i : room_invite) :
  db_ok db ->
  find_invite db token = Some i ->
  exists i',
    find_invite (snd (exec c db)) token = Some i'
    /\ invite_max_uses i' = invite_max_uses i
    /\ invite_used_count i' = invite_used_count i + accepted token [c] db.
Proof.
  intros (Hm & Ht & Hi & Hok & Hseq) Hf.
  assert (Hsame : exists i', find_invite db token = Some i'
                             /\ invite_max_uses i' = invite_max_uses i
                             /\ invite_used_count i' = invite_used_count i + 0)
    by (exists i; repeat split; [exact Hf | lia]).
  assert (Hplain : forall b : bool, ((b && false)%bool = false)) by
    (intros []; reflexivity).
  destruct c as [uid n d | uid conv mx mins tok now | uid tok now];
    cbn [exec snd fst accepted]; rewrite ?Z.add_0_r in *.
  - unfold create_conversation_room.
    destruct uid as [u|]; [|unchanged].
    destruct (has_profile db u); unchanged.
  - unfold create_room_invite.
    destruct uid as [u|]; [|unchanged].
    destruct conv as [conv|]; [|unchanged].
    destruct (is_member db conv u); cbn; [|unchanged].
    destruct (find_invite db tok) eqn:Hf2; cbn; [unchanged|].
    destruct (has_conversation db conv); cbn; [|unchanged].
    destruct (has_profile db u); cbn; [|unchanged].
    exists i. unfold find_invite in *. cbn.
    rewrite (find_app_found _ _ _ _ Hf). auto.
  - unfold accept_room_invite.
    destruct uid as [u|]; [|unchanged].
    destruct (find_invite db tok) as [v|] eqn:Hv;
      [|unchanged].
    destruct (invite_active v); cbn; [|unchanged].
    destruct (expired v now); cbn; [unchanged|].
    destruct (used_up v); cbn; [unchanged|].
    destruct (negb (is_member db (invite_conversation_id v) u)
              && negb (has_conversation db (invite_conversation_id v)))%bool;
      cbn; [unchanged|].
    destruct (negb (is_member db (invite_conversation_id v) u)
              && negb (has_profile db u))%bool;
      cbn; [unchanged|].
    rewrite andb_true_r. unfold find_invite in *. cbn.
    rewrite find_map_same by (intros x; now rewrite use_invite_token).
    rewrite Hf. cbn. eexists. split; [reflexivity|].
    unfold use_invite.
    destruct (String.eqb tok token) eqn:Et.
    + apply String.eqb_eq in Et. rewrite Et in Hv.
      assert (v = i) by congruence. subst v.
      rewrite Z.eqb_refl. cbn. auto.
    + destruct (find_some _ _ Hf) as [Hin_i Htok_i].
      destruct (find_some _ _ Hv) as [Hin_v Htok_v].
      apply String.eqb_eq in Htok_i, Htok_v.
      destruct (invite_id i =? invite_id v) eqn:Eid.
      * apply Z.eqb_eq in Eid.
        pose proof (invite_id_inj _ _ _ Hi Hin_i Hin_v Eid) as E.
        apply String.eqb_neq in Et. congruence.
      * split; [reflexivity | lia].
Qed.

Lemma accepted_cons (token : string) (c : Call) (rest : list Call) (db : Db) :
  accepted token (c :: rest) db
  = accepted token [c] db + accepted token rest (snd (exec c db)).
Proof. cbn [accepted]. lia. Qed.

Lemma execs_count (calls : list Call) :
  forall (db : Db) (token : string) (i : room_invite),
    db_ok db ->
    find_invite db token = Some i ->
    db_ok (execs calls db)
    /\ exists i',
      find_invite (execs calls db) token = Some i'
      /\ invite_max_uses i' = invite_max_uses i
      /\ invite_used_count i'
         = invite_used_count i + accepted token calls db.
Proof.
  induction calls as [|c rest IH]; intros db token i Hok Hf.
  - split; [exact Hok|]. exists i. cbn. repeat split; [exact Hf | lia].
  - destruct (exec_counts c db token i Hok Hf) as (i1 & H1 & H2 & H3).
    destruct (IH _ token i1 (exec_keeps_constraints c db Hok) H1)
      as (Hok' & i2 & K1 & K2 & K3).
    split; [exact Hok'|].
    exists i2. cbn [execs]. split; [exact K1|]. split; [congruence|].
    rewrite accepted_cons. lia.
Qed.

(** X1. Calls of the three functions, in any number and order, keep the
    constraints of the tables: the primary key of the members, the unique
    tokens, the identity column of the invites, [max_uses > 0],
    [used_count >= 0], and a use count within its limit. *)
Theorem calls_keep_constraints :
  forall (calls : list Call) (db : Db), db_ok db -> db_ok (execs calls db).
Proof.
  intros calls. induction calls as [|c rest IH]; intros db Hok.
  - exact Hok.
  - cbn [execs]. apply IH. apply exec_keeps_constraints. exact Hok.
Qed.

(** X2. An invite is never accepted more often than its limit allows:
    across any sequence of calls, the number of accepts of a token that
    return is at most [max_uses - used_count]. *)
Theorem accepts_within_limit :
  forall (calls : list Call) (db : Db) (token : string) (i : room_invite)
         (n : Z),
    db_ok db ->
    find_invite db token = Some i ->
    invite_max_uses i = Some n ->
    accepted token calls db <= n - invite_used_count i.
Proof.
  intros calls db token i n Hok Hf Hmax.
  destruct (execs_count calls db token i Hok Hf)
    as ((_ & _ & _ & Hall & _) & i' & H1 & H2 & H3).
  rewrite Forall_forall in Hall.
  destruct (find_invite_In _ _ _ H1) as [Hin _].
  destruct (Hall i' Hin) as [_ Hlim].
  rewrite H2, Hmax in Hlim. lia.
Qed.

(** X3. No call removes a member. *)
Theorem members_are_kept :
  forall (c : Call) (db : Db) (conv : Z) (u : UserId),
    is_member db conv u = true ->
    is_member (snd (exec c db)) conv u = true.
Proof.
  intros c db conv u Hm. rewrite is_member_In in *.
  destruct c as [uid n d | uid cv mx mins tok now | uid tok now]; cbn.
  - unfold create_conversation_room.
    destruct uid as [v|]; [|exact Hm].
    destruct (has_profile db v); cbn; [|exact Hm].
    now apply add_member_keeps.
  - unfold create_room_invite.
    destruct uid as [v|]; [|exact Hm].
    destruct cv as [cv|]; [|exact Hm].
    destruct (is_member db cv v); cbn; [|exact Hm].
    destruct (find_invite db tok); cbn; [exact Hm|].
    destruct (has_conversation db cv); cbn; [|exact Hm].
    destruct (has_profile db v); exact Hm.
  - unfold accept_room_invite.
    destruct uid as [v|]; [|exact Hm].
    destruct (find_invite db tok) as [i|]; [|exact Hm].
    destruct (invite_active i); cbn; [|exact Hm].
    destruct (expired i now); cbn; [exact Hm|].
    destruct (used_up i); cbn; [exact Hm|].
    repeat (match goal with
            | |- context [if ?b then _ else _] => destruct b; cbn
            end); try exact Hm.
    now apply add_member_keeps.
Qed.

(** X4. An accept that returns has found an active invite that is neither
    expired nor used up; it returns the invite's conversation and the
    caller is a member of it afterwards. *)
Theorem accept_joins_the_room :
  forall (u : option UserId) (token : string) (now conv : Z) (db db' : Db),
    accept_room_invite u token now db = Returned conv db' ->
    exists me i,
      u = Some me
      /\ find_invite db token = Some i
      /\ invite_active i = true
      /\ expired i now = false
      /\ used_up i = false
      /\ conv = invite_conversation_id i
      /\ is_member db' conv me = true.
Proof.
  intros u token now conv db db'. unfold accept_room_invite.
  destruct u as [me|]; [|discriminate].
  destruct (find_invite db token) as [i|]; [|discriminate].
  destruct (invite_active i) eqn:Ha; cbn; [|discriminate].
  destruct (expired i now) eqn:He; cbn; [discriminate|].
  destruct (used_up i) eqn:Hu; cbn; [discriminate|].
  repeat (match goal with
          | |- context [if ?b then _ else _] => destruct b; cbn
          end); try discriminate.
  intros H. injection H as <- <-.
  exists me, i. repeat split; try assumption.
  apply is_member_In. cbn. apply add_member_adds.
Qed.

Import RoomsExamples.

Lemma calls_keep_constraints_witness :
  db_ok (execs [AcceptInvite (Some bob) "0f3c" 5;
                CreateRoom (Some bob) (Some "Lab") None] with_link).
Proof.
  apply (calls_keep_constraints
           [AcceptInvite (Some bob) "0f3c" 5;
            CreateRoom (Some bob) (Some "Lab") None] with_link).
  unfold db_ok. vm_compute.
  repeat split; repeat constructor; cbn; try lia; try tauto;
    intros H; repeat destruct H as [H|H]; try discriminate; try contradiction.
Defined.

Lemma accepts_within_limit_witness :
  accepted "0f3c"
    [AcceptInvite (Some bob) "0f3c" 5; AcceptInvite (Some alice) "0f3c" 6]
    with_link
  <= 1 - 0.
Proof.
  apply (accepts_within_limit
           [AcceptInvite (Some bob) "0f3c" 5; AcceptInvite (Some alice) "0f3c" 6]
           with_link "0f3c"
           {| invite_id := 1; invite_conversation_id := 1;
              invite_token := "0f3c"; invite_created_by := alice;
              invite_active := true; invite_max_uses := Some 1;
              invite_used_count := 0;
              invite_expires_at := Some 604800000000 |} 1).
  - unfold db_ok. vm_compute.
    repeat split; repeat constructor; cbn; try lia; try tauto;
      intros H; repeat destruct H as [H|H]; try discriminate;
      try contradiction.
  - reflexivity.
  - reflexivity.
Defined.

Lemma members_are_kept_witness :
  is_member (snd (exec (AcceptInvite (Some bob) "0f3c" 5) with_link)) 1 alice
  = true.
Proof.
  apply (members_are_kept (AcceptInvite (Some bob) "0f3c" 5) with_link 1 alice).
  reflexivity.
Defined.

Lemma accept_joins_the_room_witness :
  exists me i,
    Some bob = Some me
    /\ find_invite with_link "0f3c" = Some i
    /\ invite_active i = true
    /\ expired i 5 = false
    /\ used_up i = false
    /\ 1 = invite_conversation_id i
    /\ is_member (snd (exec (AcceptInvite (Some bob) "0f3c" 5) with_link))
                 1 me = true.
Proof.
  apply (accept_joins_the_room (Some bob) "0f3c" 5 1 with_link
           (snd (exec (AcceptInvite (Some bob) "0f3c" 5) with_link))).
  reflexivity.
Defined.

Lemma find_app_new {A} (p : A -> bool) (l : list A) (x : A) :
  find p l = None -> p x = true -> find p (l ++ [x]) = Some x.
Proof.
  intros Hn Hx. induction l as [|y l IH]; cbn in *; [now rewrite Hx|].
  destruct (p y); [discriminate | auto].
Qed.

(** X5. The link the client creates can be used once. If
    [createInviteLink] returns, the first accept within seven days, by
    any user with a profile, returns the room; every accept after it is
    refused, with "Invite usage limit reached" while the link has not
    expired. *)
Theorem invite_link_is_single_use :
  forall (db db1 : Db) (u a b : UserId) (conv : Z) (token : string)
         (now t1 t2 : Z),
    exec (createInviteLink (Some u) conv token now) db = (true, db1) ->
    has_profile db a = true ->
    t1 <= now + 7 * 24 * 60 * 60000000 ->
    exists db2,
      accept_room_invite (Some a) token t1 db1 = Returned conv db2
      /\ succeeded (accept_room_invite (Some b) token t2 db2) = false
      /\ (t2 <= now + 7 * 24 * 60 * 60000000 ->
          accept_room_invite (Some b) token t2 db2
          = Raised "Invite usage limit reached" db2).
Proof.
  intros db db1 u a b conv token now t1 t2 Hcreate Ha Ht1.
  unfold createInviteLink, exec, create_room_invite in Hcreate.
  destruct (is_member db conv u); cbn in Hcreate; [|discriminate].
  destruct (find_invite db token) eqn:Hf; cbn in Hcreate; [discriminate|].
  destruct (has_conversation db conv) eqn:Hc; cbn in Hcreate; [|discriminate].
  destruct (has_profile db u); cbn in Hcreate; [|discriminate].
  injection Hcreate as <-.
  set (inv := {| invite_id := room_invites_seq db;
                 invite_conversation_id := conv;
                 invite_token := token;
                 invite_created_by := u;
                 invite_active := true;
                 invite_max_uses := Some 1;
                 invite_used_count := 0;
                 invite_expires_at := Some (now + 604800000000) |}).
  assert (Hnew : find (fun i => String.eqb (invite_token i) token)
                       (room_invites db ++ [inv]) = Some inv)
    by (apply find_app_new; [exact Hf | apply String.eqb_refl]).
  unfold accept_room_invite at 1. unfold find_invite at 1. cbn.
  rewrite Hnew. cbn.
  assert (E1 : (now + 604800000000 <? t1) = false)
    by (apply Z.ltb_ge; lia).
  unfold expired. cbn. rewrite E1. cbn.
  unfold has_conversation, has_profile in *. cbn. rewrite Hc, Ha.
  rewrite !andb_false_r. eexists. split; [reflexivity|].
  unfold accept_room_invite, find_invite. cbn.
  rewrite find_map_same by (intros x; now rewrite use_invite_token).
  rewrite Hnew. cbn. unfold use_invite. cbn. rewrite Z.eqb_refl. cbn.
  unfold expired. cbn.
  destruct (now + 604800000000 <? t2) eqn:E2.
  - split; [reflexivity|]. intros Hlate. apply Z.ltb_lt in E2. lia.
  - split; [reflexivity|]. reflexivity.
Qed.

Lemma invite_link_is_single_use_witness :
  exists db2,
    accept_room_invite (Some bob) "0f3c" 5 with_link = Returned 1 db2
    /\ succeeded (accept_room_invite (Some alice) "0f3c" 6 db2) = false
    /\ (6 <= 0 + 7 * 24 * 60 * 60000000 ->
        accept_room_invite (Some alice) "0f3c" 6 db2
        = Raised "Invite usage limit reached" db2).
Proof.
  apply (invite_link_is_single_use with_room with_link alice bob alice 1
           "0f3c" 0 5 6).
  - reflexivity.
  - reflexivity.
  - vm_compute. discriminate.
Defined.

Lemma drop_blanks_split (l : list ascii) :
  exists k, l = repeat " "%char k ++ drop_blanks l.
Proof.
  induction l as [|c l IH]; [exists 0%nat; reflexivity|].
  cbn. destruct (Ascii.eqb c " ") eqn:E.
  - apply Ascii.eqb_eq in E. subst c. destruct IH as [k IH].
    exists (S k). cbn. now rewrite <- IH.
  - exists 0%nat.
    destruct c as [[] [] [] [] [] [] [] []]; try reflexivity.
    discriminate.
Qed.

Lemma drop_blanks_head (l : list ascii) :
  hd_error (drop_blanks l) <> Some " "%char.
Proof.
  induction l as [|c l IH]; [discriminate|].
  cbn. destruct c as [[] [] [] [] [] [] [] []]; try discriminate.
  exact IH.
Qed.

(** The characters of a trimmed name: no blank at either end. *)
Lemma trim_ends (s : string) :
  hd_error (list_ascii_of_string (trim s)) <> Some " "%char
  /\ hd_error (rev (list_ascii_of_string (trim s))) <> Some " "%char.
Proof.
  unfold trim. rewrite list_ascii_of_string_of_list_ascii.
  set (L := drop_blanks (list_ascii_of_string s)).
  split.
  - destruct (drop_blanks_split (rev L)) as [k Hk].
    assert (HL : L = rev (drop_blanks (rev L)) ++ repeat " "%char k).
    { rewrite <- (rev_involutive L) at 1. rewrite Hk at 1.
      rewrite rev_app_distr. f_equal.
      clear. induction k as [|k IH]; [reflexivity|].
      cbn. rewrite IH. clear. induction k; cbn; [reflexivity|]. now f_equal. }
    pose proof (drop_blanks_head (list_ascii_of_string s)) as Hh.
    fold L in Hh. rewrite HL in Hh.
    destruct (rev (drop_blanks (rev L))); [discriminate | exact Hh].
  - rewrite rev_involutive. apply drop_blanks_head.
Qed.

Lemma room_name_ends (p_name : option string) :
  room_name p_name <> ""
  /\ hd_error (list_ascii_of_string (room_name p_name)) <> Some " "%char
  /\ hd_error (rev (list_ascii_of_string (room_name p_name))) <> Some " "%char.
Proof.
  unfold room_name. destruct p_name as [n|].
  - destruct (String.eqb (trim n) "") eqn:E.
    + repeat split; discriminate.
    + apply String.eqb_neq in E. destruct (trim_ends n). auto.
  - repeat split; discriminate.
Qed.

(** X6. A room that [create_conversation_room] creates has its creator
    as a member and as [created_by], and a name that is not empty and
    has no blank at either end. *)
Theorem created_room_has_creator_and_name :
  forall (uid : option UserId) (p_name p_description : option string)
         (db db' : Db) (id : Z),
    create_conversation_room uid p_name p_description db = Returned id db' ->
    exists u room,
      uid = Some u
      /\ is_member db' id u = true
      /\ In room (conversations db')
      /\ conv_id room = id
      /\ conv_created_by room = Some u
      /\ conv_name room <> ""
      /\ hd_error (list_ascii_of_string (conv_name room)) <> Some " "%char
      /\ hd_error (rev (list_ascii_of_string (conv_name room)))
         <> Some " "%char.
Proof.
  intros uid n d db db' id. unfold create_conversation_room.
  destruct uid as [u|]; [|discriminate].
  destruct (has_profile db u); [|discriminate].
  intros H. injection H as <- <-.
  destruct (room_name_ends n) as (N1 & N2 & N3).
  exists u. eexists. split; [reflexivity|]. split.
  - apply is_member_In. cbn. apply add_member_adds.
  - split; [cbn; apply in_or_app; right; left; reflexivity|].
    cbn. auto.
Qed.

Lemma created_room_has_creator_and_name_witness :
  exists u room,
    Some alice = Some u
    /\ is_member with_room 1 u = true
    /\ In room (conversations with_room)
    /\ conv_id room = 1
    /\ conv_created_by room = Some u
    /\ conv_name room <> ""
    /\ hd_error (list_ascii_of_string (conv_name room)) <> Some " "%char
    /\ hd_error (rev (list_ascii_of_string (conv_name room)))
       <> Some " "%char.
Proof.
  apply (created_room_has_creator_and_name (Some alice) (Some "  Design ")
           None two_users with_room 1).
  reflexivity.
Defined.

End RoomsFacts.

(** ** The token endpoint and the resolver that calls it *)

Module TurnEndpointFacts.
Import TurnEndpoint.

Lemma clampTtl_bounds (n : JsNumber) : 60 <= clampTtl n <= 86400.
Proof.
  unfold clampTtl. destruct n as [| |q]; try lia.
  destruct (Qlt_le_dec 0 q); lia.
Qed.

Lemma keep_servers_cons (e : JsVal) (l : list JsVal) :
  keep_servers (e :: l) = (keep_servers [e] ++ keep_servers l)%list.
Proof.
  cbn.
  match goal with
  | |- context [match ?x with _ => _ end] => destruct x
  end; reflexivity.
Qed.

(** An entry the endpoint writes is one the client keeps. *)
Lemma emitted_entry_accepted (entry out : JsVal) :
  TurnEndpoint.normalizeIceServer entry = Some (Some out) ->
  exists server, keep_servers [out] = [server].
Proof.
  unfold TurnEndpoint.normalizeIceServer.
  destruct (prop_of entry "urls") as [a|]; [|discriminate].
  destruct (prop_of entry "url") as [b|]; [|discriminate].
  destruct (prop_of entry "username") as [user|]; [|discriminate].
  destruct (prop_of entry "credential") as [cred|]; [|discriminate].
  destruct (nullish_or a b) as [| | | |u|items|] eqn:Eu; try discriminate.
  - intros H. injection H as <-. eexists. reflexivity.
  - destruct (every_string items) as [ss|] eqn:Es; [|discriminate].
    intros H. injection H as <-.
    eexists. cbn. rewrite Es. reflexivity.
Qed.

Lemma emitted_servers_accepted (entries l : list JsVal) :
  normalize_all entries = Some l ->
  List.length (keep_servers l) = List.length l.
Proof.
  revert l. induction entries as [|e rest IH]; intros l; cbn.
  - intros H. injection H as <-. reflexivity.
  - destruct (TurnEndpoint.normalizeIceServer e) as [[out|]|] eqn:Ee;
      [| |discriminate];
      destruct (normalize_all rest) as [l'|]; try discriminate;
      intros H; injection H as <-.
    + destruct (emitted_entry_accepted e out Ee) as [server Hout].
      rewrite keep_servers_cons, Hout. cbn. now rewrite (IH l' eq_refl).
    + exact (IH l' eq_refl).
Qed.

Lemma usable_servers_accepted (payload : JsVal) (l : list JsVal) :
  usable_servers payload = Some l ->
  List.length (sanitizeIceServers (JArr l)) = List.length l.
Proof.
  unfold usable_servers.
  destruct (prop_of payload "ice_servers") as [[| | | | |entries|]|];
    try discriminate.
  - intros H. now injection H as <-.
  - intros H. now injection H as <-.
  - apply emitted_servers_accepted.
Qed.

(** What the handler answers, by the kind of its body. *)
Lemma serve_cases (method : Method) (env : Env) (twilio : TwilioOutcome) :
  match body (serve method env twilio) with
  | PlainOk => status (serve method env twilio) = 200
  | ErrorBody _ _ =>
      status (serve method env twilio) = 405
      \/ status (serve method env twilio) = 500
      \/ status (serve method env twilio) = 502
  | IceBody l ttl =>
      status (serve method env twilio) = 200
      /\ l <> []
      /\ 60 <= ttl <= 86400
      /\ List.length (sanitizeIceServers (JArr l)) = List.length l
  end.
Proof.
  unfold serve. destruct method; cbn; auto.
  destruct (truthy_opt (TWILIO_ACCOUNT_SID env)
            && truthy_opt (TWILIO_AUTH_TOKEN env))%bool; cbn; auto.
  destruct twilio as [e|[|] details [e|payload]]; cbn; auto.
  destruct (usable_servers payload) as [[|x l]|] eqn:Eu; cbn; auto.
  repeat split; try discriminate; try apply clampTtl_bounds.
  exact (usable_servers_accepted payload (x :: l) Eu).
Qed.

Lemma floor_of_seconds (ttl : Z) :
  0 < ttl -> positive_floor_or (JFinite (inject_Z ttl)) 600 = ttl.
Proof.
  intros Hpos. unfold positive_floor_or.
  destruct (Qlt_le_dec 0 (inject_Z ttl)) as [_|Hle].
  - apply Qfloor_Z.
  - exfalso. change 0%Q with (inject_Z 0) in Hle.
    rewrite <- Zle_Qle in Hle. lia.
Qed.

(** What the client's [fetch] makes of the handler's answer. *)
Lemma usable_answer (h : Host) (method : Method) (env : Env)
    (twilio : TwilioOutcome) :
  iceFetch h = as_fetch (serve method env twilio) ->
  match body (serve method env twilio) with
  | IceBody l ttl =>
      usable_response h
      = Some {| iceServers := JArr l; ttlSeconds := JFinite (inject_Z ttl) |}
  | _ => usable_response h = None
  end.
Proof.
  intros Hfetch. unfold usable_response. rewrite Hfetch.
  pose proof (serve_cases method env twilio) as Hcases.
  unfold as_fetch.
  destruct (body (serve method env twilio)) as [|err details|l ttl].
  - now destruct (_ && _)%bool.
  - now destruct (_ && _)%bool.
  - destruct Hcases as (-> & Hne & _ & Hlen). cbn.
    destruct (keep_servers l) eqn:Ek; [|reflexivity].
    cbn in Hlen. rewrite Ek in Hlen. destruct l; [contradiction|discriminate].
Qed.

(** X7. The resolver against the endpoint. With no fresh cache, a request
    the endpoint answers with servers makes the resolver return all of
    them (the client drops no entry the endpoint wrote), in mode
    [dynamic], cached until [max 30 (ttl - 60)] seconds from now, where
    [60 <= ttl <= 86400]; every other answer of the endpoint (a wrong
    method, a missing secret, a failure of Twilio, no usable server) makes
    it return the configured servers in mode [env] and leaves the cache
    as it was. *)
Theorem endpoint_answer_decides :
  forall (h : Host) (s : State) (method : Method) (env : Env)
         (twilio : TwilioOutcome),
    iceFetch h = as_fetch (serve method env twilio) ->
    cache_fresh h (dynamicIceCacheRef (ice s)) = None ->
    let s' := snd (resolveIceServers h s) in
    match body (serve method env twilio) with
    | IceBody l ttl =>
        fst (resolveIceServers h s) = Ok (sanitizeIceServers (JArr l))
        /\ List.length (sanitizeIceServers (JArr l)) = List.length l
        /\ l <> []
        /\ 60 <= ttl <= 86400
        /\ currentIceServers (ice s') = sanitizeIceServers (JArr l)
        /\ iceConfigMode (ice s') = mode_dynamic
        /\ dynamicIceCacheRef (ice s')
           = Some {| servers := sanitizeIceServers (JArr l);
                     expiresAt := now h + Z.max 30 (ttl - 60) * 1000 |}
    | _ =>
        fst (resolveIceServers h s) = Ok (ICE_SERVERS h)
        /\ currentIceServers (ice s') = ICE_SERVERS h
        /\ iceConfigMode (ice s') = mode_env
        /\ dynamicIceCacheRef (ice s') = dynamicIceCacheRef (ice s)
    end.
Proof.
  intros h s method env twilio Hfetch Hstale s'. subst s'.
  pose proof (usable_answer h method env twilio Hfetch) as Hans.
  pose proof (serve_cases method env twilio) as Hcases.
  destruct (body (serve method env twilio)) as [|err details|l ttl].
  - now apply resolve_fallback.
  - now apply resolve_fallback.
  - destruct Hcases as (_ & Hne & Httl & Hlen).
    destruct (resolve_fetched h s _ Hstale Hans)
      as (Hret & _ & Hcache & Hcur & Hmode & _).
    cbn [iceServers ttlSeconds] in *.
    rewrite floor_of_seconds in Hcache by lia.
    repeat split; try assumption; lia.
Qed.

Lemma endpoint_answer_decides_witness :
  fst (resolveIceServers (endpoint_host 0) alice_idle)
  = Ok (sanitizeIceServers
          (JArr [ JObj [ ("urls", JStr "stun:global.stun.twilio.com:3478") ];
                  JObj [ ("urls", JStr "turn:global.turn.twilio.com:3478");
                         ("username", JStr "u1");
                         ("credential", JStr "c1") ] ])).
Proof.
  exact (proj1 (endpoint_answer_decides (endpoint_host 0) alice_idle POST
                  configured (TwilioResponse true "" (inr twilio_token))
                  eq_refl eq_refl)).
Defined.

(** X8. A configuration taken from the cache has more than 45 seconds
    left of the lifetime the endpoint reported: when the answer fetched at
    [now h0] is served again from the cache at [now h1], then
    [now h1 + 45000 < now h0 + ttl * 1000]. *)
Theorem cached_servers_still_valid :
  forall (h0 h1 : Host) (s : State) (method : Method) (env : Env)
         (twilio : TwilioOutcome) (l : list JsVal) (ttl : Z)
         (cachedServers : list RTCIceServer),
    iceFetch h0 = as_fetch (serve method env twilio) ->
    body (serve method env twilio) = IceBody l ttl ->
    cache_fresh h0 (dynamicIceCacheRef (ice s)) = None ->
    cache_fresh h1 (dynamicIceCacheRef (ice (snd (resolveIceServers h0 s))))
    = Some cachedServers ->
    cachedServers = sanitizeIceServers (JArr l)
    /\ resolveIceServers h1 (snd (resolveIceServers h0 s))
       = (Ok cachedServers, snd (resolveIceServers h0 s))
    /\ now h1 + 45000 < now h0 + ttl * 1000.
Proof.
  intros h0 h1 s method env twilio l ttl cachedServers Hfetch Hbody Hstale.
  pose proof (usable_answer h0 method env twilio Hfetch) as Hans.
  pose proof (serve_cases method env twilio) as Hcases.
  rewrite Hbody in Hans, Hcases.
  destruct Hcases as (_ & _ & Httl & _).
  destruct (resolve_fetched h0 s _ Hstale Hans) as (_ & _ & Hcache & _).
  cbn [iceServers ttlSeconds] in Hcache.
  rewrite floor_of_seconds in Hcache by lia.
  set (s1 := snd (resolveIceServers h0 s)) in *.
  intros Hfresh. unfold cache_fresh in Hfresh. rewrite Hcache in Hfresh.
  cbn [expiresAt servers] in Hfresh.
  destruct (now h1 + 15000 <? now h0 + Z.max 30 (ttl - 60) * 1000) eqn:E;
    [|discriminate].
  injection Hfresh as <-. apply Z.ltb_lt in E.
  split; [reflexivity|]. split.
  - apply (resolve_cached h1 s1 _ Hcache). cbn. exact E.
  - lia.
Qed.

Lemma cached_servers_still_valid_witness :
  now (endpoint_host 10000) + 45000
  < now (endpoint_host 0) + 60 * 1000.
Proof.
  exact (proj2 (proj2
    (cached_servers_still_valid (endpoint_host 0) (endpoint_host 10000)
       alice_idle POST configured (TwilioResponse true "" (inr twilio_token))
       _ 60 _ eq_refl eq_refl eq_refl eq_refl))).
Defined.

End TurnEndpointFacts.

(** ** Unread counters *)

Module UnreadFacts.
Import MessageSync Unread.

Lemma insert_counts (myId : UserId) (active : option Z)
    (inserted : InsertedMessagePayload) (current : Counters) (c : Z) :
  onMessageInsert_unread myId active inserted current c
  = (current c
     + if (counts_for myId c inserted
           && negb (match active with
                   | Some a => (c =? a)%Z
                   | None => false
                   end))%bool
       then 1 else 0)%nat.
Proof.
  unfold onMessageInsert_unread, counts_for, set_counter.
  destruct (ins_id inserted) as [i|]; [|cbn; lia].
  destruct (ins_conversation_id inserted) as [k|]; [|cbn; lia].
  destruct (String.eqb (ins_sender_id inserted) myId);
    [rewrite andb_false_r; cbn; lia|].
  rewrite andb_true_r.
  destruct active as [a|].
  - destruct (k =? a) eqn:Eka.
    + apply Z.eqb_eq in Eka. subst a. rewrite (Z.eqb_sym c k).
      destruct (k =? c); cbn; lia.
    + rewrite (Z.eqb_sym c k). destruct (k =? c) eqn:Ekc; [|cbn; lia].
      apply Z.eqb_eq in Ekc. subst c. rewrite Eka. cbn. lia.
  - rewrite (Z.eqb_sym c k). destruct (k =? c) eqn:Ekc; [|cbn; lia].
    apply Z.eqb_eq in Ekc. subst c. cbn. lia.
Qed.

Lemma onView_counts (active c : Z) (current : Counters) :
  onView active current c = if c =? active then 0%nat else current c.
Proof.
  unfold onView, set_counter.
  destruct (current active) eqn:E; [|reflexivity].
  destruct (c =? active) eqn:Ec; [|reflexivity].
  apply Z.eqb_eq in Ec. now subst c.
Qed.

(** X9. The unread counters while a conversation is open. After the
    conversation [active] is opened and any number of messages arrive,
    its own counter is 0, and the counter of every other conversation has
    grown by the number of arrived messages of that conversation that
    carry an id and were sent by someone else. *)
Theorem unread_while_viewing :
  forall (myId : UserId) (active : Z) (arrived : list InsertedMessagePayload)
         (current : Counters) (c : Z),
    fold_left (fun m inserted =>
                 onMessageInsert_unread myId (Some active) inserted m)
              arrived (onView active current) c
    = if c =? active then 0%nat
      else (current c + List.length (filter (counts_for myId c) arrived))%nat.
Proof.
  intros myId active arrived current c.
  assert (Hfold : forall m,
             fold_left (fun m inserted =>
                          onMessageInsert_unread myId (Some active) inserted m)
                       arrived m c
             = if c =? active then m c
               else (m c + List.length (filter (counts_for myId c) arrived))%nat).
  { induction arrived as [|inserted rest IH]; intros m.
    - cbn. destruct (c =? active); lia.
    - cbn [fold_left filter]. rewrite IH, insert_counts.
      destruct (c =? active); cbn [negb].
      + rewrite andb_false_r. lia.
      + rewrite andb_true_r.
        destruct (counts_for myId c inserted); cbn [List.length]; lia. }
  rewrite Hfold, onView_counts. destruct (c =? active); reflexivity.
Qed.

End UnreadFacts.

(** ** More on the message list *)

Module ChatFacts.
Import MessageSync.

Lemma existsb_id_In (i : Z) (ms : list ChatMessage) :
  existsb (fun m => msg_id m =? i) ms = false -> ~ In i (map msg_id ms).
Proof.
  intros Hnone Hin. apply in_map_iff in Hin. destruct Hin as (m & Hid & Hin).
  assert (Hex : existsb (fun m => msg_id m =? i) ms = true).
  { apply existsb_exists. exists m. split; [exact Hin|]. now apply Z.eqb_eq. }
  congruence.
Qed.

Lemma feed_keeps_ids_distinct (fc : string -> string)
    (inserted : InsertedMessagePayload) (c : Chat) :
  NoDup (map msg_id (messages c)) ->
  NoDup (map msg_id (messages (onMessageInsert fc inserted c))).
Proof.
  intros Hnd. unfold onMessageInsert.
  destruct (user c), (ins_id inserted) as [j|],
           (ins_conversation_id inserted) as [k|]; try exact Hnd.
  destruct (conversation c) as [active|]; [|exact Hnd].
  destruct (k =? active); [|exact Hnd]. cbn [messages setMessages].
  destruct (existsb (fun m => msg_id m =? j) (messages c)) eqn:E;
    [exact Hnd|].
  rewrite map_app. cbn. apply NoDup_app; [exact Hnd | repeat constructor; intros [] |].
  intros x Hin [<-|[]]. now apply (existsb_id_In j (messages c)).
Qed.

(** X10. The realtime handler alone never shows a message twice: when
    the ids of the list are distinct, they are distinct after any number
    of INSERT notifications, repeated or not. *)
Theorem feed_never_duplicates :
  forall (fc : string -> string) (feeds : list InsertedMessagePayload)
         (c : Chat),
    NoDup (map msg_id (messages c)) ->
    NoDup (map msg_id
             (messages
                (fold_left (fun acc inserted => onMessageInsert fc inserted acc)
                           feeds c))).
Proof.
  intros fc feeds. induction feeds as [|inserted rest IH]; intros c Hnd.
  - exact Hnd.
  - cbn [fold_left]. apply IH. now apply feed_keeps_ids_distinct.
Qed.

Lemma feed_never_duplicates_witness :
  NoDup (map msg_id
           (messages
              (fold_left
                 (fun acc inserted => onMessageInsert (fun t => t) inserted acc)
                 [hello_insert; hello_insert] alice_chat))).
Proof.
  apply (feed_never_duplicates (fun t => t) [hello_insert; hello_insert]
           alice_chat).
  vm_compute. constructor.
Defined.

Lemma filter_absent (i : Z) (ms : list ChatMessage) :
  count_id i ms = 0%nat ->
  filter (fun m => negb (msg_id m =? i)) ms = ms.
Proof.
  unfold count_id. induction ms as [|m ms IH]; [reflexivity|].
  cbn. destruct (msg_id m =? i); cbn; [discriminate|].
  intros H. now rewrite IH.
Qed.

Lemma existsb_filter_other (i j : Z) (ms : list ChatMessage) :
  j <> i ->
  existsb (fun m => msg_id m =? j)
          (filter (fun m => negb (msg_id m =? i)) ms)
  = existsb (fun m => msg_id m =? j) ms.
Proof.
  intros Hne. induction ms as [|m ms IH]; [reflexivity|].
  cbn. destruct (msg_id m =? i) eqn:Ei; cbn; [|now rewrite IH].
  apply Z.eqb_eq in Ei.
  assert (Ej : (msg_id m =? j) = false) by (apply Z.eqb_neq; congruence).
  now rewrite Ej, IH.
Qed.

(** A feed insert with another id commutes with dropping the entries of
    id [i]. *)
Lemma feed_commutes_with_rollback (fc : string -> string)
    (inserted : InsertedMessagePayload) (i : Z) (a b : Chat) :
  ins_id inserted <> Some i ->
  user a = user b ->
  conversation a = conversation b ->
  filter (fun m => negb (msg_id m =? i)) (messages a) = messages b ->
  user (onMessageInsert fc inserted a) = user (onMessageInsert fc inserted b)
  /\ conversation (onMessageInsert fc inserted a)
     = conversation (onMessageInsert fc inserted b)
  /\ filter (fun m => negb (msg_id m =? i))
            (messages (onMessageInsert fc inserted a))
     = messages (onMessageInsert fc inserted b).
Proof.
  intros Hid Hu Hc Hm. unfold onMessageInsert. rewrite <- Hu, <- Hc.
  destruct (user a) eqn:Ea, (ins_id inserted) as [j|],
           (ins_conversation_id inserted) as [k|];
    try (repeat split; congruence).
  destruct (conversation a) as [active|] eqn:Eactive;
    [|repeat split; congruence].
  destruct (k =? active); [|repeat split; congruence].
  cbn [user conversation messages setMessages].
  split; [congruence|]. split; [congruence|].
  assert (Hne : j <> i) by congruence.
  rewrite <- Hm, existsb_filter_other by exact Hne.
  destruct (existsb (fun m => msg_id m =? j) (messages a)); [reflexivity|].
  rewrite filter_app. cbn.
  assert (Ej : (j =? i) = false) by now apply Z.eqb_neq.
  now rewrite Ej.
Qed.

(** X11. A send the database refuses is rolled back. When no entry
    carries the placeholder id, then after [sendMessage] and the error
    response the list is what the realtime notifications that arrived in
    between (for other ids) would have made of the original one; the
    composer is free again and the error message is shown. *)
Theorem failed_send_is_rolled_back :
  forall (fc : string -> string) (nowMs : Z)
         (isoTime trimmed message : string)
         (feeds : list InsertedMessagePayload) (c : Chat)
         (u : UserId) (conv : Z),
    user c = Some u ->
    conversation c = Some conv ->
    truthy trimmed = true ->
    composerBusy c = false ->
    count_id (- nowMs) (messages c) = 0%nat ->
    Forall (fun inserted => ins_id inserted <> Some (- nowMs)) feeds ->
    let after :=
      send_and_receive fc nowMs isoTime trimmed
        (map FeedInsert feeds ++ [Response (inl message)]) c in
    messages after
    = messages (fold_left (fun acc inserted => onMessageInsert fc inserted acc)
                          feeds c)
    /\ composerBusy after = false
    /\ chatError after = Some message.
Proof.
  intros fc nowMs isoTime trimmed message feeds c u conv
         Hu Hconv Htrim Hbusy Hopt Hfeeds after. subst after.
  unfold send_and_receive, sendMessage_submit.
  rewrite Hu, Hconv, Htrim, Hbusy. cbn [negb orb].
  rewrite fold_left_app. cbn [fold_left arrive sendMessage_settle].
  cbn [messages composerBusy chatError setMessages setComposerBusy
       setChatError optimisticId].
  split; [|split; reflexivity].
  set (c1 := setChatError None _).
  assert (Hrel : user c1 = user c /\ conversation c1 = conversation c
                 /\ filter (fun m => negb (msg_id m =? - nowMs)) (messages c1)
                    = messages c).
  { subst c1. cbn. repeat split.
    rewrite filter_app. cbn. rewrite Z.eqb_refl. cbn.
    rewrite app_nil_r. now apply filter_absent. }
  clearbody c1. clear Hu Hconv Hbusy Hopt. revert c c1 Hrel.
  induction Hfeeds as [|inserted rest Hid Hrest IH];
    intros c c1 (R1 & R2 & R3).
  - exact R3.
  - cbn [map fold_left arrive]. apply IH.
    exact (feed_commutes_with_rollback fc inserted (- nowMs) c1 c
             Hid R1 R2 R3).
Qed.

Lemma failed_send_is_rolled_back_witness :
  messages
    (send_and_receive (fun t => t) 1767261600000 "2026-01-01T10:00:00Z"
       "hello" (map FeedInsert [hello_insert] ++ [Response (inl "refused")])
       alice_chat)
  = messages (onMessageInsert (fun t => t) hello_insert alice_chat).
Proof.
  apply (failed_send_is_rolled_back (fun t => t) 1767261600000
           "2026-01-01T10:00:00Z" "hello" "refused" [hello_insert]
           alice_chat alice 7);
    try reflexivity.
  repeat constructor. vm_compute. discriminate.
Defined.

End ChatFacts.

(** ** The update policies and the updates the client sends *)

Lemma accept_issues (h : Host) (s : State) (me : UserId) (inc : ActiveCall) :
  currentUser s = Some me ->
  incomingCall (view s) = Some inc ->
  exists rest,
    issued (acceptIncomingCall h) s
    = UpdateCallRequest (ac_id inc) accepted (Some me) :: rest
    /\ forall i st who, ~ In (UpdateCallRequest i st who) rest.
Proof.
  intros Hme Hinc. unfold issued, acceptIncomingCall. monad_simpl.
  rewrite Hme, Hinc. destruct (updateCallRequest h); cbn.
  - exists []. rewrite skipn_own_length. split; [reflexivity|]. intros i st who [].
  - eexists [_]. rewrite <- app_assoc, skipn_own_length.
    split; [reflexivity|]. intros i st who [H|[]]. discriminate.
Qed.

Lemma reject_issues (h : Host) (s : State) (me : UserId) (inc : ActiveCall) :
  currentUser s = Some me ->
  incomingCall (view s) = Some inc ->
  issued (rejectIncomingCall h) s
  = [UpdateCallRequest (ac_id inc) rejected (Some me)].
Proof.
  intros Hme Hinc. unfold issued, rejectIncomingCall. monad_simpl.
  rewrite Hme, Hinc. destruct (updateCallRequest h); cbn;
    now rewrite skipn_own_length.
Qed.

(** X12. The answer of an invited member is allowed. While a call rings
    at a user who is a member of its conversation, every update that
    [acceptIncomingCall] or [rejectIncomingCall] sends is addressed to the
    row of that call and passes both update policies of [call_requests],
    the one of the first schema and the one that replaces it. *)
Theorem answer_passes_the_policies :
  forall (h : Host) (s : State) (me : UserId) (inc : ActiveCall)
         (row : Policy.call_request) (is_member : Z -> UserId -> bool)
         (i : Z) (st : Status) (who : option UserId),
    currentUser s = Some me ->
    incomingCall (view s) = Some inc ->
    ac_status inc = pending ->
    stored_as inc row ->
    is_member (Policy.conversation_id row) me = true ->
    In (UpdateCallRequest i st who)
       (issued (acceptIncomingCall h) s ++ issued (rejectIncomingCall h) s) ->
    i = Policy.id row
    /\ who = Some me
    /\ Policy.requester_or_acceptor me row (Policy.updated row st who) = true
    /\ Policy.update_member is_member me row (Policy.updated row st who)
       = true.
Proof.
  intros h s me inc row is_member i st who Hme Hinc Hpending
         (Hid & Hreq & Hacc & Hst) Hmember Hin.
  assert (Hsent : i = ac_id inc /\ who = Some me).
  { apply in_app_or in Hin. destruct Hin as [Hin|Hin].
    - destruct (accept_issues h s me inc Hme Hinc) as (rest & Hrun & Hrest).
      rewrite Hrun in Hin. destruct Hin as [Hin|Hin].
      + injection Hin as <- _ <-. auto.
      + now apply Hrest in Hin.
    - rewrite (reject_issues h s me inc Hme Hinc) in Hin.
      destruct Hin as [Hin|[]]. injection Hin as <- _ <-. auto. }
  destruct Hsent as [-> ->]. repeat split; [congruence | |].
  - unfold Policy.requester_or_acceptor, Policy.requester_or_acceptor_using,
      Policy.requester_or_acceptor_check. cbn.
    rewrite Hst, Hpending, String.eqb_refl. cbn. apply orb_true_r.
  - unfold Policy.update_member, Policy.update_member_using,
      Policy.update_member_check. cbn.
    rewrite Hmember, String.eqb_refl. cbn. now rewrite orb_true_r.
Qed.

Lemma answer_passes_the_policies_witness :
  1 = Policy.id {| Policy.id := 1; Policy.conversation_id := 7;
                   Policy.requester_id := bob; Policy.accepted_by := None;
                   Policy.status := pending |}
  /\ Some alice = Some alice
  /\ Policy.requester_or_acceptor alice
       {| Policy.id := 1; Policy.conversation_id := 7;
          Policy.requester_id := bob; Policy.accepted_by := None;
          Policy.status := pending |}
       (Policy.updated
          {| Policy.id := 1; Policy.conversation_id := 7;
             Policy.requester_id := bob; Policy.accepted_by := None;
             Policy.status := pending |} accepted (Some alice)) = true
  /\ Policy.update_member (fun _ _ => true) alice
       {| Policy.id := 1; Policy.conversation_id := 7;
          Policy.requester_id := bob; Policy.accepted_by := None;
          Policy.status := pending |}
       (Policy.updated
          {| Policy.id := 1; Policy.conversation_id := 7;
             Policy.requester_id := bob; Policy.accepted_by := None;
             Policy.status := pending |} accepted (Some alice)) = true.
Proof.
  apply (answer_passes_the_policies (host_at 0) alice_ringing alice
           {| ac_id := 1; ac_conversationId := 7; ac_requesterId := bob;
              ac_acceptedBy := None; ac_status := pending |}
           {| Policy.id := 1; Policy.conversation_id := 7;
              Policy.requester_id := bob; Policy.accepted_by := None;
              Policy.status := pending |}
           (fun _ _ => true) 1 accepted (Some alice)).
  - reflexivity.
  - reflexivity.
  - reflexivity.
  - repeat split.
  - reflexivity.
  - vm_compute. auto.
Defined.

Lemma endCall_issues (h : Host) (s : State) (me : UserId) (c : ActiveCall) :
  currentUser s = Some me ->
  call_to_end s = Some c ->
  exists rest,
    issued (endCall h) s
    = UpdateCallRequest (ac_id c) (nextStatus c me) None :: rest
    /\ forall i st who, ~ In (UpdateCallRequest i st who) rest.
Proof.
  intros Hme Hcall. unfold issued, endCall, resetCallMedia.
  monad_simpl. rewrite Hme, Hcall.
  destruct s as [u conv w r [peer q g ls rs muted] i [n closed stopped t out]].
  destruct (updateCallRequest h), peer, ls, rs; crunch;
    rewrite <- ?app_assoc, skipn_own_length;
    first [ exists []; split; [reflexivity|]; intros ? ? ? []
          | eexists [_]; split; [reflexivity|];
            intros ? ? ? [H|[]]; discriminate ].
Qed.

(** X13. Hanging up on a call that still rings is refused. When the only
    call held is an incoming one that nobody has accepted, [endCall]
    sends [status = ended] for its row without naming the user, and both
    update policies reject that row for a user who is not the requester;
    when the database answers with the refusal, the call stays in its
    slot, session and streams are untouched, and the status is [error]
    with the message of the database. *)
Theorem hangup_while_ringing_is_refused :
  forall (h : Host) (s : State) (me : UserId) (inc : ActiveCall)
         (row : Policy.call_request) (is_member : Z -> UserId -> bool),
    currentUser s = Some me ->
    activeCall (view s) = None ->
    pendingOutgoingCall (view s) = None ->
    incomingCall (view s) = Some inc ->
    String.eqb (ac_requesterId inc) me = false ->
    ac_acceptedBy inc = None ->
    stored_as inc row ->
    hd_error (issued (endCall h) s)
    = Some (UpdateCallRequest (Policy.id row) ended None)
    /\ Policy.requester_or_acceptor me row (Policy.updated row ended None)
       = false
    /\ Policy.update_member is_member me row (Policy.updated row ended None)
       = false
    /\ forall message,
         updateCallRequest h = Some message ->
         issued (endCall h) s
         = [UpdateCallRequest (Policy.id row) ended None]
         /\ incomingCall (view (run (endCall h) s)) = Some inc
         /\ media (run (endCall h) s) = media s
         /\ callStatus (view (run (endCall h) s)) = error
         /\ callError (view (run (endCall h) s)) = Some message.
Proof.
  intros h s me inc row is_member Hme Hact Hout Hinc Hother Hnobody
         (Hid & Hreq & Hacc & Hst).
  assert (Hheld : call_to_end s = Some inc)
    by (unfold call_to_end; now rewrite Hact, Hout, Hinc).
  assert (Hnext : nextStatus inc me = ended)
    by (unfold nextStatus; rewrite Hother; now rewrite andb_false_r).
  repeat split.
  - destruct (endCall_issues h s me inc Hme Hheld) as (rest & Hrun & _).
    now rewrite Hrun, Hnext, Hid.
  - unfold Policy.requester_or_acceptor, Policy.requester_or_acceptor_check.
    cbn. rewrite Hreq, Hacc, Hnobody, String.eqb_sym, Hother.
    apply andb_false_r.
  - unfold Policy.update_member, Policy.update_member_check. cbn.
    rewrite Hreq, Hacc, Hnobody, Hother. cbn.
    rewrite !andb_false_r. reflexivity.
  - unfold issued, endCall. monad_simpl. rewrite Hme, Hheld, Hnext, Hid, H.
    cbn. now rewrite skipn_own_length.
  - unfold endCall. monad_simpl. rewrite Hme, Hheld, H. exact Hinc.
  - apply endCall_without_teardown. right. right. congruence.
  - unfold endCall. monad_simpl. now rewrite Hme, Hheld, H.
  - unfold endCall. monad_simpl. now rewrite Hme, Hheld, H.
Qed.

Lemma hangup_while_ringing_is_refused_witness :
  hd_error (issued (endCall refusing_host) alice_ringing)
  = Some (UpdateCallRequest 1 ended None).
Proof.
  exact (proj1 (hangup_while_ringing_is_refused refusing_host alice_ringing
                  alice
                  {| ac_id := 1; ac_conversationId := 7; ac_requesterId := bob;
                     ac_acceptedBy := None; ac_status := pending |}
                  {| Policy.id := 1; Policy.conversation_id := 7;
                     Policy.requester_id := bob; Policy.accepted_by := None;
                     Policy.status := pending |}
                  (fun _ _ => true)
                  eq_refl eq_refl eq_refl eq_refl eq_refl eq_refl
                  (conj eq_refl (conj eq_refl (conj eq_refl eq_refl))))).
Defined.

(** ** Hang-up by the other side *)

Lemma torn_down_same (s a b : State) :
  media a = media b -> effects a = effects b ->
  torn_down s b -> torn_down s a.
Proof.
  unfold torn_down, peerConnection. intros -> ->. auto.
Qed.

Lemma cleared_after_reset (s : State) (E : State -> State) :
  (forall t, media (E t) = media t) ->
  (forall t, effects (E t) = effects t) ->
  (forall t, slots_of (E t) = slots_of t) ->
  (forall t, callStatus (view (setCallStatus idle (E t))) = idle) ->
  let s' :=
    setCallStatus idle
      (E (setPendingOutgoingCall None
            (setIncomingCall None (setActiveCall None (after_reset s))))) in
  torn_down s s' /\ no_call s' /\ callStatus (view s') = idle
  /\ outbox (effects s') = outbox (effects s).
Proof.
  intros HE1 HE2 HE3 HE4 s'. subst s'.
  pose proof (proj2 (resetCallMedia_tears_down s)) as Hdown.
  fold (after_reset s) in Hdown.
  split; [|split; [|split]].
  - apply (torn_down_same s _ (after_reset s));
      [cbn; now rewrite HE1 | cbn; now rewrite HE2 | exact Hdown].
  - unfold no_call. cbn.
    destruct (slots_of_inv _ _ (HE3 (setPendingOutgoingCall None
          (setIncomingCall None (setActiveCall None (after_reset s))))))
      as (_ & -> & -> & ->).
    cbn. auto.
  - apply HE4.
  - cbn. rewrite HE2. cbn. unfold after_reset, resetCallMedia. monad_simpl.
    destruct s as [u conv w r [peer q g ls rs muted] i e].
    destruct peer, ls, rs; reflexivity.
Qed.

(** X14. A hang-up by the other side. The notification of a row that is
    ended, cancelled or rejected, and the [call-ended] envelope (whoever
    it is addressed to), do the same: when the call they name is held in a
    slot, the full teardown runs, the three slots are cleared, the status
    is [idle] and nothing is sent; when it is not, nothing changes. *)
Theorem remote_hangup_tears_down :
  forall (h : Host) (ev : Event) (s : State) (me : UserId) (i : Z),
    currentUser s = Some me ->
    hangs_up ev = Some i ->
    let s' := run (handle h ev) s in
    if isRelated i s
    then torn_down s s' /\ no_call s' /\ callStatus (view s') = idle
         /\ issued (handle h ev) s = []
    else s' = s.
Proof.
  intros h ev s me i Hme Hev s'. subst s'.
  assert (Hquiet : forall t : State,
             outbox (effects t) = outbox (effects s) ->
             skipn (List.length (outbox (effects s))) (outbox (effects t)) = [])
    by (intros t ->; apply skipn_all_own).
  destruct ev as [raw|event sg| | | | | | | | | | ]; try discriminate.
  - cbn in Hev. unfold issued, handle, signed_in, handleCallChange.
    monad_simpl. rewrite Hme.
    destruct (normalizeCall raw) as [call|]; [|discriminate].
    destruct (ac_status call) eqn:Hst; try discriminate;
      injection Hev as <-; monad_simpl;
      destruct (isRelated (ac_id call) s); try reflexivity;
      rewrite resetCallMedia_total; cbn [fst snd Status_eqb andb];
      try destruct (String.eqb (ac_requesterId call) me); cbn [fst snd];
      match goal with
      | |- torn_down s (setCallStatus idle (setCallError ?m ?t)) /\ _ =>
          destruct (cleared_after_reset s (setCallError m))
            as (D1 & D2 & D3 & D4);
          try reflexivity; auto
      | |- torn_down s (setCallStatus idle _) /\ _ =>
          destruct (cleared_after_reset s (fun x => x)) as (D1 & D2 & D3 & D4);
          try reflexivity; auto
      end.
  - destruct event; try discriminate. cbn in Hev. injection Hev as <-.
    unfold issued, handle, signed_in, on_broadcast, on_call_ended.
    monad_simpl. rewrite Hme.
    destruct (isRelated (sig_callId sg) s); [|reflexivity].
    rewrite resetCallMedia_total. cbn [fst snd].
    destruct (cleared_after_reset s (fun x => x)) as (D1 & D2 & D3 & D4);
      try reflexivity; auto.
Qed.

Lemma remote_hangup_tears_down_witness :
  torn_down alice_offering
    (run (handle (host_at 5)
            (Broadcast call_ended (signal 2 7 bob (Some alice) None None)))
         alice_offering).
Proof.
  pose proof (remote_hangup_tears_down (host_at 5)
                (Broadcast call_ended (signal 2 7 bob (Some alice) None None))
                alice_offering alice 2 eq_refl eq_refl) as H.
  cbv zeta in H.
  change (isRelated 2 alice_offering) with true in H.
  exact (proj1 H).
Defined.

(** ** Writes the database refuses *)

(** X15. A write the database refuses changes only the status shown.
    When the insert of [requestCall], or the update of
    [acceptIncomingCall], [rejectIncomingCall] or [endCall], comes back
    with an error, the three slots, the session, the streams, the
    candidate queue and the viewed conversation are as before; either
    nothing at all has changed (the operation had nothing to do), or the
    status is [error] and an error message is shown. *)
Theorem refused_write_changes_only_the_status :
  forall (h : Host) (ev : Event) (s : State) (message : string),
    writes_call_request ev = true ->
    refusing_database message h ->
    let s' := run (handle h ev) s in
    slots_of s' = slots_of s
    /\ media s' = media s
    /\ activeConversationId s' = activeConversationId s
    /\ (s' = s
        \/ (callStatus (view s') = error
            /\ is_some (callError (view s')) = true)).
Proof.
  intros h ev s message Hev (Hupdate & Hinsert) s'. subst s'.
  destruct s as [u conv [st err act inc out] r m i e].
  destruct ev; try discriminate;
    unfold handle, requestCall, acceptIncomingCall, rejectIncomingCall,
      endCall, assertMediaContext, call_to_end, first_call, slots_of;
    monad_simpl; rewrite ?Hupdate, ?Hinsert; cbn.
  - destruct u, conv; cbn; auto 6.
    destruct st; cbn; auto 6;
      destruct (isSecureContext h), (hasGetUserMedia h); cbn; auto 6.
  - destruct u, inc; cbn; auto 6.
  - destruct u, inc; cbn; auto 6.
  - destruct u; cbn; auto 6. destruct act, out, inc; cbn; auto 6.
Qed.

Lemma refused_write_changes_only_the_status_witness :
  slots_of (run (handle refusing_host AcceptIncomingCall) alice_ringing)
  = slots_of alice_ringing.
Proof.
  exact (proj1 (refused_write_changes_only_the_status refusing_host
                  AcceptIncomingCall alice_ringing
                  "new row violates row-level security policy"
                  eq_refl (conj eq_refl eq_refl))).
Defined.

(** ** States the event loop reaches *)

Lemma currentUser_step (h : Host) (ev : Event) (s : State) :
  currentUser (step h ev s) = currentUser s.
Proof.
  unfold step. rewrite currentUser_commit. apply handle_keeps_user.
Qed.

Lemma synced_initial (h : Host) (me : UserId) (conv : option Z) :
  synced (initial h me conv).
Proof. repeat split. Qed.

(** X16. Every state the event loop reaches after sign-in has its slots in
    order: the user is still signed in, an active call is accepted, an
    incoming call is pending and was requested by someone else, a pending
    outgoing call is pending and the user's own, and the refs the handlers
    read hold what the slots hold. *)
Theorem reachable_states_are_well_formed :
  forall (trace : list (Host * Event)) (h : Host) (me : UserId)
         (conv : option Z),
    let s := steps trace (initial h me conv) in
    currentUser s = Some me /\ well_formed s /\ synced s.
Proof.
  intros trace h me conv s. subst s.
  assert (Hinv : forall t,
             currentUser t = Some me /\ well_formed t /\ synced t ->
             currentUser (steps trace t) = Some me
             /\ well_formed (steps trace t) /\ synced (steps trace t)).
  { induction trace as [|[h1 ev] rest IH]; intros t Ht; [exact Ht|].
    cbn [steps]. apply IH. destruct Ht as (Hu & Hwf & _).
    split; [now rewrite currentUser_step|].
    split; [now apply well_formed_step | apply synced_step]. }
  apply Hinv. split; [reflexivity|].
  split; [apply well_formed_initial | apply synced_initial].
Qed.

(** ** Invariants of the event loop *)

Section Invariant.

Context (P : State -> Prop).

Lemma preserves_ret {A} (a : A) : preserves P (ret a).
Proof. intros s Hs. exact Hs. Qed.

Lemma preserves_throw {A} (e : Thrown) : preserves P (@throw A e).
Proof. intros s Hs. exact Hs. Qed.

Lemma preserves_gets {A} (g : State -> A) : preserves P (gets g).
Proof. intros s Hs. exact Hs. Qed.

Lemma preserves_modify (g : State -> State) :
  (forall s, P s -> P (g s)) -> preserves P (modify g).
Proof. intros Hg s Hs. now apply Hg. Qed.

Lemma preserves_await {A} (r : Thrown + A) : preserves P (await r).
Proof. intros s Hs. destruct r; exact Hs. Qed.

Lemma preserves_await_void (r : option Thrown) : preserves P (await_void r).
Proof. intros s Hs. destruct r; exact Hs. Qed.

Lemma preserves_bind {A B} (m : M A) (k : A -> M B) :
  preserves P m -> (forall a, preserves P (k a)) -> preserves P (bind m k).
Proof.
  intros Hm Hk s Hs. unfold bind. specialize (Hm s Hs).
  destruct (m s) as [[a|e] s']; cbn in *.
  - now apply Hk.
  - exact Hm.
Qed.

Lemma preserves_try_catch {A} (m : M A) (handler : Thrown -> M A) :
  preserves P m -> (forall e, preserves P (handler e)) ->
  preserves P (try_catch m handler).
Proof.
  intros Hm Hh s Hs. unfold try_catch. specialize (Hm s Hs).
  destruct (m s) as [[a|e] s']; cbn in *.
  - exact Hm.
  - now apply Hh.
Qed.

End Invariant.

(** *** Sessions are closed before they are dropped *)

Lemma accounted_same (a b : State) :
  option_map pc_id (peerConnection a) = option_map pc_id (peerConnection b) ->
  peersCreated (effects a) = peersCreated (effects b) ->
  closedPeers (effects a) = closedPeers (effects b) ->
  sessions_accounted b -> sessions_accounted a.
Proof.
  unfold sessions_accounted. intros E1 E2 E3 (H1 & H2). split.
  - intros p Hp. rewrite E2, Hp in *. cbn in E1.
    destruct (peerConnection b) as [q|]; [|discriminate].
    injection E1 as ->. now apply H1.
  - intros i Hi. rewrite E2 in Hi. rewrite E1, E3. now apply H2.
Qed.

Lemma accounted_close (p : Peer) (s : State) :
  sessions_accounted s -> sessions_accounted (record_close p s).
Proof.
  unfold sessions_accounted. intros (H1 & H2). split.
  - exact H1.
  - intros i Hi. destruct (H2 i Hi) as [Hin|Hheld]; [left|right; exact Hheld].
    cbn. apply in_or_app. now left.
Qed.

Lemma resetCallMedia_accounted : preserves sessions_accounted resetCallMedia.
Proof.
  intros s (H1 & H2). unfold sessions_accounted in *.
  rewrite resetCallMedia_total.
  destruct (proj2 (resetCallMedia_tears_down s))
    as (Hpeer & _ & _ & _ & _ & Hclosed & _).
  fold (after_reset s) in Hpeer, Hclosed. cbn [snd].
  assert (Hcreated : peersCreated (effects (after_reset s))
                     = peersCreated (effects s)).
  { unfold after_reset, resetCallMedia. monad_simpl.
    destruct s as [u conv w r [peer q g ls rs muted] i e].
    destruct peer, ls, rs; reflexivity. }
  rewrite Hpeer, Hclosed, Hcreated. split; [discriminate|].
  intros i Hi. left. apply in_or_app.
  destruct (H2 i Hi) as [Hin|Hheld]; [now left|right].
  destruct (peerConnection s) as [p|]; [|discriminate].
  injection Hheld as ->. now left.
Qed.

Lemma createPeerConnection_accounted (h : Host) (call : ActiveCall)
    (stream : MediaStream) (me : UserId) (iceServers : list RTCIceServer) :
  preserves sessions_accounted (createPeerConnection h call stream me iceServers).
Proof.
  intros s (H1 & H2). unfold sessions_accounted in *.
  unfold createPeerConnection, peerConnection in *. monad_simpl.
  destruct s as [u conv w r [peer q g ls rs muted] i [n closed stopped t out]].
  cbn in *.
  destruct peer as [p|], (newPeerConnection h); cbn; split;
    try (intros p' Hp'; injection Hp' as <-; cbn; lia);
    try exact H1;
    try discriminate;
    intros j Hj;
    try (destruct (H2 j Hj) as [Hin|Hheld];
         [left; try apply in_or_app; auto
         |first [ discriminate
                | injection Hheld as ->; left; apply in_or_app; right;
                  now left ]]);
    try (assert (Hcases : (j < n)%nat \/ j = n) by lia;
         destruct Hcases as [Hlt| ->]; [|now right];
         destruct (H2 j Hlt) as [Hin|Hheld];
         [left; try apply in_or_app; auto
         |first [ discriminate
                | injection Hheld as ->; left; apply in_or_app; right;
                  now left ]]).
Qed.

Create HintDb accounts.

#[local] Hint Resolve resetCallMedia_accounted createPeerConnection_accounted
  : accounts.

Ltac same_part s :=
  first [ reflexivity
        | let E := fresh "E" in
          unfold update_peer, peerConnection;
          destruct (peerConnectionRef (media s)) eqn:E; cbn;
          rewrite ?E; reflexivity ].

Ltac accounted_step :=
  first
    [ apply preserves_ret | apply preserves_throw | apply preserves_gets
    | apply preserves_await | apply preserves_await_void
    | solve [auto with accounts]
    | apply preserves_modify;
      let s := fresh "s" in
      let Hs := fresh "Hs" in
      intros s Hs;
      lazymatch goal with
      | |- sessions_accounted (record_close _ _) =>
          apply accounted_close; exact Hs
      | _ =>
          apply (accounted_same _ s);
          [ same_part s | same_part s | same_part s | exact Hs ]
      end
    | apply preserves_bind; [|intros ?]
    | apply preserves_try_catch; [|intros ?]
    | match goal with
      | |- preserves _ (match ?x with _ => _ end) => destruct x
      end ].

Ltac accounted := repeat accounted_step.

Lemma add_queued_accounted (h : Host) (queued : list Candidate) :
  preserves sessions_accounted (add_queued h queued).
Proof.
  induction queued as [|c rest IH]; cbn [add_queued];
    unfold peer_addIceCandidate; accounted.
Qed.

#[local] Hint Resolve add_queued_accounted : accounts.

Lemma ensureLocalStream_accounted (h : Host) :
  preserves sessions_accounted (ensureLocalStream h).
Proof. unfold ensureLocalStream, assertMediaContext. accounted. Qed.

Lemma resolveIceServers_accounted (h : Host) :
  preserves sessions_accounted (resolveIceServers h).
Proof. unfold resolveIceServers, fetch_payload. accounted. Qed.

Lemma flush_accounted (h : Host) :
  preserves sessions_accounted (flushPendingRemoteCandidates h).
Proof. unfold flushPendingRemoteCandidates. accounted. Qed.

Lemma peer_setLocalDescription_accounted (h : Host) (sdp : Sdp) :
  preserves sessions_accounted (peer_setLocalDescription h sdp).
Proof. unfold peer_setLocalDescription. accounted. Qed.

Lemma peer_setRemoteDescription_accounted (h : Host) (sdp : Sdp) :
  preserves sessions_accounted (peer_setRemoteDescription h sdp).
Proof. unfold peer_setRemoteDescription. accounted. Qed.

#[local] Hint Resolve ensureLocalStream_accounted resolveIceServers_accounted
  flush_accounted peer_setLocalDescription_accounted
  peer_setRemoteDescription_accounted : accounts.

Lemma startCallerHandshake_accounted (h : Host) (call : ActiveCall)
    (me : UserId) :
  preserves sessions_accounted (startCallerHandshake h call me).
Proof. unfold startCallerHandshake, sendCallSignal. accounted. Qed.

Lemma answer_offer_accounted (h : Host) (me : UserId) (call : ActiveCall)
    (sg : SignalPayload) (sdp : Sdp) :
  preserves sessions_accounted (answer_offer h me call sg sdp).
Proof. unfold answer_offer, sendCallSignal. accounted. Qed.

#[local] Hint Resolve startCallerHandshake_accounted answer_offer_accounted
  : accounts.

Lemma handleCallChange_accounted (h : Host) (me : UserId)
    (raw : CallRequestRow) :
  preserves sessions_accounted (handleCallChange h me raw).
Proof. unfold handleCallChange. accounted. Qed.

Lemma on_broadcast_accounted (h : Host) (me : UserId) (event : SignalEvent)
    (sg : SignalPayload) :
  preserves sessions_accounted (on_broadcast h me event sg).
Proof.
  destruct event;
    unfold on_broadcast, on_call_accepted, on_webrtc_offer, offer_call,
      on_webrtc_answer, on_webrtc_ice, on_call_ended, peer_addIceCandidate;
    accounted.
Qed.

Lemma requestCall_accounted (h : Host) :
  preserves sessions_accounted (requestCall h).
Proof. unfold requestCall, assertMediaContext, fail_call. accounted. Qed.

Lemma acceptIncomingCall_accounted (h : Host) :
  preserves sessions_accounted (acceptIncomingCall h).
Proof. unfold acceptIncomingCall, fail_call, sendCallSignal. accounted. Qed.

Lemma rejectIncomingCall_accounted (h : Host) :
  preserves sessions_accounted (rejectIncomingCall h).
Proof. unfold rejectIncomingCall, fail_call. accounted. Qed.

Lemma endCall_accounted (h : Host) :
  preserves sessions_accounted (endCall h).
Proof. unfold endCall, fail_call, sendCallSignal. accounted. Qed.

#[local] Hint Resolve handleCallChange_accounted on_broadcast_accounted
  requestCall_accounted acceptIncomingCall_accounted
  rejectIncomingCall_accounted endCall_accounted : accounts.

Lemma handle_accounted (h : Host) (ev : Event) :
  preserves sessions_accounted (handle h ev).
Proof.
  destruct ev;
    unfold handle, signed_in, onicecandidate, onconnectionstatechange,
      oniceconnectionstatechange, ontrack, onConnectingTimeout,
      headerCallButton, sendCallSignal;
    accounted.
Qed.

Lemma step_accounted (h : Host) (ev : Event) (s : State) :
  sessions_accounted s -> sessions_accounted (step h ev s).
Proof.
  intros Hs. unfold step.
  apply (accounted_same _ (run (handle h ev) s)).
  - now rewrite peerConnection_commit.
  - unfold commit, connecting_effect.
    destruct (CallStatus_eqb _ _); [reflexivity|].
    destruct (callStatus (view (sync_refs _))); reflexivity.
  - unfold commit, connecting_effect.
    destruct (CallStatus_eqb _ _); [reflexivity|].
    destruct (callStatus (view (sync_refs _))); reflexivity.
  - now apply handle_accounted.
Qed.

(** X17. No session is leaked. In every state the event loop reaches
    after sign-in, each peer connection constructed so far has been
    closed, except possibly the one held in [peerConnectionRef]; so at
    most one session is open at any time, whatever the events and the
    answers of the host. *)
Theorem sessions_are_accounted_for :
  forall (trace : list (Host * Event)) (h : Host) (me : UserId)
         (conv : option Z),
    let s := steps trace (initial h me conv) in
    (forall p, peerConnection s = Some p ->
               (pc_id p < peersCreated (effects s))%nat)
    /\ (forall i, (i < peersCreated (effects s))%nat ->
                  In i (closedPeers (effects s))
                  \/ option_map pc_id (peerConnection s) = Some i).
Proof.
  intros trace h me conv s. subst s.
  change (sessions_accounted (steps trace (initial h me conv))).
  assert (Hinv : forall t, sessions_accounted t ->
                           sessions_accounted (steps trace t)).
  { induction trace as [|[h1 ev] rest IH]; intros t Ht; [exact Ht|].
    cbn [steps]. apply IH. now apply step_accounted. }
  apply Hinv. split.
  - discriminate.
  - cbn. intros i Hi. lia.
Qed.

(** *** The connecting timer *)

Lemma resetCallMedia_keeps_timer :
  keeps (fun s => connectingTimer (effects s)) resetCallMedia.
Proof. unfold resetCallMedia. frame. Qed.

Lemma ensureLocalStream_keeps_timer (h : Host) :
  keeps (fun s => connectingTimer (effects s)) (ensureLocalStream h).
Proof. unfold ensureLocalStream, assertMediaContext. frame. Qed.

Lemma resolveIceServers_keeps_timer (h : Host) :
  keeps (fun s => connectingTimer (effects s)) (resolveIceServers h).
Proof. unfold resolveIceServers, fetch_payload. frame. Qed.

Lemma createPeerConnection_keeps_timer (h : Host) call stream me iceServers :
  keeps (fun s => connectingTimer (effects s))
        (createPeerConnection h call stream me iceServers).
Proof. unfold createPeerConnection. frame. Qed.

Lemma peer_setLocalDescription_keeps_timer (h : Host) (sdp : Sdp) :
  keeps (fun s => connectingTimer (effects s)) (peer_setLocalDescription h sdp).
Proof. unfold peer_setLocalDescription. frame. Qed.

Lemma peer_setRemoteDescription_keeps_timer (h : Host) (sdp : Sdp) :
  keeps (fun s => connectingTimer (effects s)) (peer_setRemoteDescription h sdp).
Proof. unfold peer_setRemoteDescription. frame. Qed.

Lemma add_queued_keeps_timer (h : Host) (queued : list Candidate) :
  keeps (fun s => connectingTimer (effects s)) (add_queued h queued).
Proof.
  induction queued as [|c rest IH]; cbn [add_queued];
    unfold peer_addIceCandidate; frame.
Qed.

#[local] Hint Resolve resetCallMedia_keeps_timer ensureLocalStream_keeps_timer
  resolveIceServers_keeps_timer createPeerConnection_keeps_timer
  peer_setLocalDescription_keeps_timer peer_setRemoteDescription_keeps_timer
  add_queued_keeps_timer : frames.

Lemma flush_keeps_timer (h : Host) :
  keeps (fun s => connectingTimer (effects s)) (flushPendingRemoteCandidates h).
Proof. unfold flushPendingRemoteCandidates. frame. Qed.

Lemma startCallerHandshake_keeps_timer (h : Host) call me :
  keeps (fun s => connectingTimer (effects s)) (startCallerHandshake h call me).
Proof. unfold startCallerHandshake, sendCallSignal. frame. Qed.

#[local] Hint Resolve flush_keeps_timer startCallerHandshake_keeps_timer
  : frames.

Lemma answer_offer_keeps_timer (h : Host) me call sg sdp :
  keeps (fun s => connectingTimer (effects s)) (answer_offer h me call sg sdp).
Proof. unfold answer_offer, sendCallSignal. frame. Qed.

#[local] Hint Resolve answer_offer_keeps_timer : frames.

Lemma handleCallChange_keeps_timer (h : Host) me raw :
  keeps (fun s => connectingTimer (effects s)) (handleCallChange h me raw).
Proof. unfold handleCallChange. frame. Qed.

Lemma on_broadcast_keeps_timer (h : Host) me event sg :
  keeps (fun s => connectingTimer (effects s)) (on_broadcast h me event sg).
Proof.
  destruct event;
    unfold on_broadcast, on_call_accepted, on_webrtc_offer, offer_call,
      on_webrtc_answer, on_webrtc_ice, on_call_ended, peer_addIceCandidate;
    frame.
Qed.

Lemma requestCall_keeps_timer (h : Host) :
  keeps (fun s => connectingTimer (effects s)) (requestCall h).
Proof. unfold requestCall, assertMediaContext, fail_call. frame. Qed.

Lemma acceptIncomingCall_keeps_timer (h : Host) :
  keeps (fun s => connectingTimer (effects s)) (acceptIncomingCall h).
Proof. unfold acceptIncomingCall, fail_call, sendCallSignal. frame. Qed.

Lemma rejectIncomingCall_keeps_timer (h : Host) :
  keeps (fun s => connectingTimer (effects s)) (rejectIncomingCall h).
Proof. unfold rejectIncomingCall, fail_call. frame. Qed.

Lemma endCall_keeps_timer (h : Host) :
  keeps (fun s => connectingTimer (effects s)) (endCall h).
Proof. unfold endCall, fail_call, sendCallSignal. frame. Qed.

#[local] Hint Resolve handleCallChange_keeps_timer on_broadcast_keeps_timer
  requestCall_keeps_timer acceptIncomingCall_keeps_timer
  rejectIncomingCall_keeps_timer endCall_keeps_timer : frames.

Lemma handle_keeps_timer (h : Host) (ev : Event) :
  ev <> ConnectingTimeout ->
  keeps (fun s => connectingTimer (effects s)) (handle h ev).
Proof.
  intros Hev. destruct ev; try contradiction;
    unfold handle, signed_in, onicecandidate, onconnectionstatechange,
      oniceconnectionstatechange, ontrack, headerCallButton, sendCallSignal;
    frame.
Qed.

Lemma timeout_outcome (h : Host) (s : State) :
  let t := run (handle h ConnectingTimeout) s in
  callStatus (view t) = callStatus (view s)
  /\ (connectingTimer (effects t) = None
      \/ connectingTimer (effects t) = connectingTimer (effects s))
  /\ (view t = view s
      \/ (connectingTimer (effects s) <> None
          /\ callError (view t) = Some stillConnectingMessage)).
Proof.
  unfold handle, onConnectingTimeout. monad_simpl.
  destruct (connectingTimer (effects s)) as [due|] eqn:E; [|cbn; auto].
  destruct (due <=? now h); cbn; [|rewrite E; auto].
  repeat split; auto. right. split; [discriminate | reflexivity].
Qed.

Lemma step_timer (h : Host) (ev : Event) (s : State) :
  timer_while_connecting s -> timer_while_connecting (step h ev s).
Proof.
  unfold timer_while_connecting. intros Hs.
  unfold step. rewrite view_commit. unfold commit, connecting_effect.
  rewrite view_sync_refs.
  set (t := run (handle h ev) s).
  assert (Hrun : connectingTimer (effects t) <> None ->
                 callStatus (view s) = connecting).
  { intros Ht. apply Hs.
    assert (Hev : ev = ConnectingTimeout \/ ev <> ConnectingTimeout)
      by (destruct ev; auto; right; discriminate).
    destruct Hev as [->|Hev].
    - destruct (timeout_outcome h s) as (_ & [Hnone|Hsame] & _);
        fold t in Hnone || fold t in Hsame; congruence.
    - pose proof (handle_keeps_timer h ev Hev s) as Hk. cbn in Hk.
      fold (run (handle h ev) s) in Hk. fold t in Hk. congruence. }
  destruct (CallStatus_eqb (callStatus (view s)) (callStatus (view t))) eqn:E.
  - apply CallStatus_eqb_eq in E. cbn. intros Ht. rewrite <- E. now apply Hrun.
  - destruct (callStatus (view t)); cbn; intros Ht; congruence.
Qed.

(** X18. The "still connecting" diagnostic appears only while a call is
    connecting. In every state the event loop reaches after sign-in, a
    pending timer belongs to a call whose status is [connecting]; and
    whenever the timer callback changes what is shown, the status was
    [connecting], stays [connecting], and the message is the
    diagnostic. *)
Theorem diagnostic_only_while_connecting :
  forall (trace : list (Host * Event)) (h0 : Host) (me : UserId)
         (conv : option Z) (h : Host),
    let s := steps trace (initial h0 me conv) in
    (connectingTimer (effects s) <> None -> callStatus (view s) = connecting)
    /\ (view (step h ConnectingTimeout s) <> view s ->
        callStatus (view s) = connecting
        /\ callStatus (view (step h ConnectingTimeout s)) = connecting
        /\ callError (view (step h ConnectingTimeout s))
           = Some stillConnectingMessage).
Proof.
  intros trace h0 me conv h s. subst s.
  assert (Hinv : forall t, timer_while_connecting t ->
                           timer_while_connecting (steps trace t)).
  { induction trace as [|[h1 ev] rest IH]; intros t Ht; [exact Ht|].
    cbn [steps]. apply IH. now apply step_timer. }
  assert (Hs : timer_while_connecting (steps trace (initial h0 me conv))).
  { apply Hinv. intros Htimer. now cbn in Htimer. }
  set (s := steps trace (initial h0 me conv)) in *.
  split; [exact Hs|].
  unfold step. rewrite view_commit.
  destruct (timeout_outcome h s) as (Hstatus & _ & [Hsame|(Hset & Hmsg)]).
  - intros Hne. contradiction.
  - intros _. rewrite Hstatus. repeat split; auto.
Qed.

(** *** Sessions opened by one acceptance *)

Section TwoPhase.

(** [Q] holds until some step establishes [R], which then stays. *)
Context (Q R : State -> Prop).
Hypothesis Q_R : forall s, Q s -> R s.




End TwoPhase.



















(** ** Signing out *)

Lemma torn_down_commit (h : Host) (s a b : State) :
  torn_down s b -> torn_down s (commit h a b).
Proof.
  unfold torn_down. rewrite peerConnection_commit, media_commit.
  assert (Hclosed : closedPeers (effects (commit h a b))
                    = closedPeers (effects b)
                    /\ stoppedTracks (effects (commit h a b))
                       = stoppedTracks (effects b)).
  { unfold commit, connecting_effect.
    destruct (CallStatus_eqb _ _); [split; reflexivity|].
    destruct (callStatus (view (sync_refs b))); split; reflexivity. }
  destruct Hclosed as [-> ->]. auto.
Qed.

(** The teardown seen from a state that has the same media and the same
    closed sessions and stopped tracks. *)
Lemma torn_down_from (s s0 t : State) :
  media s0 = media s ->
  closedPeers (effects s0) = closedPeers (effects s) ->
  stoppedTracks (effects s0) = stoppedTracks (effects s) ->
  torn_down s0 t -> torn_down s t.
Proof.
  unfold torn_down, peerConnection. intros -> -> ->. auto.
Qed.

(** A teardown after a teardown adds nothing. *)
Lemma torn_down_again (s s0 t : State) :
  torn_down s s0 -> torn_down s0 t -> torn_down s t.
Proof.
  unfold torn_down.
  intros (P1 & _ & _ & L1 & R1 & C1 & T1) (P2 & Q2 & G2 & L2 & R2 & C2 & T2).
  rewrite P1 in C2. rewrite L1, R1 in T2. cbn in C2, T2.
  rewrite !app_nil_r in *. repeat split; congruence.
Qed.

Lemma sign_out_clears (h : Host) (s : State) :
  let s' := sign_out h s in
  currentUser s' = None
  /\ torn_down s s'
  /\ no_call s'
  /\ callStatus (view s') = idle
  /\ callError (view s') = None
  /\ activeConversationId s' = None
  /\ dynamicIceCacheRef (ice s') = None
  /\ iceConfigMode (ice s') = mode_env
  /\ currentIceServers (ice s') = ICE_SERVERS h.
Proof.
  unfold sign_out, onSignedOut. monad_simpl.
  rewrite resetCallMedia_total. cbn [fst snd].
  match goal with
  | |- context [after_reset ?t] => set (s0 := t)
  end.
  pose proof (proj2 (resetCallMedia_tears_down s0)) as Hdown.
  fold (after_reset s0) in Hdown.
  assert (H0 : torn_down s (after_reset s0))
    by (apply (torn_down_from s s0); [reflexivity..|exact Hdown]).
  split; [rewrite currentUser_commit; cbn; now rewrite currentUser_after_reset|].
  split.
  { apply torn_down_commit.
    apply (torn_down_same s _ (after_reset s0)); [reflexivity..|exact H0]. }
  unfold no_call. rewrite view_commit. cbn.
  assert (Hice : ice (after_reset s0) = ice s0).
  { unfold after_reset, resetCallMedia. monad_simpl.
    destruct s0 as [u conv w r [peer q g ls rs muted] i e].
    destruct peer, ls, rs; reflexivity. }
  assert (Hcommit : forall a b, ice (commit h a b) = ice b
                                /\ activeConversationId (commit h a b)
                                   = activeConversationId b).
  { intros a b. unfold commit, connecting_effect.
    destruct (CallStatus_eqb _ _); [split; reflexivity|].
    destruct (callStatus (view (sync_refs b))); split; reflexivity. }
  rewrite !(proj1 (Hcommit _ _)), (proj2 (Hcommit _ _)). cbn.
  rewrite Hice. cbn. repeat split; reflexivity.
Qed.

Lemma endCall_effect (h : Host) (s : State) :
  let t := step h EndCall s in
  torn_down s t
  \/ (media t = media s
      /\ closedPeers (effects t) = closedPeers (effects s)
      /\ stoppedTracks (effects t) = stoppedTracks (effects s)).
Proof.
  cbn zeta. unfold step.
  destruct (currentUser s) as [me|] eqn:Hme;
    [destruct (call_to_end s) as [c|] eqn:Hcall;
     [destruct (updateCallRequest h) as [message|] eqn:Hdb|]|].
  - right. rewrite media_commit.
    assert (Hrun : run (handle h EndCall) s
                   = setCallError (Some message)
                       (setCallStatus error
                          (push_output
                             (UpdateCallRequest (ac_id c) (nextStatus c me)
                                                None) s))).
    { unfold handle, endCall. monad_simpl. now rewrite Hme, Hcall, Hdb. }
    rewrite Hrun. unfold commit, connecting_effect.
    destruct (CallStatus_eqb _ _); [repeat split; reflexivity|].
    destruct (callStatus _); repeat split; reflexivity.
  - left. apply torn_down_commit.
    now apply (endCall_tears_down h s me c).
  - right. rewrite media_commit.
    assert (Hrun : run (handle h EndCall) s = s)
      by (unfold handle, endCall; monad_simpl; now rewrite Hme, Hcall).
    rewrite Hrun. unfold commit, connecting_effect.
    destruct (CallStatus_eqb _ _); [repeat split; reflexivity|].
    destruct (callStatus _); repeat split; reflexivity.
  - right. rewrite media_commit.
    assert (Hrun : run (handle h EndCall) s = s)
      by (unfold handle, endCall; monad_simpl; now rewrite Hme).
    rewrite Hrun. unfold commit, connecting_effect.
    destruct (CallStatus_eqb _ _); [repeat split; reflexivity|].
    destruct (callStatus _); repeat split; reflexivity.
Qed.

(** X20. Logging out always ends in the full teardown. [logout] first
    asks the database to end the call held, if any; whether that update
    is accepted or refused, once the session has ended nobody is signed
    in, the peer connection is closed and dropped, every track of both
    streams is stopped exactly once, queue and handshake guard are
    cleared, the three slots are empty, the status is [idle] without an
    error, no conversation is viewed, the cached ICE configuration is
    dropped and the configured servers are current in mode [env]. *)
Theorem logout_tears_down :
  forall (h1 h2 : Host) (s : State),
    let s' := logout h1 h2 s in
    currentUser s' = None
    /\ torn_down s s'
    /\ no_call s'
    /\ callStatus (view s') = idle
    /\ callError (view s') = None
    /\ activeConversationId s' = None
    /\ dynamicIceCacheRef (ice s') = None
    /\ iceConfigMode (ice s') = mode_env
    /\ currentIceServers (ice s') = ICE_SERVERS h2.
Proof.
  intros h1 h2 s s'. subst s'. unfold logout.
  destruct (sign_out_clears h2 (step h1 EndCall s))
    as (Huser & Hdown & Hrest).
  split; [exact Huser|]. split; [|exact Hrest].
  destruct (endCall_effect h1 s) as [Hfirst|(Hm & Hc & Ht)].
  - now apply (torn_down_again s (step h1 EndCall s)).
  - now apply (torn_down_from s (step h1 EndCall s)).
Qed.

(** ** Handshakes that go through *)

(** The resolver always returns servers; it touches the ICE part of the
    state and may record one fetch. *)
Lemma resolve_shape (h : Host) (s : State) :
  exists (servers : list RTCIceServer) (config : IceConfig) (fetched : bool),
    resolveIceServers h s
    = (Ok servers,
       with_ice (fun _ => config)
                (if fetched then push_output FetchIceServers s else s)).
Proof.
  unfold resolveIceServers, fetch_payload. monad_simpl.
  destruct s as [u conv w r m i e].
  cbn [ice dynamicIceCacheRef].
  destruct (cache_fresh h (dynamicIceCacheRef i)) as [cached|].
  - exists cached, i, false. reflexivity.
  - destruct (iceFetch h) as [|[|] [data|]]; cbn;
      try (eexists _, _, true; reflexivity).
    destruct (sanitizeIceServers (iceServers data));
      eexists _, _, true; reflexivity.
Qed.

Lemma resolve_depends_on_ice (h : Host) (a b : State) :
  ice a = ice b ->
  fst (resolveIceServers h a) = fst (resolveIceServers h b).
Proof.
  intros Hice. unfold resolveIceServers, fetch_payload. monad_simpl.
  rewrite Hice.
  destruct (cache_fresh h (dynamicIceCacheRef (ice b))); [reflexivity|].
  destruct (iceFetch h) as [|[|] [data|]]; cbn; try reflexivity.
  destruct (sanitizeIceServers (iceServers data)); reflexivity.
Qed.

Lemma ensureLocalStream_available (h : Host) (s : State)
    (stream : MediaStream) :
  media_available h s stream ->
  ensureLocalStream h s = (Ok stream, setLocalStream (Some stream) s).
Proof.
  intros (Hsecure & Hmedia & Hstream).
  unfold ensureLocalStream, assertMediaContext. monad_simpl.
  rewrite Hsecure, Hmedia. cbn.
  destruct s as [u conv w r [peer q g ls rs muted] i e]. cbn in *.
  destruct ls as [mine|]; [now subst mine|].
  now rewrite Hstream.
Qed.

(** X21. The caller handshake on a host that cooperates. When the call
    has been accepted, no handshake for it holds a session, the media
    context allows calls and the camera delivers a stream (or one is held
    already), and the constructor, [createOffer] and [setLocalDescription]
    succeed, then [startCallerHandshake] closes the session held before,
    constructs one for this call with the user's stream and the servers
    the resolver returns, sets the offer as its local description, and
    sends the offer to the user who accepted, as the last request. *)
Theorem caller_handshake_sends_the_offer :
  forall (h : Host) (call : ActiveCall) (me : UserId) (s : State)
         (stream : MediaStream) (offer : Sdp),
    truthy_opt (ac_acceptedBy call) = true ->
    handshake_guard call s = false ->
    media_available h s stream ->
    newPeerConnection h = None ->
    createOffer h = inr offer ->
    setLocalDescription h = None ->
    let s' := snd (startCallerHandshake h call me s) in
    exists (servers : list RTCIceServer) (fetch : list Output),
      fst (resolveIceServers h s) = Ok servers
      /\ peerConnection s'
         = Some {| pc_id := peersCreated (effects s);
                   pc_call := call;
                   pc_owner := me;
                   pc_stream := stream;
                   pc_iceServers := servers;
                   remoteDescription := None;
                   localDescription := Some offer;
                   addedCandidates := [] |}
      /\ closedPeers (effects s') = (closedPeers (effects s) ++ closing s)%list
      /\ localStream (media s') = Some stream
      /\ handshakeStartedForCallRef (media s') = Some (ac_id call)
      /\ callStatus (view s') = connecting
      /\ (fetch = [] \/ fetch = [FetchIceServers])
      /\ issued (startCallerHandshake h call me) s
         = (fetch
            ++ [SendSignal webrtc_offer
                  {| sig_callId := ac_id call;
                     sig_from := me;
                     sig_to := ac_acceptedBy call;
                     sig_conversationId := ac_conversationId call;
                     sig_sdp := Some offer;
                     sig_candidate := None |}])%list.
Proof.
  intros h call me s stream offer Hacc Hguard Hmedia Hnew Hoffer Hlocal s'.
  subst s'. unfold issued, run, startCallerHandshake.
  rewrite Hacc. cbn [negb]. monad_simpl. rewrite Hguard. monad_simpl.
  set (s1 := setCallStatus connecting
               (setHandshakeStartedForCall (Some (ac_id call)) s)).
  assert (Hmedia1 : media_available h s1 stream) by exact Hmedia.
  rewrite (ensureLocalStream_available h s1 stream Hmedia1).
  set (s2 := setLocalStream (Some stream) s1).
  destruct (resolve_shape h s2) as (servers & config & fetched & Hres).
  assert (Hsame : fst (resolveIceServers h s) = Ok servers).
  { rewrite (resolve_depends_on_ice h s s2) by reflexivity.
    now rewrite Hres. }
  rewrite Hres.
  unfold createPeerConnection, peer_setLocalDescription, update_peer,
    closing, peerConnection.
  monad_simpl. rewrite Hnew, Hoffer, Hlocal. subst s2 s1.
  destruct s as [u conv w r [peer q g ls rs muted] i [n closed stopped t out]].
  exists servers, (if fetched then [FetchIceServers] else []).
  split; [exact Hsame|].
  destruct fetched, peer; cbn;
    rewrite <- ?app_assoc, ?skipn_own_length, ?app_nil_r;
    repeat split; auto.
Qed.

Lemma caller_handshake_sends_the_offer_witness :
  exists (servers : list RTCIceServer) (fetch : list Output),
    fst (resolveIceServers (host_at 0) alice_requesting) = Ok servers
    /\ peerConnection
         (snd (startCallerHandshake (host_at 0)
                 {| ac_id := 2; ac_conversationId := 7;
                    ac_requesterId := alice; ac_acceptedBy := Some bob;
                    ac_status := accepted |} alice alice_requesting))
       = Some {| pc_id := 0;
                 pc_call := {| ac_id := 2; ac_conversationId := 7;
                               ac_requesterId := alice;
                               ac_acceptedBy := Some bob;
                               ac_status := accepted |};
                 pc_owner := alice;
                 pc_stream := [0%nat; 1%nat];
                 pc_iceServers := servers;
                 remoteDescription := None;
                 localDescription := Some "offer";
                 addedCandidates := [] |}.
Proof.
  destruct (caller_handshake_sends_the_offer (host_at 0)
              {| ac_id := 2; ac_conversationId := 7; ac_requesterId := alice;
                 ac_acceptedBy := Some bob; ac_status := accepted |}
              alice alice_requesting [0%nat; 1%nat] "offer"
              eq_refl eq_refl (conj eq_refl (conj eq_refl eq_refl))
              eq_refl eq_refl eq_refl)
    as (servers & fetch & H1 & H2 & _).
  exists servers, fetch. split; [exact H1 | exact H2].
Defined.

Lemma flush_shape (h : Host) (s : State) (p : Peer) (sdp : Sdp) :
  peerConnection s = Some p ->
  remoteDescription p = Some sdp ->
  flushPendingRemoteCandidates h s
  = (Ok tt,
     setPeerConnection
       (Some (peer_with_candidates
                (filter (candidate_applies h)
                        (pendingRemoteCandidatesRef (media s))) p))
       (setPendingRemoteCandidates [] s)).
Proof.
  intros Hpeer Hremote. unfold flushPendingRemoteCandidates. monad_simpl.
  rewrite Hpeer, Hremote.
  destruct (pendingRemoteCandidatesRef (media s)) as [|c q] eqn:Hq.
  - unfold peerConnection in Hpeer.
    destruct s as [u conv w r [peer queue g ls rs muted] i e], p.
    cbn in *. subst peer queue. unfold peer_with_candidates. cbn.
    now rewrite app_nil_r.
  - monad_simpl.
    destruct (add_queued_filters h (c :: q)
                (setPendingRemoteCandidates [] s) p Hpeer) as (H1 & H2).
    destruct (add_queued h (c :: q) (setPendingRemoteCandidates [] s))
      as [res t]. cbn in H1, H2. now subst res t.
Qed.

Lemma answer_offer_goes_through (h : Host) (me : UserId) (call : ActiveCall)
    (sg : SignalPayload) (s : State) (stream : MediaStream)
    (sdp answer : Sdp) :
  media_available h s stream ->
  newPeerConnection h = None ->
  setRemoteDescription h sdp = None ->
  createAnswer h = inr answer ->
  setLocalDescription h = None ->
  let s' := snd (answer_offer h me call sg sdp s) in
  exists (servers : list RTCIceServer) (fetch : list Output),
    fst (resolveIceServers h s) = Ok servers
    /\ view s' = view (setCallStatus connecting s)
    /\ peerConnection s'
       = Some {| pc_id := peersCreated (effects s);
                 pc_call := call;
                 pc_owner := me;
                 pc_stream := stream;
                 pc_iceServers := servers;
                 remoteDescription := Some sdp;
                 localDescription := Some answer;
                 addedCandidates :=
                   filter (candidate_applies h)
                          (pendingRemoteCandidatesRef (media s)) |}
    /\ pendingRemoteCandidatesRef (media s') = []
    /\ closedPeers (effects s') = (closedPeers (effects s) ++ closing s)%list
    /\ (fetch = [] \/ fetch = [FetchIceServers])
    /\ outbox (effects s')
       = (outbox (effects s) ++ fetch
          ++ [SendSignal webrtc_answer
                {| sig_callId := ac_id call;
                   sig_from := me;
                   sig_to := Some (sig_from sg);
                   sig_conversationId := ac_conversationId call;
                   sig_sdp := Some answer;
                   sig_candidate := None |}])%list.
Proof.
  intros Hmedia Hnew Hremote Hanswer Hlocal s'. subst s'.
  unfold answer_offer. monad_simpl.
  set (s1 := setCallStatus connecting s).
  assert (Hmedia1 : media_available h s1 stream) by exact Hmedia.
  rewrite (ensureLocalStream_available h s1 stream Hmedia1).
  set (s2 := setLocalStream (Some stream) s1).
  destruct (resolve_shape h s2) as (servers & config & fetched & Hres).
  assert (Hsame : fst (resolveIceServers h s) = Ok servers).
  { rewrite (resolve_depends_on_ice h s s2) by reflexivity.
    now rewrite Hres. }
  rewrite Hres.
  unfold createPeerConnection, peer_setRemoteDescription,
    peer_setLocalDescription, closing, peerConnection.
  monad_simpl. rewrite Hnew, Hremote. subst s2 s1.
  destruct s as [u conv w r [peer q g ls rs muted] i [n closed stopped t out]].
  exists servers, (if fetched then [FetchIceServers] else []).
  split; [exact Hsame|].
  destruct fetched, peer; cbn -[flushPendingRemoteCandidates];
    erewrite flush_shape by reflexivity;
    cbn; rewrite Hanswer, Hlocal; cbn;
    rewrite <- ?app_assoc, ?app_nil_r;
    repeat split; auto.
Qed.

(** X22. The callee answers on a host that cooperates. When an offer
    arrives for the call that rings (or for the active call), the media
    context allows calls, and the constructor, [setRemoteDescription],
    [createAnswer] and [setLocalDescription] succeed, the offer handler
    makes the call the active one, closes the session held before,
    constructs one with the user's stream and the resolved servers, sets
    the offer as remote and the answer as local description, adds the
    queued candidates that apply, in order, and sends the answer to the
    sender of the offer, as the last request. *)
Theorem callee_answers_the_offer :
  forall (h : Host) (me : UserId) (sg : SignalPayload) (s : State)
         (call : ActiveCall) (stream : MediaStream) (sdp answer : Sdp),
    synced s ->
    for_someone_else sg me = false ->
    sig_sdp sg = Some sdp ->
    fst (offer_call me sg s) = Ok (Some call) ->
    media_available h s stream ->
    newPeerConnection h = None ->
    setRemoteDescription h sdp = None ->
    createAnswer h = inr answer ->
    setLocalDescription h = None ->
    let s' := run (on_webrtc_offer h me sg) s in
    exists (servers : list RTCIceServer) (fetch : list Output),
      fst (resolveIceServers h s) = Ok servers
      /\ activeCall (view s') = Some call
      /\ (incomingCall (view s') = None
          \/ incomingCall (view s') = incomingCall (view s))
      /\ callStatus (view s') = connecting
      /\ peerConnection s'
         = Some {| pc_id := peersCreated (effects s);
                   pc_call := call;
                   pc_owner := me;
                   pc_stream := stream;
                   pc_iceServers := servers;
                   remoteDescription := Some sdp;
                   localDescription := Some answer;
                   addedCandidates :=
                     filter (candidate_applies h)
                            (pendingRemoteCandidatesRef (media s)) |}
      /\ pendingRemoteCandidatesRef (media s') = []
      /\ closedPeers (effects s') = (closedPeers (effects s) ++ closing s)%list
      /\ (fetch = [] \/ fetch = [FetchIceServers])
      /\ issued (on_webrtc_offer h me sg) s
         = (fetch
            ++ [SendSignal webrtc_answer
                  {| sig_callId := ac_id call;
                     sig_from := me;
                     sig_to := Some (sig_from sg);
                     sig_conversationId := ac_conversationId call;
                     sig_sdp := Some answer;
                     sig_candidate := None |}])%list.
Proof.
  intros h me sg s call stream sdp answer (Hsync & _ & _) Hto Hsdp Hcall
         Hmedia Hnew Hremote Hanswer Hlocal s'. subst s'.
  destruct (offer_call me sg s) as [found s0] eqn:Hfound.
  cbn in Hcall. subst found.
  assert (Hs0 : media s0 = media s /\ ice s0 = ice s /\ effects s0 = effects s
                /\ activeCall (view s0) = Some call
                /\ (incomingCall (view s0) = None
                    \/ incomingCall (view s0) = incomingCall (view s))).
  { revert Hfound. unfold offer_call. monad_simpl.
    destruct (matching (activeCallRef (refs s)) (sig_callId sg)) as [c|] eqn:Ha.
    - intros H. injection H as <- <-.
      repeat split; auto. rewrite <- Hsync. unfold matching in Ha.
      destruct (activeCallRef (refs s)) as [a|]; [|discriminate].
      destruct (ac_id a =? sig_callId sg); [exact Ha | discriminate].
    - destruct (matching (incomingCallRef (refs s)) (sig_callId sg)) as [c|];
        [|discriminate].
      intros H. injection H as <- <-. cbn. auto 6. }
  destruct Hs0 as (Hm0 & Hi0 & He0 & Hact0 & Hinc0).
  assert (Hrun : on_webrtc_offer h me sg s
                 = answer_offer h me call sg sdp s0).
  { unfold on_webrtc_offer. rewrite Hto, Hsdp. unfold bind.
    now rewrite Hfound. }
  assert (Hmedia0 : media_available h s0 stream)
    by (unfold media_available in *; now rewrite Hm0).
  destruct (answer_offer_goes_through h me call sg s0 stream sdp answer
              Hmedia0 Hnew Hremote Hanswer Hlocal)
    as (servers & fetch & R1 & R2 & R3 & R4 & R5 & R6 & R7).
  exists servers, fetch. unfold issued, run. rewrite Hrun.
  unfold closing, peerConnection in *. rewrite <- Hm0, <- He0.
  rewrite R2, R7, skipn_own_length. cbn.
  repeat split; auto.
  rewrite <- R1. apply resolve_depends_on_ice. now rewrite Hi0.
Qed.

Lemma callee_answers_the_offer_witness :
  exists (servers : list RTCIceServer) (fetch : list Output),
    fst (resolveIceServers (host_at 0) alice_ringing) = Ok servers
    /\ activeCall
         (view (run (on_webrtc_offer (host_at 0) alice
                       (signal 1 7 bob (Some alice) (Some "offer") None))
                    alice_ringing))
       = Some {| ac_id := 1; ac_conversationId := 7; ac_requesterId := bob;
                 ac_acceptedBy := Some alice; ac_status := accepted |}.
Proof.
  destruct (callee_answers_the_offer (host_at 0) alice
              (signal 1 7 bob (Some alice) (Some "offer") None)
              alice_ringing
              {| ac_id := 1; ac_conversationId := 7; ac_requesterId := bob;
                 ac_acceptedBy := Some alice; ac_status := accepted |}
              [0%nat; 1%nat] "offer" "answer"
              (conj eq_refl (conj eq_refl eq_refl))
              eq_refl eq_refl eq_refl
              (conj eq_refl (conj eq_refl eq_refl))
              eq_refl eq_refl eq_refl eq_refl)
    as (servers & fetch & H1 & H2 & _).
  exists servers, fetch. split; [exact H1 | exact H2].
Defined.

(** ** Sessions are given ICE servers *)

Lemma ICE_SERVERS_not_empty (h : Host) : ICE_SERVERS h <> [].
Proof.
  unfold ICE_SERVERS, parseIceServers.
  destruct (VITE_ICE_SERVERS_JSON h) as [| |v]; try discriminate.
  destruct (sanitizeIceServers v); discriminate.
Qed.

Lemma present_same (a b : State) :
  dynamicIceCacheRef (ice a) = dynamicIceCacheRef (ice b) ->
  option_map pc_iceServers (peerConnection a)
  = option_map pc_iceServers (peerConnection b) ->
  servers_present b -> servers_present a.
Proof.
  unfold servers_present, cache_not_empty, session_configured.
  intros E1 E2 (H1 & H2). rewrite E1. split; [exact H1|].
  intros p Hp. rewrite Hp in E2. cbn in E2.
  destruct (peerConnection b) as [q|]; [|discriminate].
  injection E2 as ->. now apply H2.
Qed.

Lemma preserves_bind_value {A B} (P : State -> Prop) (V : A -> Prop)
    (m : M A) (k : A -> M B) :
  (forall s, P s -> P (snd (m s)) /\ forall a, fst (m s) = Ok a -> V a) ->
  (forall a, V a -> preserves P (k a)) ->
  preserves P (bind m k).
Proof.
  intros Hm Hk s Hs. unfold bind. destruct (Hm s Hs) as [Hp Hv].
  destruct (m s) as [[a|e] s']; cbn in *; [|exact Hp].
  apply Hk; auto.
Qed.

Lemma resolve_present (h : Host) (s : State) :
  servers_present s ->
  servers_present (snd (resolveIceServers h s))
  /\ forall servers, fst (resolveIceServers h s) = Ok servers -> servers <> [].
Proof.
  intros Hs.
  assert (Hkeep : forall g : State -> State,
             (forall t, dynamicIceCacheRef (ice (g t))
                        = dynamicIceCacheRef (ice t)) ->
             (forall t, peerConnection (g t) = peerConnection t) ->
             forall t, servers_present t -> servers_present (g t)).
  { intros g G1 G2 t Ht. apply (present_same _ t); [apply G1| |exact Ht].
    now rewrite G2. }
  unfold resolveIceServers, fetch_payload. monad_simpl.
  destruct (cache_fresh h (dynamicIceCacheRef (ice s))) as [cached|] eqn:Hc.
  - split; [exact Hs|]. intros servers H. injection H as <-.
    unfold cache_fresh in Hc.
    destruct (dynamicIceCacheRef (ice s)) as [c|] eqn:E; [|discriminate].
    destruct (_ <? _); [|discriminate]. injection Hc as <-.
    now apply (proj1 Hs c).
  - assert (Hfall : servers_present
                      (setIceConfigMode mode_env
                         (setCurrentIceServers (ICE_SERVERS h)
                            (push_output FetchIceServers s)))).
    { apply (present_same _ s); [reflexivity..|exact Hs]. }
    destruct (iceFetch h) as [|[|] [data|]]; cbn;
      try (split; [exact Hfall|]; intros servers H; injection H as <-;
           apply ICE_SERVERS_not_empty).
    destruct (sanitizeIceServers (iceServers data)) as [|x l] eqn:Ex; cbn.
    + split; [exact Hfall|]. intros servers H. injection H as <-.
      apply ICE_SERVERS_not_empty.
    + split; [|intros servers H; injection H as <-; discriminate].
      destruct Hs as (H1 & H2). split.
      * intros c Hcache. cbn in Hcache. injection Hcache as <-. discriminate.
      * exact H2.
Qed.

Lemma createPeerConnection_present (h : Host) (call : ActiveCall)
    (stream : MediaStream) (me : UserId) (servers : list RTCIceServer) :
  servers <> [] ->
  preserves servers_present (createPeerConnection h call stream me servers).
Proof.
  intros Hservers s (H1 & H2).
  unfold createPeerConnection, peerConnection. monad_simpl.
  destruct (peerConnectionRef (media s)) as [p|] eqn:Hp,
           (newPeerConnection h); cbn;
    split; try exact H1; try exact H2;
    unfold session_configured, peerConnection; cbn;
    intros q Hq; injection Hq as <-; exact Hservers.
Qed.

Lemma resetCallMedia_present : preserves servers_present resetCallMedia.
Proof.
  intros s (H1 & H2). rewrite resetCallMedia_total. cbn [snd]. split.
  - assert (Hice : ice (after_reset s) = ice s).
    { unfold after_reset, resetCallMedia. monad_simpl.
      destruct s as [u conv w r [peer q g ls rs muted] i e].
      destruct peer, ls, rs; reflexivity. }
    unfold cache_not_empty. now rewrite Hice.
  - intros p Hp. unfold peerConnection in Hp.
    rewrite peer_after_reset in Hp. discriminate.
Qed.

Create HintDb presents.

#[local] Hint Resolve resetCallMedia_present createPeerConnection_present
  : presents.

Ltac present_part s :=
  first [ reflexivity
        | let E := fresh "E" in
          unfold update_peer, peerConnection;
          destruct (peerConnectionRef (media s)) eqn:E; cbn;
          rewrite ?E; reflexivity ].

Ltac present_step :=
  first
    [ apply preserves_ret | apply preserves_throw | apply preserves_gets
    | apply preserves_await | apply preserves_await_void
    | solve [auto with presents]
    | apply preserves_modify;
      let s := fresh "s" in
      let Hs := fresh "Hs" in
      intros s Hs; apply (present_same _ s);
      [ present_part s | present_part s | exact Hs ]
    | match goal with
      | |- preserves servers_present (bind (resolveIceServers ?h) _) =>
          apply (preserves_bind_value servers_present (fun a => a <> []));
          [ intros ? ?; now apply resolve_present | intros ? ? ]
      end
    | apply preserves_bind; [|intros ?]
    | apply preserves_try_catch; [|intros ?]
    | match goal with
      | |- preserves _ (match ?x with _ => _ end) => destruct x
      end ].

Ltac present := repeat present_step.

Lemma add_queued_present (h : Host) (queued : list Candidate) :
  preserves servers_present (add_queued h queued).
Proof.
  induction queued as [|c rest IH]; cbn [add_queued];
    unfold peer_addIceCandidate; present.
Qed.

#[local] Hint Resolve add_queued_present : presents.

Lemma ensureLocalStream_present (h : Host) :
  preserves servers_present (ensureLocalStream h).
Proof. unfold ensureLocalStream, assertMediaContext. present. Qed.

Lemma flush_present (h : Host) :
  preserves servers_present (flushPendingRemoteCandidates h).
Proof. unfold flushPendingRemoteCandidates. present. Qed.

Lemma peer_setLocalDescription_present (h : Host) (sdp : Sdp) :
  preserves servers_present (peer_setLocalDescription h sdp).
Proof. unfold peer_setLocalDescription. present. Qed.

Lemma peer_setRemoteDescription_present (h : Host) (sdp : Sdp) :
  preserves servers_present (peer_setRemoteDescription h sdp).
Proof. unfold peer_setRemoteDescription. present. Qed.

#[local] Hint Resolve ensureLocalStream_present flush_present
  peer_setLocalDescription_present peer_setRemoteDescription_present
  : presents.

Lemma startCallerHandshake_present (h : Host) (call : ActiveCall)
    (me : UserId) :
  preserves servers_present (startCallerHandshake h call me).
Proof. unfold startCallerHandshake, sendCallSignal. present. Qed.

Lemma answer_offer_present (h : Host) (me : UserId) (call : ActiveCall)
    (sg : SignalPayload) (sdp : Sdp) :
  preserves servers_present (answer_offer h me call sg sdp).
Proof. unfold answer_offer, sendCallSignal. present. Qed.

#[local] Hint Resolve startCallerHandshake_present answer_offer_present
  : presents.

Lemma handleCallChange_present (h : Host) (me : UserId)
    (raw : CallRequestRow) :
  preserves servers_present (handleCallChange h me raw).
Proof. unfold handleCallChange. present. Qed.

Lemma on_broadcast_present (h : Host) (me : UserId) (event : SignalEvent)
    (sg : SignalPayload) :
  preserves servers_present (on_broadcast h me event sg).
Proof.
  destruct event;
    unfold on_broadcast, on_call_accepted, on_webrtc_offer, offer_call,
      on_webrtc_answer, on_webrtc_ice, on_call_ended, peer_addIceCandidate;
    present.
Qed.

Lemma requestCall_present (h : Host) :
  preserves servers_present (requestCall h).
Proof. unfold requestCall, assertMediaContext, fail_call. present. Qed.

Lemma acceptIncomingCall_present (h : Host) :
  preserves servers_present (acceptIncomingCall h).
Proof. unfold acceptIncomingCall, fail_call, sendCallSignal. present. Qed.

Lemma rejectIncomingCall_present (h : Host) :
  preserves servers_present (rejectIncomingCall h).
Proof. unfold rejectIncomingCall, fail_call. present. Qed.

Lemma endCall_present (h : Host) :
  preserves servers_present (endCall h).
Proof. unfold endCall, fail_call, sendCallSignal. present. Qed.

#[local] Hint Resolve handleCallChange_present on_broadcast_present
  requestCall_present acceptIncomingCall_present rejectIncomingCall_present
  endCall_present : presents.

Lemma handle_present (h : Host) (ev : Event) :
  preserves servers_present (handle h ev).
Proof.
  destruct ev;
    unfold handle, signed_in, onicecandidate, onconnectionstatechange,
      oniceconnectionstatechange, ontrack, onConnectingTimeout,
      headerCallButton, sendCallSignal;
    present.
Qed.

Lemma step_present (h : Host) (ev : Event) (s : State) :
  servers_present s -> servers_present (step h ev s).
Proof.
  intros Hs. unfold step.
  apply (present_same _ (run (handle h ev) s)).
  - unfold commit, connecting_effect.
    destruct (CallStatus_eqb _ _); [reflexivity|].
    destruct (callStatus (view (sync_refs _))); reflexivity.
  - now rewrite peerConnection_commit.
  - now apply handle_present.
Qed.

(** X23. A session is never constructed without ICE servers. In every
    state the event loop reaches after sign-in, the session held, if any,
    was given at least one server, and the resolver, asked at any time
    and whatever the endpoint answers, returns at least one server. *)
Theorem sessions_have_ice_servers :
  forall (trace : list (Host * Event)) (h0 : Host) (me : UserId)
         (conv : option Z) (h : Host),
    let s := steps trace (initial h0 me conv) in
    (forall p, peerConnection s = Some p -> pc_iceServers p <> [])
    /\ exists server rest,
         fst (resolveIceServers h s) = Ok (server :: rest).
Proof.
  intros trace h0 me conv h s. subst s.
  assert (Hinv : forall t, servers_present t ->
                           servers_present (steps trace t)).
  { induction trace as [|[h1 ev] rest IH]; intros t Ht; [exact Ht|].
    cbn [steps]. apply IH. now apply step_present. }
  assert (Hs : servers_present (steps trace (initial h0 me conv))).
  { apply Hinv. split; intros x Hx; discriminate. }
  set (s := steps trace (initial h0 me conv)) in *.
  split; [exact (proj2 Hs)|].
  destruct (resolve_shape h s) as (servers & config & fetched & Hres).
  destruct (resolve_present h s Hs) as (_ & Hne).
  rewrite Hres in *. cbn in *.
  destruct servers as [|server rest]; [now destruct (Hne [] eq_refl)|].
  now exists server, rest.
Qed.
